(** * PulsePress ingestion pipeline: content gate, deduplicator, fetch and
      process stages.

    A shallow embedding of the TypeScript sources
    (services/ingestion/content-analyzer, deduplicator, content-cleaner,
    services/ai/summarizer and jobs/workers) together with the properties the
    specification states about them, followed by further functions of the
    pipeline (the feed mapping of rss-parser, the image test of the scraper,
    the scheduler, the slug of the article handler, the escaping of the
    rewriter) and further properties of the code, numbered X1, X2, ...

    Strings.  A JavaScript string is modelled as a list of characters
    ([str]).  The model is exact on ASCII text, where one character is one
    UTF-16 code unit and one UTF-8 byte; text outside ASCII is carried as its
    UTF-8 bytes and is neither case-mapped nor treated as white space. *)

From Stdlib Require Import List Ascii String ZArith NArith Lia Bool Arith PeanoNat
  Permutation.
Import ListNotations.

Open Scope string_scope.
Open Scope list_scope.
Open Scope nat_scope.

(* ================================================================== *)
(** ** JavaScript string primitives *)
(* ================================================================== *)

Module JS.

Definition str := list ascii.

Definition lit (s : string) : str := list_ascii_of_string s.
Coercion lit : string >-> str.

Definition code (c : ascii) : N := N_of_ascii c.

(** [\s] and the characters removed by [trim()], on ASCII: TAB, LF, VT, FF,
    CR and SPACE. *)
Definition isSpace (c : ascii) : bool :=
  let n := code c in ((9 <=? n) && (n <=? 13) || (n =? 32))%N.

Definition isUpper (c : ascii) : bool :=
  let n := code c in ((65 <=? n) && (n <=? 90))%N.

Definition isLower (c : ascii) : bool :=
  let n := code c in ((97 <=? n) && (n <=? 122))%N.

Definition isDigit (c : ascii) : bool :=
  let n := code c in ((48 <=? n) && (n <=? 57))%N.

(** [\w] is [[A-Za-z0-9_]]. *)
Definition isWord (c : ascii) : bool :=
  isUpper c || isLower c || isDigit c || (code c =? 95)%N.

Definition lowerChar (c : ascii) : ascii :=
  if isUpper c then ascii_of_N (code c + 32) else c.

Definition upperChar (c : ascii) : ascii :=
  if isLower c then ascii_of_N (code c - 32) else c.

Definition toLowerCase (s : str) : str := map lowerChar s.
Definition toUpperCase (s : str) : str := map upperChar s.

Definition chr_eqb (a b : ascii) : bool := Ascii.eqb a b.

Fixpoint str_eqb (a b : str) : bool :=
  match a, b with
  | [], [] => true
  | x :: a', y :: b' => chr_eqb x y && str_eqb a' b'
  | _, _ => false
  end.

(** [s.startsWith(p)] *)
Fixpoint startsWith (s p : str) : bool :=
  match p, s with
  | [], _ => true
  | _ :: _, [] => false
  | a :: p', b :: s' => chr_eqb a b && startsWith s' p'
  end.

(** [s.endsWith(p)] *)
Definition endsWith (s p : str) : bool := startsWith (rev s) (rev p).

(** [s.includes(p)] *)
Fixpoint includes (s p : str) : bool :=
  startsWith s p ||
  match s with
  | [] => false
  | _ :: r => includes r p
  end.

(** Number of positions of [s] at which [p] occurs. *)
Fixpoint countOcc (s p : str) : nat :=
  match s with
  | [] => 0
  | _ :: r => (if startsWith s p then 1 else 0) + countOcc r p
  end.

Fixpoint trimStart (s : str) : str :=
  match s with
  | [] => []
  | c :: r => if isSpace c then trimStart r else s
  end.

Definition trimEnd (s : str) : str := rev (trimStart (rev s)).

(** [s.trim()] *)
Definition trim (s : str) : str := trimEnd (trimStart s).

(** [s.substring(0, n)] for [n >= 0]. *)
Definition substring0 (n : nat) (s : str) : str := firstn n s.

(** [s.split(/\s+/)]: the fields between maximal runs of white space; a
    leading or trailing run leaves an empty field, and the empty string
    gives one empty field. *)
Fixpoint splitWs_aux (s : str) (cur : str) (inWs : bool) : list str :=
  match s with
  | [] => [rev cur]
  | c :: r =>
      if isSpace c then
        if inWs then splitWs_aux r cur true
        else rev cur :: splitWs_aux r [] true
      else splitWs_aux r (c :: cur) false
  end.

Definition splitWs (s : str) : list str := splitWs_aux s [] false.

(** [s.replace(/\s+/g, r)]: every maximal run of white space becomes [r]. *)
Fixpoint replaceWs_aux (r : str) (s : str) (inWs : bool) : str :=
  match s with
  | [] => []
  | c :: t =>
      if isSpace c then
        if inWs then replaceWs_aux r t true
        else r ++ replaceWs_aux r t true
      else c :: replaceWs_aux r t false
  end.

Definition replaceWs (r s : str) : str := replaceWs_aux r s false.

(** [s.replace(/<[^>]*>/g, " ")]: a [<] opens a match exactly when some [>]
    follows it; the match then runs to the first such [>]. *)
Fixpoint stripTagsFrom (inTag : bool) (s : str) : str :=
  match s with
  | [] => []
  | c :: r =>
      if inTag then
        if chr_eqb c ">" then stripTagsFrom false r else stripTagsFrom true r
      else if chr_eqb c "<" && existsb (chr_eqb ">") r
           then " "%char :: stripTagsFrom true r
           else c :: stripTagsFrom false r
  end.

Definition stripTags (s : str) : str := stripTagsFrom false s.

(** [/w1|w2|.../i.test(s)] for lower-case literal alternatives. *)
Definition testAnyCI (alts : list str) (s : str) : bool :=
  existsb (includes (toLowerCase s)) alts.

(** Truthiness of a string: the empty string is falsy. *)
Definition truthy (s : str) : bool :=
  match s with [] => false | _ => true end.

(** [a || b] on strings. *)
Definition orElse (a b : str) : str := if truthy a then a else b.

End JS.

Import JS.

(* ================================================================== *)
(** ** services/ingestion/content-analyzer.ts *)
(* ================================================================== *)

(** The byte sequence of the second alternative of the [endsAbruptly]
    pattern, as it stands in the source file. *)
Definition ellipsisSeq : str :=
  map ascii_of_nat [195; 162; 226; 130; 172; 194; 166].

Definition readMoreMarkers : list str :=
  [lit "read more"; lit "continue reading"; lit "full story"; lit "view more"].

Definition hasReadMore (content : str) : bool :=
  testAnyCI readMoreMarkers content.

(** [/\.\.\.|<ellipsisSeq>$/.test(t)]: the anchor binds to the second
    alternative only. *)
Definition endsAbruptly (t : str) : bool :=
  includes t "..." || endsWith t ellipsisSeq.

Definition isFullContent (content title : str) : bool :=
  if negb (truthy content) then false
  else
    let plainText := trim (stripTags content) in
    let wordCount := List.length (splitWs plainText) in
    let minWordCount := 250 <=? wordCount in
    let minCharCount := 1000 <=? List.length plainText in
    if hasReadMore content || endsAbruptly (trim plainText) then false
    else if minWordCount && minCharCount then true
    else false.

Record ContentStats := mkStats {
  wordCount : nat;
  charCount : nat;
  paragraphs : nat;
  hasImages : bool
}.

Definition getContentStats (content : str) : ContentStats :=
  let plainText := trim (stripTags content) in
  {| wordCount := List.length (filter truthy (splitWs plainText));
     charCount := List.length plainText;
     paragraphs := countOcc (toLowerCase content) "<p>";
     hasImages := includes (toLowerCase content) "<img" |}.

Definition needsScraping (content sourceType title : str) : bool :=
  if str_eqb sourceType "rss-scrape" then true
  else if str_eqb sourceType "rss-full" then
    if negb (isFullContent content title) then true else false
  else negb (isFullContent content title).


(* ================================================================== *)
(** ** MD5 (RFC 1321), as used by crypto.createHash("md5") and by
       PostgreSQL's MD5() *)
(* ================================================================== *)

Module MD5.

Local Open Scope Z_scope.

Definition w32 (x : Z) : Z := x mod 4294967296.

Definition not32 (x : Z) : Z := 4294967295 - x.

Definition rotl (x c : Z) : Z :=
  w32 (Z.lor (Z.shiftl x c) (Z.shiftr x (32 - c))).

Definition shifts : list Z :=
  [7; 12; 17; 22; 7; 12; 17; 22; 7; 12; 17; 22; 7; 12; 17; 22;
   5; 9; 14; 20; 5; 9; 14; 20; 5; 9; 14; 20; 5; 9; 14; 20;
   4; 11; 16; 23; 4; 11; 16; 23; 4; 11; 16; 23; 4; 11; 16; 23;
   6; 10; 15; 21; 6; 10; 15; 21; 6; 10; 15; 21; 6; 10; 15; 21].

Definition sines : list Z :=
  [0xd76aa478; 0xe8c7b756; 0x242070db; 0xc1bdceee;
   0xf57c0faf; 0x4787c62a; 0xa8304613; 0xfd469501;
   0x698098d8; 0x8b44f7af; 0xffff5bb1; 0x895cd7be;
   0x6b901122; 0xfd987193; 0xa679438e; 0x49b40821;
   0xf61e2562; 0xc040b340; 0x265e5a51; 0xe9b6c7aa;
   0xd62f105d; 0x02441453; 0xd8a1e681; 0xe7d3fbc8;
   0x21e1cde6; 0xc33707d6; 0xf4d50d87; 0x455a14ed;
   0xa9e3e905; 0xfcefa3f8; 0x676f02d9; 0x8d2a4c8a;
   0xfffa3942; 0x8771f681; 0x6d9d6122; 0xfde5380c;
   0xa4beea44; 0x4bdecfa9; 0xf6bb4b60; 0xbebfbc70;
   0x289b7ec6; 0xeaa127fa; 0xd4ef3085; 0x04881d05;
   0xd9d4d039; 0xe6db99e5; 0x1fa27cf8; 0xc4ac5665;
   0xf4292244; 0x432aff97; 0xab9423a7; 0xfc93a039;
   0x655b59c3; 0x8f0ccc92; 0xffeff47d; 0x85845dd1;
   0x6fa87e4f; 0xfe2ce6e0; 0xa3014314; 0x4e0811a1;
   0xf7537e82; 0xbd3af235; 0x2ad7d2bb; 0xeb86d391].

(** [n] little-endian bytes of [x]. *)
Fixpoint le_bytes (n : nat) (x : Z) : list Z :=
  match n with
  | O => []
  | S n' => x mod 256 :: le_bytes n' (x / 256)
  end.

Fixpoint le_word (bs : list Z) : Z :=
  match bs with
  | [] => 0
  | b :: r => b + 256 * le_word r
  end.

Definition pad (msg : list Z) : list Z :=
  let n := Z.of_nat (List.length msg) in
  msg ++ [128] ++ repeat 0 (Z.to_nat ((55 - n) mod 64))
      ++ le_bytes 8 ((8 * n) mod 18446744073709551616).

Fixpoint groups (fuel k : nat) (l : list Z) : list (list Z) :=
  match fuel, l with
  | O, _ => []
  | _, [] => []
  | S fuel', _ => firstn k l :: groups fuel' k (skipn k l)
  end.

Definition words (chunk : list Z) : list Z :=
  map le_word (groups 16 4 chunk).

Definition state := (Z * Z * Z * Z)%type.

Definition step (M : list Z) (st : state) (i : nat) : state :=
  let '(a, b, c, d) := st in
  let iz := Z.of_nat i in
  let '(f, g) :=
    if (i <? 16)%nat then (Z.lor (Z.land b c) (Z.land (not32 b) d), iz)
    else if (i <? 32)%nat then
      (Z.lor (Z.land d b) (Z.land (not32 d) c), (5 * iz + 1) mod 16)
    else if (i <? 48)%nat then (Z.lxor (Z.lxor b c) d, (3 * iz + 5) mod 16)
    else (Z.lxor c (Z.lor b (not32 d)), (7 * iz) mod 16) in
  let f' := w32 (f + a + nth i sines 0 + nth (Z.to_nat g) M 0) in
  (d, w32 (b + rotl f' (nth i shifts 0)), b, c).

Definition compress (st : state) (chunk : list Z) : state :=
  let '(a0, b0, c0, d0) := st in
  let '(a, b, c, d) := fold_left (step (words chunk)) (seq 0 64) st in
  (w32 (a0 + a), w32 (b0 + b), w32 (c0 + c), w32 (d0 + d)).

Definition init : state := (0x67452301, 0xefcdab89, 0x98badcfe, 0x10325476).

Definition digest (msg : list Z) : list Z :=
  let p := pad msg in
  let '(a, b, c, d) :=
    fold_left compress (groups (List.length p) 64 p) init in
  le_bytes 4 a ++ le_bytes 4 b ++ le_bytes 4 c ++ le_bytes 4 d.

Definition hexDigit (n : Z) : ascii :=
  if n <? 10 then ascii_of_N (Z.to_N (48 + n)) else ascii_of_N (Z.to_N (87 + n)).

Definition hex (bs : list Z) : str :=
  flat_map (fun b => [hexDigit (b / 16); hexDigit (b mod 16)]) bs.

(** Hex digest of the bytes of a string. *)
Definition md5 (s : str) : str :=
  hex (digest (map (fun c => Z.of_N (code c)) s)).

End MD5.


(* ================================================================== *)
(** ** The relational store (db/client.ts and the schema migration) *)
(* ================================================================== *)

Inductive ArticleStatus := draft | pending | published | archived.

Record ArticleRow := mkArticle {
  art_id : nat;
  art_title : str;
  art_slug : str;
  art_summary : str;
  content_original : option str;
  content_rewritten : str;
  source_url : str;
  art_source_name : str;
  art_source_id : nat;
  author_name : str;
  category_id : option nat;
  featured_image : option str;
  art_keywords : list str;
  art_entities : str;
  art_status : ArticleStatus;
  published_at : Z;
  is_trending : bool;
  is_featured : bool
}.

Record SourceRow := mkSource {
  src_id : nat;
  src_name : str;
  src_type : str;
  base_url : str;
  is_active : bool;
  success_count : nat;
  error_count : nat;
  last_error : option str;
  last_fetched_at : option Z
}.

Record CategoryRow := mkCategory {
  cat_id : nat;
  cat_slug : str
}.

Record DB := mkDB {
  news_sources : list SourceRow;
  articles : list ArticleRow;
  categories : list CategoryRow
}.

(** The statements the pipeline sends through [query], with their
    parameters. *)
Inductive Query :=
| SelectArticleBySourceUrl (url : str)
| SelectArticleByLowerTitle (title : str)
| SelectArticleByContentMd5 (hash : str)
| SelectActiveSource (id : nat)
| SelectSourceId (id : nat)
| UpdateSourceSuccess (id : nat)
| UpdateSourceError (msg : str) (id : nat)
| SelectCategoryBySlug (slug : str)
| SelectFallbackCategory
| InsertArticle (row : ArticleRow).

(** PostgreSQL's [TRIM(x)]: spaces only, both ends. *)
Fixpoint pgTrimStart (s : str) : str :=
  match s with
  | [] => []
  | c :: r => if chr_eqb c " " then pgTrimStart r else s
  end.

Definition pgTrim (s : str) : str := rev (pgTrimStart (rev (pgTrimStart s))).

Definition pgCoalesce (s : option str) : str :=
  match s with Some x => x | None => lit "" end.

(** [SELECT id FROM articles WHERE source_url = $1] *)
Definition rowsBySourceUrl (db : DB) (u : str) : list nat :=
  map art_id (filter (fun a => str_eqb (source_url a) u) (articles db)).

(** [SELECT id FROM articles WHERE LOWER(title) = LOWER($1)] *)
Definition rowsByLowerTitle (db : DB) (t : str) : list nat :=
  map art_id
    (filter (fun a => str_eqb (toLowerCase (art_title a)) (toLowerCase t))
       (articles db)).

(** [SELECT id FROM articles
     WHERE MD5(LOWER(TRIM(COALESCE(content_original, '')))) = $1] *)
Definition rowsByContentMd5 (db : DB) (h : str) : list nat :=
  map art_id
    (filter
       (fun a =>
          str_eqb
            (MD5.md5 (toLowerCase (pgTrim (pgCoalesce (content_original a)))))
            h)
       (articles db)).

(** [new URL(url)]: the three components [normalizeUrl] reads. *)
Record URL := mkURL { protocol : str; host : str; pathname : str }.


(* ================================================================== *)
(** ** Records exchanged between the stages *)
(* ================================================================== *)

(** rss-parser.ts, [ParsedArticle].  An absent string field is the empty
    string; the image hints keep the [url] they carry. *)
Record Enclosure := mkEnclosure { enc_url : str; enc_type : option str }.

Record ParsedArticle := mkParsed {
  pa_title : str;
  pa_link : str;
  pa_content : str;
  pa_contentSnippet : str;
  pa_pubDate : str;
  pa_author : str;
  pa_enclosure : option Enclosure;
  pa_mediaContent : option str;
  pa_mediaThumbnail : option str;
  pa_media_content_raw : option str;
  pa_media_thumbnail_raw : option str
}.

(** scraper.ts, [ScrapedArticle] (the fields the workers read). *)
Record ScrapedArticle := mkScraped {
  sc_title : str;
  sc_content : str;
  sc_byline : str;
  sc_publishedTime : str
}.

(** The payload handed to [addProcessJob]. *)
Record ProcessJob := mkJob {
  job_sourceId : nat;
  job_sourceName : str;
  job_title : str;
  job_link : str;
  job_content : str;
  job_author : str;
  job_pubDate : str;
  job_imageUrl : option str
}.

(** Outcome of one POST to the inference API, as [generateAISummary] reads
    it: a response body with or without a summary text, an error the code
    answers by trying the alternative model (HTTP 503 or a timeout), or any
    other error. *)
Inductive HttpResult :=
| Responded (summary : option str)
| Unavailable
| Errored.

(** ** External collaborators

    Everything the pipeline reaches outside this repository, injected as one
    environment. *)
Record Env := mkEnv {
  (** [new URL(url)]; [None] when the constructor throws. *)
  parseURL : str -> option URL;
  (** Which statements the storage layer rejects by throwing. *)
  fails : Query -> bool;
  (** [new Date(s).getTime()] in milliseconds; [None] for NaN. *)
  dateParse : str -> option Z;
  (** [new Date().getTime()] and SQL [NOW()]. *)
  now : Z;
  (** rss-parser; [None] when it throws. *)
  parseRSSFeed : str -> option (list ParsedArticle);
  (** Readability-based scraper; [None] for [null]. *)
  scrapeArticle : str -> option ScrapedArticle;
  (** cheerio-based image search; [None] for [null]. *)
  extractImageUrl : str -> str -> option str;
  (** Whether the process queue accepts a job ([false]: [add] throws). *)
  queueAccepts : ProcessJob -> bool;
  (** DOMPurify with the allow-list of content-cleaner.ts. *)
  cleanHTML : str -> str;
  (** [config.ai.huggingfaceApiKey] is set. *)
  huggingfaceApiKey : bool;
  (** POST to facebook/bart-large-cnn with inputs, min_length, max_length. *)
  postBart : str -> nat -> nat -> HttpResult;
  (** POST to sshleifer/distilbart-cnn-12-6. *)
  postDistilBart : str -> nat -> nat -> HttpResult;
  (** natural / compromise based extraction. *)
  extractKeywords : str -> nat -> list str;
  extractEntities : str -> str;
  (** The rewriter; [None] when it throws. *)
  rewriteArticleWithHTML :
    str -> str -> str -> option str -> list str -> option str;
  (** Zero-shot classifier; [None] for [null]. *)
  classifyArticle : str -> str -> option nat
}.

(* ================================================================== *)
(** ** services/ingestion/deduplicator.ts *)
(* ================================================================== *)

Section Deduplicator.

Variable E : Env.

Definition normalizeUrl (url : str) : str :=
  match parseURL E url with
  | Some parsed =>
      toLowerCase (protocol parsed ++ lit "//" ++ host parsed ++ pathname parsed)
  | None => toLowerCase url
  end.

Definition generateContentHash (content : str) : str :=
  MD5.md5 (trim (toLowerCase content)).

(** [await query(sql, params)] for a read: the rows, or [None] when the
    call throws. *)
Definition query {A : Type} (q : Query) (rows : A) : option A :=
  if fails E q then None else Some rows.

Definition isDuplicate (db : DB) (sourceUrl title content : str) : bool :=
  let normalizedUrl := normalizeUrl sourceUrl in
  match query (SelectArticleBySourceUrl normalizedUrl)
          (rowsBySourceUrl db normalizedUrl) with
  | None => false
  | Some urlRows =>
    if 0 <? List.length urlRows then true
    else
      match query (SelectArticleByLowerTitle title)
              (rowsByLowerTitle db title) with
      | None => false
      | Some titleRows =>
        if 0 <? List.length titleRows then true
        else
          let contentHash := generateContentHash content in
          match query (SelectArticleByContentMd5 contentHash)
                  (rowsByContentMd5 db contentHash) with
          | None => false
          | Some hashRows =>
            if 0 <? List.length hashRows then true else false
          end
      end
  end.

End Deduplicator.

(* ================================================================== *)
(** ** jobs/workers.ts: scoring helpers and the slug *)
(* ================================================================== *)

Definition sixHours : Z := (6 * 60 * 60 * 1000)%Z.

Definition titleSignals : list str :=
  [lit "breaking"; lit "urgent"; lit "just in"; lit "developing"; lit "live";
   lit "update"].

Definition contentSignals : list str :=
  [lit "breaking"; lit "urgent"; lit "alert"; lit "exclusive"].

Definition breakingLexicon : list str :=
  [lit "breaking"; lit "urgent"; lit "crisis"; lit "emergency"; lit "alert"].

(** [array.includes(x)] on strings. *)
Definition arrayIncludes (l : list str) (x : str) : bool :=
  existsb (str_eqb x) l.

(** [array.filter(Boolean).length] *)
Definition countTrue (l : list bool) : nat :=
  List.length (filter (fun b => b) l).

Definition isRecent (E : Env) (pubDate : str) : bool :=
  if truthy pubDate then
    match dateParse E pubDate with
    | Some t => (now E - t <? sixHours)%Z
    | None => false
    end
  else true.

Definition trendingIndicators (title content : str) (keywords : list str)
  : list bool :=
  [ testAnyCI titleSignals title;
    testAnyCI contentSignals (substring0 200 content);
    existsb (fun k => arrayIncludes breakingLexicon (toLowerCase k)) keywords ].

Definition shouldBeTrending (E : Env) (title content : str)
    (keywords : list str) (pubDate : str) : bool :=
  let hasTrendingSignals := 1 <=? countTrue (trendingIndicators title content keywords) in
  isRecent E pubDate && hasTrendingSignals.

Definition clickbaitMarks : list str :=
  [lit "?"; lit "!"; lit "you won't believe"; lit "shocking"; lit "incredible"].

Definition truthyOpt (o : option str) : bool :=
  match o with Some s => truthy s | None => false end.

Record QualityChecks := mkChecks {
  hasImage : bool;
  hasGoodLength : bool;
  hasStructure : bool;
  hasGoodTitle : bool;
  notClickbait : bool
}.

Definition qualityChecks (title : str) (contentStats : ContentStats)
    (imageUrl : option str) : QualityChecks :=
  {| hasImage := truthyOpt imageUrl;
     hasGoodLength := 500 <=? wordCount contentStats;
     hasStructure := 3 <=? paragraphs contentStats;
     hasGoodTitle := (30 <=? List.length title) && (List.length title <=? 100);
     notClickbait := negb (testAnyCI clickbaitMarks title) |}.

(** [Object.values(qualityChecks)] *)
Definition checkValues (q : QualityChecks) : list bool :=
  [hasImage q; hasGoodLength q; hasStructure q; hasGoodTitle q; notClickbait q].

Definition shouldBeFeatured (title _content : str) (contentStats : ContentStats)
    (imageUrl : option str) : bool :=
  let qualityScore := countTrue (checkValues (qualityChecks title contentStats imageUrl)) in
  4 <=? qualityScore.

(** [s.replace(/[^\w\s-]/g, "")] *)
Definition stripNonWord (s : str) : str :=
  filter (fun c => isWord c || isSpace c || chr_eqb c "-") s.

(** [s.replace(/-+/g, "-")] *)
Fixpoint collapseHyphens (s : str) : str :=
  match s with
  | [] => []
  | c :: r =>
      if chr_eqb c "-" then
        match r with
        | d :: _ => if chr_eqb d "-" then collapseHyphens r else c :: collapseHyphens r
        | [] => [c]
        end
      else c :: collapseHyphens r
  end.

(** The slug expression of [processWorker]. *)
Definition slugOf (title : str) : str :=
  substring0 100
    (trim (collapseHyphens (replaceWs "-" (stripNonWord (toLowerCase title))))).

(* ================================================================== *)
(** ** services/ai/summarizer.ts *)
(* ================================================================== *)

(** [.], [!] and [?]. *)
Definition isTerm (c : ascii) : bool :=
  chr_eqb c "." || chr_eqb c "!" || chr_eqb c "?".

(** Line terminators, which [.] in a pattern does not match. *)
Definition isLineTerm (c : ascii) : bool :=
  (code c =? 10)%N || (code c =? 13)%N.

(** Length of the first alternative that matches at the head of [s],
    ignoring case. *)
Fixpoint firstMatchCI (alts : list str) (s : str) : option nat :=
  match alts with
  | [] => None
  | a :: rest =>
      if startsWith (toLowerCase s) a then Some (List.length a)
      else firstMatchCI rest s
  end.

(** [s.replace(/a1|a2|.../gi, "")] for non-empty lower-case literals. *)
Fixpoint removeAllCI_aux (alts : list str) (skip : nat) (s : str) : str :=
  match s with
  | [] => []
  | c :: r =>
      match skip with
      | S k => removeAllCI_aux alts k r
      | O =>
          match firstMatchCI alts s with
          | Some (S k) => removeAllCI_aux alts k r
          | _ => c :: removeAllCI_aux alts 0 r
          end
      end
  end.

Definition removeAllCI (alts : list str) (s : str) : str :=
  removeAllCI_aux alts 0 s.

(** Number of characters of [r], closing bracket included, that the lazy
    [.*?\]] consumes after an opening bracket; [None] when a line
    terminator or the end of the text comes first. *)
Fixpoint bracketSpan (r : str) : option nat :=
  match r with
  | [] => None
  | c :: t =>
      if chr_eqb c "]" then Some 1
      else if isLineTerm c then None
      else option_map S (bracketSpan t)
  end.

(** [s.replace(/\[.*?\]/g, "")] *)
Fixpoint removeBrackets_aux (skip : nat) (s : str) : str :=
  match s with
  | [] => []
  | c :: r =>
      match skip with
      | S k => removeBrackets_aux k r
      | O =>
          if chr_eqb c "[" then
            match bracketSpan r with
            | Some n => removeBrackets_aux n r
            | None => c :: removeBrackets_aux 0 r
            end
          else c :: removeBrackets_aux 0 r
      end
  end.

Definition removeBrackets (s : str) : str := removeBrackets_aux 0 s.

Definition noisePhrases : list str :=
  [lit "click here"; lit "read more"; lit "continue reading";
   lit "subscribe now"; lit "sign up"].

Definition adWords : list str := [lit "advertisement"; lit "sponsored"].

(** [s.substring(s.length - n)] for [n <= s.length]. *)
Definition lastChars (n : nat) (s : str) : str :=
  skipn (List.length s - n) s.

Definition prepareTextForSummarization (text : str) : str :=
  let cleaned := trim (replaceWs " " text) in
  let cleaned := removeAllCI noisePhrases cleaned in
  let cleaned := removeBrackets cleaned in
  let cleaned := removeAllCI adWords cleaned in
  let cleaned :=
    if 4000 <? List.length cleaned
    then substring0 2000 cleaned ++ lit " " ++ lastChars 2000 cleaned
    else cleaned in
  trim cleaned.

(** Index of the last [.], [!] or [?]: the maximum of the three
    [lastIndexOf] calls, [None] standing for -1. *)
Fixpoint lastTermFrom (i : nat) (s : str) (best : option nat) : option nat :=
  match s with
  | [] => best
  | c :: r => lastTermFrom (S i) r (if isTerm c then Some i else best)
  end.

Definition lastPunctuation (s : str) : option nat := lastTermFrom 0 s None.

Definition endsWithTerm (s : str) : bool :=
  match rev s with
  | c :: _ => isTerm c
  | [] => false
  end.

Definition capitalizeFirst (s : str) : str :=
  match s with
  | [] => []
  | c :: r => upperChar c :: r
  end.

Definition cleanSummary (summary : str) : str :=
  let cleaned := trim summary in
  let cleaned :=
    if negb (endsWithTerm cleaned) then
      match lastPunctuation cleaned with
      | Some (S i) => substring0 (S i + 1) cleaned
      | _ => cleaned ++ lit "."
      end
    else cleaned in
  let cleaned := trim (replaceWs " " cleaned) in
  capitalizeFirst cleaned.

(** [text.match(/[^.!?]+[.!?]+/g)]: each match is a maximal run of other
    characters followed by a maximal run of terminators; [body] and [punct]
    hold the current match, reversed. *)
Fixpoint sentences_aux (s body punct : str) : list str :=
  match s with
  | [] =>
      if truthy body && truthy punct then [rev body ++ rev punct] else []
  | c :: r =>
      if isTerm c then
        if truthy body then sentences_aux r body (c :: punct)
        else sentences_aux r [] []
      else
        if truthy punct then (rev body ++ rev punct) :: sentences_aux r [c] []
        else sentences_aux r (c :: body) []
  end.

Definition matchSentences (text : str) : list str := sentences_aux text [] [].

Definition importantWords : list str :=
  [lit "announce"; lit "revealed"; lit "discovered"; lit "found";
   lit "reported"; lit "confirmed"; lit "stated"; lit "according";
   lit "official"; lit "breaking"; lit "new"; lit "first"; lit "major";
   lit "significant"; lit "important"].

(** Number of matches of [/\b[A-Z][a-z]+/g]; [prevWord] tells whether the
    character before the head is a word character. *)
Fixpoint countCapitalized (prevWord : bool) (s : str) : nat :=
  match s with
  | [] => 0
  | c :: r =>
      (match r with
       | d :: _ => if negb prevWord && isUpper c && isLower d then 1 else 0
       | [] => 0
       end) + countCapitalized (isWord c) r
  end.

(** Number of matches of [/\d+/g]: the maximal runs of digits. *)
Fixpoint countNumbers (inRun : bool) (s : str) : nat :=
  match s with
  | [] => 0
  | c :: r =>
      (if isDigit c && negb inRun then 1 else 0) + countNumbers (isDigit c) r
  end.

(** The quotation tests: a quote character, any run of other characters,
    and the same quote character again, that is two occurrences of it. *)
Definition hasQuoted (q : ascii) (s : str) : bool :=
  2 <=? List.length (filter (chr_eqb q) s).

Definition doubleQuote : ascii := ascii_of_nat 34.

Record Scored := mkScored {
  sentence : str;
  score2 : nat;   (** twice the score: the numerals term counts in halves *)
  index : nat
}.

Definition scoreSentence (sentence : str) (index : nat) : Scored :=
  let lowerSentence := toLowerCase sentence in
  let position := if index <? 3 then 10 - index * 2 else 0 in
  let important :=
    List.length (filter (includes lowerSentence) importantWords) * 2 in
  let capitalized := Nat.min (countCapitalized false sentence) 5 in
  let numbers2 := Nat.min (countNumbers false sentence * 3) 10 in
  let wordCount := List.length (splitWs sentence) in
  let lengthBonus := if (10 <=? wordCount) && (wordCount <=? 30) then 3 else 0 in
  let quoteBonus :=
    if hasQuoted doubleQuote sentence || hasQuoted "'" sentence then 3 else 0 in
  {| sentence := trim sentence;
     score2 := 2 * (position + important + capitalized + lengthBonus + quoteBonus)
               + numbers2;
     index := index |}.

Fixpoint mapi_from {A B : Type} (f : A -> nat -> B) (i : nat) (l : list A)
  : list B :=
  match l with
  | [] => []
  | x :: r => f x i :: mapi_from f (S i) r
  end.

(** [Array.prototype.sort] is stable.  [before a b] says that the
    comparator puts [a] strictly before [b]; an element is inserted in front
    of the later elements unless one of them goes strictly before it. *)
Fixpoint insertBy {A : Type} (before : A -> A -> bool) (x : A) (l : list A)
  : list A :=
  match l with
  | [] => [x]
  | y :: r => if before y x then y :: insertBy before x r else x :: y :: r
  end.

Definition stableSort {A : Type} (before : A -> A -> bool) (l : list A)
  : list A :=
  fold_right (insertBy before) [] l.

(** The selection loop: stop once the target is reached, or after the
    tenth sentence. *)
Fixpoint selectSentences (items : list Scored) (targetLength : nat)
    (selected : list Scored) (currentLength : nat) : list Scored :=
  match items with
  | [] => selected
  | item :: rest =>
      if targetLength <=? currentLength then selected
      else
        let selected := selected ++ [item] in
        let currentLength := currentLength + List.length (sentence item) in
        if 10 <=? List.length selected then selected
        else selectSentences rest targetLength selected currentLength
  end.

(** [parts.join(" ")] *)
Fixpoint joinSpace (parts : list str) : str :=
  match parts with
  | [] => []
  | [p] => p
  | p :: rest => p ++ lit " " ++ joinSpace rest
  end.

Definition generateEnhancedSummary (text : str) (targetLength : nat) : str :=
  let sentences :=
    match matchSentences text with
    | [] => [text]
    | ms => ms
    end in
  let scoredSentences := mapi_from scoreSentence 0 sentences in
  let sorted := stableSort (fun a b => score2 b <? score2 a) scoredSentences in
  let selectedSentences := selectSentences sorted targetLength [] 0 in
  let ordered := stableSort (fun a b => index a <? index b) selectedSentences in
  let summary := joinSpace (map sentence ordered) in
  cleanSummary summary.

Section Summarizer.

Variable E : Env.

(** [summary && summary.length >= minLength * 0.8] *)
Definition longEnough (summary : option str) (minLength : nat) : option str :=
  match summary with
  | Some s =>
      if truthy s && (4 * minLength <=? 5 * List.length s) then Some s else None
  | None => None
  end.

(** [None] when the function throws. *)
Definition generateAlternativeSummary (text : str) (minLength maxLength : nat)
  : option str :=
  match postDistilBart E text minLength maxLength with
  | Responded summary =>
      match longEnough summary minLength with
      | Some s => Some (cleanSummary s)
      | None => None
      end
  | _ => None
  end.

Definition generateAISummary (text : str) (minLength maxLength : nat)
  : option str :=
  match postBart E text minLength maxLength with
  | Responded summary =>
      match longEnough summary minLength with
      | Some s => Some (cleanSummary s)
      | None => None
      end
  | Unavailable => generateAlternativeSummary text minLength maxLength
  | Errored => None
  end.

Definition summarizeText (text : str) (minLength : option nat) : str :=
  let floor := match minLength with
               | Some (S m) => S m
               | _ => 200
               end in
  let targetLength := Nat.max (List.length text / 4) floor in
  let maxLength := Nat.min (targetLength + 100) 500 in
  let cleanedText := prepareTextForSummarization text in
  let fallback := generateEnhancedSummary cleanedText targetLength in
  if huggingfaceApiKey E then
    match generateAISummary cleanedText targetLength maxLength with
    | Some aiSummary =>
        if truthy aiSummary && (4 * targetLength <=? 5 * List.length aiSummary)
        then aiSummary
        else fallback
    | None =>
        generateEnhancedSummary text (Nat.max (List.length text / 4) 200)
    end
  else fallback.

End Summarizer.

(* ================================================================== *)
(** ** services/ingestion/content-cleaner.ts *)
(* ================================================================== *)

(** [s.replace(/lit/g, by)] for a literal that cannot overlap itself. *)
Fixpoint replaceLit_aux (pat by_ : str) (skip : nat) (s : str) : str :=
  match s with
  | [] => []
  | c :: r =>
      match skip with
      | S k => replaceLit_aux pat by_ k r
      | O =>
          if truthy pat && startsWith s pat
          then by_ ++ replaceLit_aux pat by_ (List.length pat - 1) r
          else c :: replaceLit_aux pat by_ 0 r
      end
  end.

Definition replaceLit (pat by_ s : str) : str := replaceLit_aux pat by_ 0 s.

Definition extractPlainText (html : str) : str :=
  let text := stripTags html in
  let text := replaceLit "&nbsp;" " " text in
  let text := replaceLit "&amp;" "&" text in
  let text := replaceLit "&lt;" "<" text in
  let text := replaceLit "&gt;" ">" text in
  let text := replaceLit "&quot;" [doubleQuote] text in
  let text := replaceLit "&#39;" "'" text in
  trim (replaceWs " " text).

(* ================================================================== *)
(** ** jobs/workers.ts: the fetch worker *)
(* ================================================================== *)

Inductive JobError :=
| QueryFailed
| SourceNotFound (sourceId : nat)
| FeedFailed
| QueueFailed
| InvalidSourceId (sourceId : nat)
| ContentTooShort (chars : nat)
| NoImageUrl
| RewriteFailed.

(** A number as a template literal prints it: in decimal. *)
Fixpoint decimal_aux (fuel n : nat) (acc : str) : str :=
  match fuel with
  | O => acc
  | S f =>
      let acc := ascii_of_nat (48 + n mod 10) :: acc in
      if n / 10 =? 0 then acc else decimal_aux f (n / 10) acc
  end.

Definition decimal (n : nat) : str := decimal_aux (S n) n [].

(** [error.message], as the workers store it in [last_error].  The four
    messages the workers build themselves are the code's own texts, with
    the id or the length the template literal prints (an id of the model is
    a number and is printed in decimal).  The text of an error thrown by
    the database client, the feed parser, the queue or the rewriter is
    that library's; a fixed text stands for it here. *)
Definition errorMessage (e : JobError) : str :=
  match e with
  | QueryFailed => lit "query failed"
  | SourceNotFound sourceId =>
      lit "Source not found or inactive: " ++ decimal sourceId
  | FeedFailed => lit "feed failed"
  | QueueFailed => lit "queue failed"
  | InvalidSourceId sourceId => lit "Invalid source_id: " ++ decimal sourceId
  | ContentTooShort chars =>
      lit "Content too short: " ++ decimal chars ++ lit " chars"
  | NoImageUrl => lit "No image URL"
  | RewriteFailed => lit "rewrite failed"
  end.

Inductive SkipReason := NoLink | Duplicate | NoImage | TooShort.

(** What one pass through the loop body decides. *)
Inductive Verdict :=
| Skip (why : SkipReason)
| Queue (job : ProcessJob).

Record LoopState := mkLoop {
  queued : nat;
  skipped : nat;
  (** the payloads given to [addProcessJob], oldest first *)
  enqueued : list ProcessJob;
  (** the articles the loop body ran on, oldest first *)
  visited : list ParsedArticle
}.

Record FetchResult := mkFetchResult {
  totalFetched : nat;
  fr_queued : nat;
  fr_skipped : nat;
  fr_source : str
}.

Record FetchRun := mkFetchRun {
  fetch_outcome : JobError + FetchResult;
  fetch_db : DB;
  fetch_jobs : list ProcessJob
}.

(** [UPDATE news_sources SET last_fetched_at = NOW(),
     success_count = success_count + 1, last_error = NULL WHERE id = $1] *)
Definition recordSuccess (t : Z) (id : nat) (db : DB) : DB :=
  {| news_sources :=
       map (fun s =>
              if src_id s =? id then
                {| src_id := src_id s; src_name := src_name s;
                   src_type := src_type s; base_url := base_url s;
                   is_active := is_active s;
                   success_count := S (success_count s);
                   error_count := error_count s;
                   last_error := None;
                   last_fetched_at := Some t |}
              else s) (news_sources db);
     articles := articles db;
     categories := categories db |}.

(** [UPDATE news_sources SET error_count = error_count + 1,
     last_error = $1 WHERE id = $2] *)
Definition recordFailure (msg : str) (id : nat) (db : DB) : DB :=
  {| news_sources :=
       map (fun s =>
              if src_id s =? id then
                {| src_id := src_id s; src_name := src_name s;
                   src_type := src_type s; base_url := base_url s;
                   is_active := is_active s;
                   success_count := success_count s;
                   error_count := S (error_count s);
                   last_error := Some msg;
                   last_fetched_at := last_fetched_at s |}
              else s) (news_sources db);
     articles := articles db;
     categories := categories db |}.

Section FetchWorker.

Variable E : Env.

Definition enclosureImage (article : ParsedArticle) : option str :=
  match pa_enclosure article with
  | Some enc =>
      if truthy (enc_url enc)
         && match enc_type enc with
            | Some t => startsWith t "image"
            | None => false
            end
      then Some (enc_url enc) else None
  | None => None
  end.

(** The chain that reads the feed's own image fields. *)
Definition rssImage (article : ParsedArticle) : option str :=
  match enclosureImage article with
  | Some u => Some u
  | None =>
      if truthyOpt (pa_mediaContent article) then pa_mediaContent article
      else if truthyOpt (pa_mediaThumbnail article) then pa_mediaThumbnail article
      else if truthyOpt (pa_media_content_raw article) then pa_media_content_raw article
      else if truthyOpt (pa_media_thumbnail_raw article) then pa_media_thumbnail_raw article
      else None
  end.

(** The [if (shouldScrape)] block: the content and image after it. *)
Definition scrapeIfBetter (article : ParsedArticle) (fullContent : str)
    (imageUrl : option str) (contentStats : ContentStats)
  : str * option str :=
  match scrapeArticle E (pa_link article) with
  | Some scraped =>
      if truthy (sc_content scraped) && (500 <? List.length (sc_content scraped))
      then
        let scrapedStats := getContentStats (sc_content scraped) in
        if 3 * wordCount contentStats <? 2 * wordCount scrapedStats then
          (sc_content scraped,
           if negb (truthyOpt imageUrl) && truthy (sc_content scraped)
           then extractImageUrl E (sc_content scraped) (pa_link article)
           else imageUrl)
        else (fullContent, imageUrl)
      else (fullContent, imageUrl)
  | None => (fullContent, imageUrl)
  end.

(** The content and the image of an article once the loop body has
    analysed it, scraped it if the analyser said so, and searched the final
    content for an image if none was found before. *)
Definition finalize (source : SourceRow) (article : ParsedArticle)
  : str * option str :=
  let imageUrl := rssImage article in
  let fullContent :=
    orElse (pa_content article) (orElse (pa_contentSnippet article) "") in
  let contentStats := getContentStats fullContent in
  let shouldScrape :=
    needsScraping fullContent (src_type source) (pa_title article) in
  let '(fullContent, imageUrl) :=
    if shouldScrape
    then scrapeIfBetter article fullContent imageUrl contentStats
    else (fullContent, imageUrl) in
  let imageUrl :=
    if negb (truthyOpt imageUrl) && truthy fullContent
    then extractImageUrl E fullContent (pa_link article)
    else imageUrl in
  (fullContent, imageUrl).

(** The body of the [for] loop for one article. *)
Definition examine (db : DB) (source : SourceRow) (article : ParsedArticle)
  : Verdict :=
  if negb (truthy (pa_link article)) then Skip NoLink
  else if isDuplicate E db (pa_link article) (pa_title article)
            (orElse (pa_content article) "")
  then Skip Duplicate
  else
    let '(fullContent, imageUrl) := finalize source article in
    if negb (truthyOpt imageUrl) then Skip NoImage
    else if List.length fullContent <? 500 then Skip TooShort
    else
      Queue {| job_sourceId := src_id source;
               job_sourceName := src_name source;
               job_title := pa_title article;
               job_link := pa_link article;
               job_content := fullContent;
               job_author := pa_author article;
               job_pubDate := pa_pubDate article;
               job_imageUrl := imageUrl |}.

Definition visit (st : LoopState) (article : ParsedArticle) : LoopState :=
  {| queued := queued st; skipped := skipped st; enqueued := enqueued st;
     visited := visited st ++ [article] |}.

Definition skipOne (st : LoopState) : LoopState :=
  {| queued := queued st; skipped := S (skipped st); enqueued := enqueued st;
     visited := visited st |}.

Definition enqueueOne (st : LoopState) (job : ProcessJob) : LoopState :=
  {| queued := S (queued st); skipped := skipped st;
     enqueued := enqueued st ++ [job]; visited := visited st |}.

(** [for (const article of articles) { ... }]; [None] when
    [addProcessJob] throws. *)
Fixpoint fetchLoop (db : DB) (source : SourceRow)
    (articles : list ParsedArticle) (st : LoopState) : option LoopState :=
  match articles with
  | [] => Some st
  | article :: rest =>
      if 1 <=? queued st then Some st
      else
        let st := visit st article in
        match examine db source article with
        | Skip _ => fetchLoop db source rest (skipOne st)
        | Queue job =>
            if queueAccepts E job then Some (enqueueOne st job) else None
        end
  end.

Definition loopStart : LoopState :=
  {| queued := 0; skipped := 0; enqueued := []; visited := [] |}.

Definition isRssType (t : str) : bool :=
  str_eqb t "rss-full" || str_eqb t "rss-scrape" || str_eqb t "rss".

(** The articles of a source; [None] when the feed parser throws. *)
Definition retrieve (source : SourceRow) : option (list ParsedArticle) :=
  if isRssType (src_type source) then parseRSSFeed E (base_url source)
  else if str_eqb (src_type source) "scraper" then
    match scrapeArticle E (base_url source) with
    | Some scraped =>
        Some [ {| pa_title := sc_title scraped;
                  pa_link := base_url source;
                  pa_content := sc_content scraped;
                  pa_contentSnippet := lit "";
                  pa_pubDate := sc_publishedTime scraped;
                  pa_author := sc_byline scraped;
                  pa_enclosure := None;
                  pa_mediaContent := None;
                  pa_mediaThumbnail := None;
                  pa_media_content_raw := None;
                  pa_media_thumbnail_raw := None |} ]
    | None => Some []
    end
  else Some [].

(** The [try] block: its result, the store and the jobs it leaves. *)
Definition fetchTry (db : DB) (sourceId : nat)
  : (JobError + FetchResult) * DB * list ProcessJob :=
  match query E (SelectActiveSource sourceId)
          (filter (fun s => (src_id s =? sourceId) && is_active s)
             (news_sources db)) with
  | None => (inl QueryFailed, db, [])
  | Some [] => (inl (SourceNotFound sourceId), db, [])
  | Some (source :: _) =>
      match retrieve source with
      | None => (inl FeedFailed, db, [])
      | Some articles =>
          match query E (UpdateSourceSuccess sourceId) tt with
          | None => (inl QueryFailed, db, [])
          | Some _ =>
              let db := recordSuccess (now E) sourceId db in
              match fetchLoop db source articles loopStart with
              | None => (inl QueueFailed, db, [])
              | Some st =>
                  (inr {| totalFetched := List.length articles;
                          fr_queued := queued st;
                          fr_skipped := skipped st;
                          fr_source := src_name source |},
                   db, enqueued st)
              end
          end
      end
  end.

(** The worker: the [catch] block records the failure against the source
    and throws again. *)
Definition fetchWorker (db : DB) (sourceId : nat) : FetchRun :=
  match fetchTry db sourceId with
  | (inr result, db', jobs) =>
      {| fetch_outcome := inr result; fetch_db := db'; fetch_jobs := jobs |}
  | (inl error, db', jobs) =>
      match query E (UpdateSourceError (errorMessage error) sourceId) tt with
      | None =>
          {| fetch_outcome := inl QueryFailed; fetch_db := db';
             fetch_jobs := jobs |}
      | Some _ =>
          {| fetch_outcome := inl error;
             fetch_db := recordFailure (errorMessage error) sourceId db';
             fetch_jobs := jobs |}
      end
  end.

End FetchWorker.

(* ================================================================== *)
(** ** jobs/workers.ts: the process worker *)
(* ================================================================== *)

Definition categoryKeywords : list (str * list str) :=
  [ (lit "top",
     [lit "breaking"; lit "top story"; lit "headline"; lit "feature";
      lit "lead"; lit "spotlight"; lit "trending"; lit "exclusive"]);
    (lit "politics",
     [lit "political"; lit "election"; lit "government"; lit "parliament";
      lit "congress"; lit "senate"; lit "policy"; lit "minister";
      lit "campaign"; lit "vote"; lit "bill"]);
    (lit "world",
     [lit "world"; lit "international"; lit "global"; lit "foreign";
      lit "country"; lit "abroad"; lit "nation"; lit "diplomacy";
      lit "overseas"]);
    (lit "business",
     [lit "business"; lit "economy"; lit "market"; lit "financial";
      lit "stock"; lit "trade"; lit "company"; lit "industry";
      lit "corporate"; lit "startup"; lit "investment"]);
    (lit "technology",
     [lit "technology"; lit "tech"; lit "software"; lit "hardware"; lit "ai";
      lit "digital"; lit "computer"; lit "internet"; lit "cyber";
      lit "innovation"; lit "gadget"; lit "app"; lit "mobile"]);
    (lit "sports",
     [lit "sport"; lit "football"; lit "basketball"; lit "soccer";
      lit "cricket"; lit "tennis"; lit "game"; lit "player";
      lit "tournament"; lit "league"; lit "match"; lit "athlete";
      lit "score"; lit "champion"]);
    (lit "entertainment",
     [lit "entertainment"; lit "movie"; lit "music"; lit "celebrity";
      lit "film"; lit "actor"; lit "hollywood"; lit "show"; lit "tv";
      lit "concert"; lit "series"; lit "theater"]);
    (lit "science",
     [lit "science"; lit "research"; lit "study"; lit "scientist";
      lit "discovery"; lit "experiment"; lit "space"; lit "astronomy";
      lit "biology"; lit "physics"; lit "chemistry"]);
    (lit "health",
     [lit "health"; lit "medical"; lit "medicine"; lit "doctor";
      lit "disease"; lit "treatment"; lit "patient"; lit "hospital";
      lit "wellness"; lit "fitness"; lit "nutrition"; lit "mental"]);
    (lit "lifestyle",
     [lit "lifestyle"; lit "fashion"; lit "food"; lit "travel";
      lit "culture"; lit "art"; lit "design"; lit "home"; lit "living";
      lit "wellbeing"]);
    (lit "opinion",
     [lit "opinion"; lit "editorial"; lit "commentary"; lit "viewpoint";
      lit "column"; lit "analysis"; lit "perspective"; lit "think piece"]);
    (lit "local",
     [lit "local"; lit "city"; lit "town"; lit "community"; lit "district";
      lit "neighborhood"; lit "nearby"; lit "regional"; lit "area";
      lit "municipal"]) ].

(** [SELECT id FROM categories WHERE slug = $1] *)
Definition rowsByCategorySlug (db : DB) (slug : str) : list nat :=
  map cat_id (filter (fun c => str_eqb (cat_slug c) slug) (categories db)).

(** [SELECT id FROM categories WHERE slug IN ('general', 'world', 'news')
     ORDER BY slug LIMIT 1] *)
Definition fallbackCategoryRows (db : DB) : list nat :=
  firstn 1
    (rowsByCategorySlug db "general" ++ rowsByCategorySlug db "news"
       ++ rowsByCategorySlug db "world").

Record ProcessResult := mkProcessResult {
  articleId : nat;
  pr_title : str;
  pr_slug : str;
  pr_author : str;
  pr_categoryId : option nat;
  pr_isTrending : bool;
  pr_isFeatured : bool
}.

Definition withId (id : nat) (r : ArticleRow) : ArticleRow :=
  {| art_id := id; art_title := art_title r; art_slug := art_slug r;
     art_summary := art_summary r; content_original := content_original r;
     content_rewritten := content_rewritten r; source_url := source_url r;
     art_source_name := art_source_name r; art_source_id := art_source_id r;
     author_name := author_name r; category_id := category_id r;
     featured_image := featured_image r; art_keywords := art_keywords r;
     art_entities := art_entities r; art_status := art_status r;
     published_at := published_at r; is_trending := is_trending r;
     is_featured := is_featured r |}.

(** A value given to a [VARCHAR(n)] column: PostgreSQL stores a value of
    at most [n] characters as it is; of a longer one it stores the first
    [n] characters when all the characters after them are spaces, and
    raises an error ([None]) otherwise. *)
Definition pgVarchar (n : nat) (s : str) : option str :=
  if List.length s <=? n then Some s
  else if forallb (fun c => chr_eqb c " ") (skipn n s) then Some (firstn n s)
  else None.

(** The row as the articles table stores it: [title] and [slug] are
    [VARCHAR(500)], [source_name] and [author_name] are [VARCHAR(255)], the
    other columns of the statement take any text.  [None] when a value
    does not fit its column. *)
Definition storedRow (r : ArticleRow) : option ArticleRow :=
  match pgVarchar 500 (art_title r), pgVarchar 500 (art_slug r),
        pgVarchar 255 (art_source_name r), pgVarchar 255 (author_name r) with
  | Some title, Some slug, Some sourceName, Some authorName =>
      Some {| art_id := art_id r; art_title := title; art_slug := slug;
              art_summary := art_summary r;
              content_original := content_original r;
              content_rewritten := content_rewritten r;
              source_url := source_url r;
              art_source_name := sourceName;
              art_source_id := art_source_id r;
              author_name := authorName; category_id := category_id r;
              featured_image := featured_image r;
              art_keywords := art_keywords r;
              art_entities := art_entities r; art_status := art_status r;
              published_at := published_at r; is_trending := is_trending r;
              is_featured := is_featured r |}
  | _, _, _, _ => None
  end.

(** The constraints of the articles table a stored row can violate: the
    unique slug and the category reference. *)
Definition insertAllowed (db : DB) (r : ArticleRow) : bool :=
  negb (existsb (fun a => str_eqb (art_slug a) (art_slug r)) (articles db))
  && match category_id r with
     | Some c => existsb (fun k => cat_id k =? c) (categories db)
     | None => true
     end.

Definition freshId (db : DB) : nat := S (list_max (map art_id (articles db))).

Section ProcessWorker.

Variable E : Env.

(** The two [for] loops of [assignCategoryFromKeywords]: the first
    category whose keyword list matches and whose slug is in the store.
    [None] when a query throws. *)
Fixpoint lookupFirst (db : DB) (matches : list str -> bool)
    (table : list (str * list str)) : option (option nat) :=
  match table with
  | [] => Some None
  | (category, categoryKwList) :: rest =>
      if matches categoryKwList then
        match query E (SelectCategoryBySlug category)
                (rowsByCategorySlug db category) with
        | None => None
        | Some (id :: _) => Some (Some id)
        | Some [] => lookupFirst db matches rest
        end
      else lookupFirst db matches rest
  end.

Definition assignCategoryFromKeywords (db : DB) (keywords : list str)
    (sourceName : str) : option nat :=
  let sourceNameLower := toLowerCase sourceName in
  match lookupFirst db (existsb (includes sourceNameLower)) categoryKeywords with
  | None => None
  | Some (Some id) => Some id
  | Some None =>
      let keywordsLower := map toLowerCase keywords in
      let byKeywords categoryKwList :=
        2 <=? List.length
                (filter (fun kw => existsb (fun k => includes k kw) keywordsLower)
                   categoryKwList) in
      match lookupFirst db byKeywords categoryKeywords with
      | None => None
      | Some (Some id) => Some id
      | Some None =>
          match query E SelectFallbackCategory (fallbackCategoryRows db) with
          | Some (id :: _) => Some id
          | _ => None
          end
      end
  end.

(** [INSERT INTO articles (...) VALUES (...) RETURNING id]; [None] when the
    statement throws. *)
Definition insertArticle (db : DB) (row : ArticleRow) : option (nat * DB) :=
  if fails E (InsertArticle row) then None
  else
    match storedRow row with
    | None => None
    | Some stored =>
        if negb (insertAllowed db stored) then None
        else
          let id := freshId db in
          Some (id,
                {| news_sources := news_sources db;
                   articles := articles db ++ [withId id stored];
                   categories := categories db |})
    end.

Definition processWorker (db : DB) (job : ProcessJob)
  : (JobError + ProcessResult) * DB :=
  let sourceId := job_sourceId job in
  let sourceName := job_sourceName job in
  let title := job_title job in
  let imageUrl := job_imageUrl job in
  match query E (SelectSourceId sourceId)
          (filter (fun s => src_id s =? sourceId) (news_sources db)) with
  | None => (inl QueryFailed, db)
  | Some [] => (inl (InvalidSourceId sourceId), db)
  | Some (_ :: _) =>
      let cleanedContent := cleanHTML E (orElse (job_content job) "") in
      let plainText := extractPlainText cleanedContent in
      let contentStats := getContentStats cleanedContent in
      if List.length plainText <? 500
      then (inl (ContentTooShort (List.length plainText)), db)
      else if negb (truthyOpt imageUrl) then (inl NoImageUrl, db)
      else
        let finalImageUrl := imageUrl in
        let summary := summarizeText E plainText None in
        let keywords := extractKeywords E plainText 10 in
        let entities := extractEntities E plainText in
        match rewriteArticleWithHTML E title plainText cleanedContent
                finalImageUrl keywords with
        | None => (inl RewriteFailed, db)
        | Some rewrittenContent =>
            let categoryId := classifyArticle E title plainText in
            let isTrending :=
              shouldBeTrending E title plainText keywords (job_pubDate job) in
            let isFeatured :=
              shouldBeFeatured title plainText contentStats finalImageUrl in
            let authorName :=
              orElse (job_author job) (orElse sourceName "PulsePress Editorial") in
            let finalCategoryId :=
              match categoryId with
              | Some c => Some c
              | None => assignCategoryFromKeywords db keywords sourceName
              end in
            let slug := slugOf title in
            let row :=
              {| art_id := 0; art_title := title; art_slug := slug;
                 art_summary := summary;
                 content_original := Some cleanedContent;
                 content_rewritten := rewrittenContent;
                 source_url := job_link job;
                 art_source_name := sourceName;
                 art_source_id := sourceId;
                 author_name := authorName;
                 category_id := finalCategoryId;
                 featured_image := finalImageUrl;
                 art_keywords := keywords;
                 art_entities := entities;
                 art_status := published;
                 published_at := now E;
                 is_trending := isTrending;
                 is_featured := isFeatured |} in
            match insertArticle db row with
            | None => (inl QueryFailed, db)
            | Some (id, db') =>
                (inr {| articleId := id; pr_title := title; pr_slug := slug;
                        pr_author := authorName;
                        pr_categoryId := finalCategoryId;
                        pr_isTrending := isTrending;
                        pr_isFeatured := isFeatured |},
                 db')
            end
        end
  end.

End ProcessWorker.

(* ================================================================== *)
(** ** Further source functions *)
(* ================================================================== *)

(** *** services/ingestion/content-cleaner.ts: [truncateText] *)

(** [s.lastIndexOf(c)] for a one-character [c]; [None] stands for -1. *)
Fixpoint lastIndexFrom (c : ascii) (i : nat) (s : str) (best : option nat)
  : option nat :=
  match s with
  | [] => best
  | d :: r => lastIndexFrom c (S i) r (if chr_eqb d c then Some i else best)
  end.

Definition lastIndexOf (s : str) (c : ascii) : option nat :=
  lastIndexFrom c 0 s None.

(** [maxLength] is a length: a natural number.  The comparison
    [lastSentence > maxLength * 0.8] is taken on integers, five times the
    index against four times the length. *)
Definition truncateText (text : str) (maxLength : nat) : str :=
  if List.length text <=? maxLength then text
  else
    let truncated := substring0 maxLength text in
    let lastSentence := lastPunctuation truncated in
    let atSentence :=
      match lastSentence with
      | Some i => if 4 * maxLength <? 5 * i then Some i else None
      | None => None
      end in
    match atSentence with
    | Some i => substring0 (i + 1) truncated
    | None =>
        let lastSpace := lastIndexOf truncated " " in
        match lastSpace with
        | Some j => substring0 j truncated
        | None => []
        end ++ lit "..."
    end.

(** *** handlers/articles.ts: [generateSlug] *)

Definition generateSlug (title : str) : str :=
  trim (collapseHyphens (replaceWs "-" (stripNonWord (toLowerCase title)))).

(** *** services/ai/rewriter.ts: [escapeHtml] *)

Definition escapeChar (c : ascii) : str :=
  if chr_eqb c "&" then lit "&amp;"
  else if chr_eqb c "<" then lit "&lt;"
  else if chr_eqb c ">" then lit "&gt;"
  else if chr_eqb c doubleQuote then lit "&quot;"
  else if chr_eqb c "'" then lit "&#039;"
  else [c].

Definition escapeHtml (text : str) : str := flat_map escapeChar text.

(** *** services/ingestion/scraper.ts: [isHighQualityImage] *)

Definition lowQualityWords : list str :=
  [lit "thumb"; lit "thumbnail"; lit "small"; lit "tiny"; lit "icon";
   lit "avatar"; lit "logo"; lit "favicon"; lit "sprite"].

(** One or two digits, an [x], one or two digits, anywhere in the text:
    a digit, [x], a digit. *)
Fixpoint hasSmallDimensions (s : str) : bool :=
  match s with
  | a :: ((b :: c :: _) as r) =>
      (isDigit a && chr_eqb b "x" && isDigit c) || hasSmallDimensions r
  | _ => false
  end.

(** After a parameter name: one or two digits and then a character that is
    no digit. *)
Definition smallNumberAhead (s : str) : bool :=
  match s with
  | a :: b :: r =>
      isDigit a
      && (negb (isDigit b)
          || match r with
             | c :: _ => negb (isDigit c)
             | [] => false
             end)
  | _ => false
  end.

Fixpoint hasSmallParam (name : str) (s : str) : bool :=
  match s with
  | [] => false
  | _ :: r =>
      (startsWith s name && smallNumberAhead (skipn (List.length name) s))
      || hasSmallParam name r
  end.

Definition isHighQualityImage (url : str) : bool :=
  negb (testAnyCI lowQualityWords url
        || hasSmallDimensions url
        || hasSmallParam "w=" url
        || hasSmallParam "h=" url).

(** *** services/ingestion/rss-parser.ts: the item mapping of
        [parseRSSFeed] *)

(** An item as rss-parser delivers it; an absent field is the empty string
    or [None]. *)
Record RssItem := mkItem {
  it_title : str;
  it_link : str;
  it_contentEncoded : str;
  it_content : str;
  it_description : str;
  it_summary : str;
  it_contentSnippet : str;
  it_pubDate : str;
  it_isoDate : str;
  it_creator : str;
  it_author : str;
  it_enclosure : option Enclosure;
  it_mediaContent : option str;
  it_mediaThumbnail : option str
}.

Definition parseItem (item : RssItem) : ParsedArticle :=
  let fullContent :=
    orElse (it_contentEncoded item)
      (orElse (it_content item)
         (orElse (it_description item)
            (orElse (it_summary item)
               (orElse (it_contentSnippet item) "")))) in
  {| pa_title := orElse (it_title item) "";
     pa_link := orElse (it_link item) "";
     pa_content := fullContent;
     pa_contentSnippet := orElse (it_contentSnippet item) "";
     pa_pubDate := orElse (it_pubDate item) (it_isoDate item);
     pa_author := orElse (it_creator item) (it_author item);
     pa_enclosure := it_enclosure item;
     pa_mediaContent := it_mediaContent item;
     pa_mediaThumbnail := it_mediaThumbnail item;
     pa_media_content_raw := None;
     pa_media_thumbnail_raw := None |}.

(** *** services/ai/summarizer.ts: [generateMultipleSummaries] *)

Record Summaries := mkSummaries {
  short : str;
  medium : str;
  long : str
}.

Definition generateMultipleSummaries (E : Env) (text : str) : Summaries :=
  {| short := summarizeText E text (Some 100);
     medium := summarizeText E text (Some 200);
     long := summarizeText E text (Some 300) |}.

(** *** jobs/scheduler.ts: [scheduleFetchJobs] *)

Section Scheduler.

(** The order [ORDER BY RANDOM()] gives the active sources. *)
Variable randomOrder : list SourceRow -> list SourceRow.
(** The selection query throws. *)
Variable selectThrows : bool.
(** Whether the fetch queue accepts a job for a source id ([false]:
    [addFetchJob] throws). *)
Variable fetchQueueAccepts : nat -> bool.

(** [SELECT ... FROM news_sources WHERE is_active = true
     ORDER BY RANDOM() LIMIT 5] *)
Definition randomActiveSources (db : DB) : list SourceRow :=
  firstn 5 (randomOrder (filter is_active (news_sources db))).

(** The [for] loop: the ids for which [addFetchJob] went through. *)
Fixpoint addFetchJobs (sources : list SourceRow) : list nat :=
  match sources with
  | [] => []
  | source :: rest =>
      if fetchQueueAccepts (src_id source)
      then src_id source :: addFetchJobs rest
      else addFetchJobs rest
  end.

(** The source ids of the fetch jobs one tick adds to the queue. *)
Definition scheduleFetchJobs (db : DB) : list nat :=
  if selectThrows then []
  else addFetchJobs (randomActiveSources db).

End Scheduler.

(* ================================================================== *)
(** ** Stated properties, as predicates *)
(* ================================================================== *)

(** [p] occurs in [s]. *)
Definition occursIn (p s : str) : Prop :=
  exists pre post, s = pre ++ p ++ post.

(** The recency condition as the claim words it: no publish date, or a
    publish date within the last six hours, that is one not after the
    current time and less than six hours before it. *)
Definition recent (E : Env) (pubDate : str) : Prop :=
  pubDate = [] \/
  exists t, dateParse E pubDate = Some t /\ (0 <= now E - t < sixHours)%Z.

(** The publish date, when it is one, is not after the current time. *)
Definition notInFuture (E : Env) (pubDate : str) : Prop :=
  forall t, dateParse E pubDate = Some t -> (t <= now E)%Z.

(** The textual signals of the amended claim: one of the signal texts
    occurs somewhere in the title (in the first 200 characters of the
    content), letter case apart, be it a word of its own or a part of a
    longer word. *)
Definition titleSignal (title : str) : Prop :=
  exists w, In w titleSignals /\ occursIn w (toLowerCase title).

Definition contentSignal (content : str) : Prop :=
  exists w, In w contentSignals /\ occursIn w (toLowerCase (firstn 200 content)).

(** The textual signals as the claim words them: a signal word.  [w]
    stands in [s] as a word when it occurs there with no word character
    directly before it and none directly after it; [prevWord] tells
    whether the character before the head of [s] is a word character. *)
Fixpoint standsAsWord (w : str) (prevWord : bool) (s : str) : bool :=
  match s with
  | [] => false
  | c :: r =>
      (negb prevWord && startsWith s w
       && negb match skipn (List.length w) s with
               | d :: _ => isWord d
               | [] => false
               end)
      || standsAsWord w (isWord c) r
  end.

Definition signalWordIn (signals : list str) (text : str) : Prop :=
  exists w, In w signals /\ standsAsWord w false (toLowerCase text) = true.

Definition keywordSignal (keywords : list str) : Prop :=
  exists k, In k keywords /\ In (toLowerCase k) breakingLexicon.

(** The five items of the featured checklist. *)
Definition imagePresent (imageUrl : option str) : Prop :=
  exists u, imageUrl = Some u /\ u <> [].

Definition goodLength (stats : ContentStats) : Prop := 500 <= wordCount stats.

Definition goodStructure (stats : ContentStats) : Prop := 3 <= paragraphs stats.

Definition goodTitle (title : str) : Prop :=
  30 <= List.length title /\ List.length title <= 100.

Definition notClickbaitShaped (title : str) : Prop :=
  forall m, In m clickbaitMarks -> ~ occursIn m (toLowerCase title).

(** At least four of five conditions hold. *)
Definition atLeastFour (P1 P2 P3 P4 P5 : Prop) : Prop :=
  (P2 /\ P3 /\ P4 /\ P5) \/ (P1 /\ P3 /\ P4 /\ P5) \/ (P1 /\ P2 /\ P4 /\ P5)
  \/ (P1 /\ P2 /\ P3 /\ P5) \/ (P1 /\ P2 /\ P3 /\ P4).

(** The trending claim of the specification for one input: trending
    exactly when the article is recent and a signal word is in the title
    or in the first 200 characters of the content, or a keyword is in the
    breaking-news lexicon. *)
Definition trendingClaim (E : Env) (title content : str)
    (keywords : list str) (pubDate : str) : Prop :=
  shouldBeTrending E title content keywords pubDate = true <->
  recent E pubDate
  /\ (signalWordIn titleSignals title
      \/ signalWordIn contentSignals (firstn 200 content)
      \/ keywordSignal keywords).




(** The slug steps as the specification lists them; the hyphens are
    trimmed from both ends before the cap. *)
Fixpoint dropHyphens (s : str) : str :=
  match s with
  | [] => []
  | c :: r => if chr_eqb c "-" then dropHyphens r else s
  end.

Definition trimHyphens (s : str) : str :=
  rev (dropHyphens (rev (dropHyphens s))).

Definition slugAsSpecified (title : str) : str :=
  substring0 100
    (trimHyphens
       (collapseHyphens (replaceWs "-" (stripNonWord (toLowerCase title))))).

(** No white space anywhere in [s]. *)
Definition noSpace (s : str) : Prop := Forall (fun c => isSpace c = false) s.

(** Neither the first nor the last character of [s] is white space. *)
Definition cleanEdges (s : str) : Prop :=
  trimStart s = s /\ trimStart (rev s) = rev s.

(** No two adjacent white-space characters; [prevWs] tells whether the
    character before the head is white space. *)
Fixpoint noRuns (prevWs : bool) (s : str) : bool :=
  match s with
  | [] => true
  | c :: r => negb (prevWs && isSpace c) && noRuns (isSpace c) r
  end.

Definition singleSpaced (s : str) : Prop := noRuns false s = true.


(** The sentences the extractive method selects, in selection order: the
    value of [selectedSentences] in [generateEnhancedSummary] when its loop
    ends. *)
Definition selectedSentences (text : str) (targetLength : nat) : list Scored :=
  let sentences :=
    match matchSentences text with
    | [] => [text]
    | ms => ms
    end in
  selectSentences
    (stableSort (fun a b => score2 b <? score2 a)
       (mapi_from scoreSentence 0 sentences))
    targetLength [] 0.

Definition totalLength (l : list Scored) : nat :=
  list_sum (map (fun s => List.length (sentence s)) l).


(** Whether the last character of [a] is white space, [b] standing for the
    character before [a]. *)
Definition lastWs (b : bool) (a : str) : bool :=
  fold_left (fun _ c => isSpace c) a b.

(** The outcome [skip]: the loop body did not enqueue the article. *)
Definition isSkipped (v : Verdict) : Prop := exists why, v = Skip why.

Definition skipsArticle (E : Env) (db : DB) (source : SourceRow)
    (a : ParsedArticle) : Prop :=
  isSkipped (examine E db source a).

(** A stored row that one of the three checks of the deduplicator finds. *)
Definition matchesProbe (E : Env) (sourceUrl title content : str)
    (a : ArticleRow) : Prop :=
  source_url a = normalizeUrl E sourceUrl
  \/ toLowerCase (art_title a) = toLowerCase title
  \/ MD5.md5 (toLowerCase (pgTrim (pgCoalesce (content_original a))))
     = generateContentHash content.

(* ================================================================== *)
(** ** Sample data for the worked examples *)
(* ================================================================== *)

Module Sample.

Definition isUrlDelim (c : ascii) : bool :=
  chr_eqb c "/" || chr_eqb c "?" || chr_eqb c "#".

Definition isQueryStart (c : ascii) : bool :=
  chr_eqb c "?" || chr_eqb c "#".

Fixpoint takeUntil (stop : ascii -> bool) (s : str) : str :=
  match s with
  | [] => []
  | c :: r => if stop c then [] else c :: takeUntil stop r
  end.

Fixpoint dropUntil (stop : ascii -> bool) (s : str) : str :=
  match s with
  | [] => []
  | c :: r => if stop c then s else dropUntil stop r
  end.

(** The URL parser on plain http and https URLs (scheme, two slashes, a
    host name, then optionally a path, a query and a fragment).  For such a
    URL whose host has no credentials, port or escapes and whose path has no
    dot segments and no character the parser would escape, these are the
    components [new URL] yields; the examples use no other text. *)
Definition simpleURL (url : str) : option URL :=
  let lower := toLowerCase url in
  let parse (scheme : str) :=
    let rest := skipn (List.length scheme + 2) url in
    let h := takeUntil isUrlDelim rest in
    let p := takeUntil isQueryStart (dropUntil isUrlDelim rest) in
    if truthy h
    then Some {| protocol := scheme; host := toLowerCase h;
                 pathname := if truthy p then p else lit "/" |}
    else None in
  if startsWith lower "https://" then parse (lit "https:")
  else if startsWith lower "http://" then parse (lit "http:")
  else None.

(** Mon, 02 Nov 2026 10:00:00 GMT *)
Definition tenOClock : Z := 1793613600000%Z.

Definition sampleDates (s : str) : option Z :=
  if str_eqb s "Mon, 02 Nov 2026 09:00:00 GMT" then Some 1793610000000%Z
  else if str_eqb s "Mon, 02 Nov 2026 00:00:00 GMT" then Some 1793577600000%Z
  else if str_eqb s "Tue, 03 Nov 2026 10:00:00 GMT" then Some 1793700000000%Z
  else None.

Definition healthy (q : Query) : bool := false.

(** Storage faults hitting one of the three look-ups of the deduplicator. *)
Definition urlLookupDown (q : Query) : bool :=
  match q with SelectArticleBySourceUrl _ => true | _ => false end.

Definition titleLookupDown (q : Query) : bool :=
  match q with SelectArticleByLowerTitle _ => true | _ => false end.

Definition hashLookupDown (q : Query) : bool :=
  match q with SelectArticleByContentMd5 _ => true | _ => false end.

(** An environment without AI key and without scraper results, whose
    sanitizer leaves its input as it is. *)
Definition env (feed : list ParsedArticle) (faults : Query -> bool) : Env :=
  {| parseURL := simpleURL;
     fails := faults;
     dateParse := sampleDates;
     now := tenOClock;
     parseRSSFeed := fun _ => Some feed;
     scrapeArticle := fun _ => None;
     extractImageUrl := fun _ _ => None;
     queueAccepts := fun _ => true;
     cleanHTML := fun html => html;
     huggingfaceApiKey := false;
     postBart := fun _ _ _ => Errored;
     postDistilBart := fun _ _ _ => Errored;
     extractKeywords := fun _ _ => [];
     extractEntities := fun _ => lit "{}";
     rewriteArticleWithHTML :=
       fun _ text _ _ _ => Some (lit "<p>" ++ text ++ lit "</p>");
     classifyArticle := fun _ _ => None |}.

Definition times {A : Type} (n : nat) (l : list A) : list A :=
  List.concat (repeat l n).

(** 570 characters of text in three paragraphs. *)
Definition body : str :=
  lit "<p>" ++ times 4 (lit "Stocks rose on Tuesday after the central bank held rates. ")
  ++ lit "</p><p>" ++ times 3 (lit "Stocks rose on Tuesday after the central bank held rates. ")
  ++ lit "</p><p>" ++ times 3 (lit "Stocks rose on Tuesday after the central bank held rates. ")
  ++ lit "</p>".

Definition source : SourceRow :=
  {| src_id := 1; src_name := lit "Example Wire"; src_type := lit "rss-full";
     base_url := lit "https://example.com/feed.xml"; is_active := true;
     success_count := 0; error_count := 0; last_error := None;
     last_fetched_at := None |}.

Definition db0 : DB :=
  {| news_sources := [source]; articles := [];
     categories := [ {| cat_id := 7; cat_slug := lit "world" |} ] |}.

Definition storyLink : str := lit "https://example.com/news/markets-rally?utm_source=rss".

Definition storyJob : ProcessJob :=
  {| job_sourceId := 1; job_sourceName := lit "Example Wire";
     job_title := lit "Markets rally after rate decision";
     job_link := storyLink;
     job_content := body;
     job_author := lit "";
     job_pubDate := lit "Mon, 02 Nov 2026 09:00:00 GMT";
     job_imageUrl := Some (lit "https://example.com/img/markets.jpg") |}.

(** The store after the process worker ran on [storyJob]. *)
Definition db1 : DB := snd (processWorker (env [] healthy) db0 storyJob).

(** 265 words and 1455 characters with an ellipsis after the first 263
    words, no read-more marker, ending in a full stop. *)
Definition innerEllipsis : str :=
  times 130 (lit "alpha beta ") ++ lit "and so on... gamma delta.".

(** The ellipsis character U+2026 in UTF-8. *)
Definition ellipsisChar : str := map ascii_of_nat [226; 128; 166].

(** 262 words and 1444 characters ending in the ellipsis character. *)
Definition trailingEllipsis : str :=
  times 130 (lit "alpha beta ") ++ lit "gamma delta" ++ ellipsisChar.

Definition candidate (title link content : str) (image : option str)
  : ParsedArticle :=
  {| pa_title := title; pa_link := link; pa_content := content;
     pa_contentSnippet := lit ""; pa_pubDate := lit ""; pa_author := lit "";
     pa_enclosure := None; pa_mediaContent := None;
     pa_mediaThumbnail := image;
     pa_media_content_raw := None; pa_media_thumbnail_raw := None |}.

(** 200 words: a candidate of an [rss-full] source with this content is
    sent to the scraper; the sample scraper returns nothing, so the text
    stays. *)
Definition longBody : str := times 2 body.

Definition feed : list ParsedArticle :=
  [ candidate "No link here" "" longBody (Some (lit "https://example.com/i/0.jpg"));
    candidate "No picture" "https://example.com/a" longBody None;
    candidate "Too short" "https://example.com/b" "<p>Brief.</p>"
      (Some (lit "https://example.com/i/b.jpg"));
    candidate "First good story" "https://example.com/c" longBody
      (Some (lit "https://example.com/i/c.jpg"));
    candidate "Second good story" "https://example.com/d" body
      (Some (lit "https://example.com/i/d.jpg")) ].

(** The two candidates that fail a publish-readiness gate. *)
Definition unready : list ParsedArticle := firstn 2 (skipn 1 feed).

Definition firstGoodJob : ProcessJob :=
  {| job_sourceId := 1; job_sourceName := lit "Example Wire";
     job_title := lit "First good story";
     job_link := lit "https://example.com/c";
     job_content := longBody;
     job_author := lit "";
     job_pubDate := lit "";
     job_imageUrl := Some (lit "https://example.com/i/c.jpg") |}.

Definition shortJob : ProcessJob :=
  {| job_sourceId := 1; job_sourceName := lit "Example Wire";
     job_title := lit "A brief note";
     job_link := lit "https://example.com/news/brief";
     job_content := lit "<p>Brief.</p>";
     job_author := lit "";
     job_pubDate := lit "";
     job_imageUrl := Some (lit "https://example.com/img/brief.jpg") |}.

Definition imagelessJob : ProcessJob :=
  {| job_sourceId := 1; job_sourceName := lit "Example Wire";
     job_title := lit "Markets rally after rate decision";
     job_link := lit "https://example.com/news/markets-rally";
     job_content := body;
     job_author := lit "";
     job_pubDate := lit "";
     job_imageUrl := None |}.



End Sample.

(* ================================================================== *)
(** ** Further predicates and sample data *)
(* ================================================================== *)

(** Some [<] of [s] has a [>] after it: the tag pattern matches. *)
Fixpoint hasTag (s : str) : bool :=
  match s with
  | [] => false
  | c :: r => (chr_eqb c "<" && existsb (chr_eqb ">") r) || hasTag r
  end.

(** [s] ends in a character that is not white space. *)
Definition endsNonSpace (s : str) : Prop :=
  exists y t, s = y ++ [t] /\ isSpace t = false.

(** Every white-space character of [s] is a plain space. *)
Definition onlyPlainSpaces (s : str) : Prop :=
  Forall (fun c => isSpace c = true -> c = " "%char) s.

(** The characters a slug is made of. *)
Definition isSlugChar (c : ascii) : bool :=
  isLower c || isDigit c || chr_eqb c "_" || chr_eqb c "-".

(** No two hyphens in a row. *)
Fixpoint noHyphenRun (s : str) : bool :=
  match s with
  | c :: ((d :: _) as r) =>
      negb (chr_eqb c "-" && chr_eqb d "-") && noHyphenRun r
  | _ => true
  end.

(** None of the characters [escapeHtml] replaces. *)
Definition isHtmlSpecial (c : ascii) : bool :=
  chr_eqb c "&" || chr_eqb c "<" || chr_eqb c ">" || chr_eqb c doubleQuote
  || chr_eqb c "'".

(** What one run of the fetch worker may do to a source row: nothing to
    its identity, at most one more success and one more error, and nothing
    at all to a row with another id. *)
Definition counterUpdate (id : nat) (s s' : SourceRow) : Prop :=
  src_id s' = src_id s /\ src_name s' = src_name s
  /\ src_type s' = src_type s /\ base_url s' = base_url s
  /\ is_active s' = is_active s
  /\ success_count s <= success_count s' <= S (success_count s)
  /\ error_count s <= error_count s' <= S (error_count s)
  /\ (src_id s <> id -> s' = s).

Module Sample2.

Definition inactiveSource : SourceRow :=
  {| src_id := 2; src_name := lit "Dormant Daily"; src_type := lit "rss";
     base_url := lit "https://dormant.example.org/feed"; is_active := false;
     success_count := 4; error_count := 1; last_error := None;
     last_fetched_at := None |}.

Definition dbTwoSources : DB :=
  {| news_sources := [Sample.source; inactiveSource]; articles := [];
     categories := [ {| cat_id := 7; cat_slug := lit "world" |};
                     {| cat_id := 9; cat_slug := lit "sports" |} ] |}.

Definition item : RssItem :=
  {| it_title := lit "Council approves budget";
     it_link := lit "https://example.com/council";
     it_contentEncoded := lit "";
     it_content := lit "";
     it_description := lit "<p>The council approved the budget.</p>";
     it_summary := lit "";
     it_contentSnippet := lit "The council approved the budget.";
     it_pubDate := lit "";
     it_isoDate := lit "2026-11-02T09:00:00.000Z";
     it_creator := lit "";
     it_author := lit "Staff";
     it_enclosure := None;
     it_mediaContent := None;
     it_mediaThumbnail := Some (lit "https://example.com/i/council.jpg") |}.

(** A later story whose title differs from that of [Sample.storyJob] in
    letter case and punctuation only. *)
Definition rivalJob : ProcessJob :=
  {| job_sourceId := 1; job_sourceName := lit "Example Wire";
     job_title := lit "Markets Rally: After Rate Decision!";
     job_link := lit "https://example.com/news/markets-rally-again";
     job_content := Sample.longBody;
     job_author := lit "";
     job_pubDate := lit "";
     job_imageUrl := Some (lit "https://example.com/img/again.jpg") |}.

(** [Sample.env] with a process queue that rejects every job. *)
Definition envQueueDown (feed : list ParsedArticle) : Env :=
  let E := Sample.env feed Sample.healthy in
  {| parseURL := parseURL E;
     fails := fails E;
     dateParse := dateParse E;
     now := now E;
     parseRSSFeed := parseRSSFeed E;
     scrapeArticle := scrapeArticle E;
     extractImageUrl := extractImageUrl E;
     queueAccepts := fun _ => false;
     cleanHTML := cleanHTML E;
     huggingfaceApiKey := huggingfaceApiKey E;
     postBart := postBart E;
     postDistilBart := postDistilBart E;
     extractKeywords := extractKeywords E;
     extractEntities := extractEntities E;
     rewriteArticleWithHTML := rewriteArticleWithHTML E;
     classifyArticle := classifyArticle E |}.


(** A source whose type the fetch worker does not know. *)
Definition apiSource : SourceRow :=
  {| src_id := 3; src_name := lit "Wire API"; src_type := lit "api";
     base_url := lit "https://api.example.net/v1/stories"; is_active := true;
     success_count := 0; error_count := 0; last_error := None;
     last_fetched_at := None |}.

Definition dbApi : DB :=
  {| news_sources := [Sample.source; apiSource]; articles := [];
     categories := [] |}.

End Sample2.

(* ================================================================== *)
(** ** Facts about the string primitives *)
(* ================================================================== *)

Example splitWs_fields :
  splitWs " a  b " = [lit ""; lit "a"; lit "b"; lit ""].
Proof. reflexivity. Qed.

Example stripTags_sample :
  stripTags "<p>Hi <b>x</b></p> a > b < c" = lit " Hi  x   a > b < c".
Proof. reflexivity. Qed.

Example matchSentences_sample :
  matchSentences "..One. Two!? rest" = [lit "One."; lit " Two!?"].
Proof. reflexivity. Qed.

Example md5_empty : MD5.md5 "" = lit "d41d8cd98f00b204e9800998ecf8427e".
Proof. vm_compute. reflexivity. Qed.

Example md5_abc : MD5.md5 "abc" = lit "900150983cd24fb0d6963f7d28e17f72".
Proof. vm_compute. reflexivity. Qed.

Example md5_fox :
  MD5.md5 "The quick brown fox jumps over the lazy dog"
  = lit "9e107d9d372bb6826bd81d3542a419d6".
Proof. vm_compute. reflexivity. Qed.

Example md5_two_blocks :
  MD5.md5 (repeat "a"%char 70) = lit "0f5c6c4e740bfcc08c3c26ccb2673d46".
Proof. vm_compute. reflexivity. Qed.

Example simpleURL_sample :
  Sample.simpleURL "HTTPS://Example.COM/News/Item?id=7#top"
  = Some {| protocol := lit "https:"; host := lit "example.com";
            pathname := lit "/News/Item" |}.
Proof. reflexivity. Qed.

Example errorMessage_sample :
  errorMessage (SourceNotFound 1205) = lit "Source not found or inactive: 1205"
  /\ errorMessage (InvalidSourceId 0) = lit "Invalid source_id: 0"
  /\ errorMessage (ContentTooShort 499) = lit "Content too short: 499 chars".
Proof. repeat split; reflexivity. Qed.

Example pgVarchar_sample :
  pgVarchar 5 "title" = Some (lit "title")
  /\ pgVarchar 5 "title   " = Some (lit "title")
  /\ pgVarchar 5 "titles" = None
  /\ pgVarchar 5 "title s" = None.
Proof. repeat split; reflexivity. Qed.

Example standsAsWord_sample :
  standsAsWord "live" false "going live: the vote" = true
  /\ standsAsWord "live" false "olive oil delivery" = false
  /\ standsAsWord "just in" false "this just in" = true.
Proof. repeat split; reflexivity. Qed.

Lemma chr_eqb_eq (a b : ascii) : chr_eqb a b = true <-> a = b.
Proof. unfold chr_eqb. apply Ascii.eqb_eq. Qed.

Lemma str_eqb_eq (a b : str) : str_eqb a b = true <-> a = b.
Proof.
  revert b. induction a as [|x a IH]; intros [|y b]; simpl; split; intro H;
    try reflexivity; try discriminate.
  - apply andb_true_iff in H. destruct H as [H1 H2].
    apply chr_eqb_eq in H1. apply IH in H2. congruence.
  - injection H as -> ->. apply andb_true_iff. split.
    + now apply chr_eqb_eq.
    + now apply IH.
Qed.

Lemma startsWith_spec (s p : str) :
  startsWith s p = true <-> exists post, s = p ++ post.
Proof.
  revert s. induction p as [|a p IH]; intros s.
  - destruct s; simpl; split; intros; eauto.
  - destruct s as [|b s]; simpl.
    + split; [discriminate | intros [post H]; discriminate].
    + rewrite andb_true_iff, chr_eqb_eq, IH. split.
      * intros [-> [post ->]]. now exists post.
      * intros [post H]. injection H as -> ->. split; eauto.
Qed.

Lemma includes_spec (s p : str) : includes s p = true <-> occursIn p s.
Proof.
  unfold occursIn. induction s as [|c s IH].
  - cbn [includes]. rewrite orb_false_r, startsWith_spec. split.
    + intros [post H]. exists [], post. exact H.
    + intros [pre [post H]]. destruct pre; [eauto | discriminate].
  - cbn [includes]. rewrite orb_true_iff, startsWith_spec, IH. split.
    + intros [[post H] | [pre [post H]]].
      * exists [], post. exact H.
      * exists (c :: pre), post. simpl. now rewrite H.
    + intros [[|x pre] [post H]].
      * left. exists post. exact H.
      * right. injection H as _ H. eauto.
Qed.

Lemma testAnyCI_spec (alts : list str) (s : str) :
  testAnyCI alts s = true <->
  exists w, In w alts /\ occursIn w (toLowerCase s).
Proof.
  unfold testAnyCI. rewrite existsb_exists.
  split; intros [w [Hin H]]; exists w; split; auto; now apply includes_spec.
Qed.

Lemma arrayIncludes_spec (l : list str) (x : str) :
  arrayIncludes l x = true <-> In x l.
Proof.
  unfold arrayIncludes. rewrite existsb_exists. split.
  - intros [y [Hin H]]. apply str_eqb_eq in H. now subst.
  - intros Hin. exists x. split; auto. now apply str_eqb_eq.
Qed.

Lemma toLowerCase_app (a b : str) :
  toLowerCase (a ++ b) = toLowerCase a ++ toLowerCase b.
Proof. apply map_app. Qed.

Lemma truthy_spec (s : str) : truthy s = true <-> s <> [].
Proof. destruct s; simpl; split; congruence. Qed.

Lemma truthyOpt_spec (o : option str) : truthyOpt o = true <-> imagePresent o.
Proof.
  unfold imagePresent. destruct o as [u|]; simpl.
  - rewrite truthy_spec. split.
    + intros H. now exists u.
    + intros [v [Hv H]]. now injection Hv as ->.
  - split; [discriminate | intros [v [Hv _]]; discriminate].
Qed.

(* ================================================================== *)
(** ** Trending and featured scoring *)
(* ================================================================== *)

Lemma isRecent_spec (E : Env) (pubDate : str) :
  notInFuture E pubDate ->
  (isRecent E pubDate = true <-> recent E pubDate).
Proof.
  unfold isRecent, recent, notInFuture. intros Hnf.
  destruct pubDate as [|c r]; simpl.
  - split; auto.
  - destruct (dateParse E (c :: r)) as [t|].
    + specialize (Hnf t eq_refl). rewrite Z.ltb_lt. split.
      * intros H. right. exists t. split; [reflexivity | lia].
      * intros [H | [t' [Ht H]]]; [discriminate|].
        injection Ht as <-. lia.
    + split; [discriminate|].
      intros [H | [t' [Ht _]]]; discriminate.
Qed.

Lemma any_of_three (a b c : bool) :
  (1 <=? countTrue [a; b; c]) = true <-> a = true \/ b = true \/ c = true.
Proof. destruct a, b, c; cbv; intuition congruence. Qed.

Lemma keywordSignal_spec (keywords : list str) :
  existsb (fun k => arrayIncludes breakingLexicon (toLowerCase k)) keywords = true
  <-> keywordSignal keywords.
Proof.
  unfold keywordSignal. rewrite existsb_exists.
  split; intros [k [Hin H]]; exists k; split; auto; now apply arrayIncludes_spec.
Qed.

(** C7, as the specification states it, fails.  A title with no signal
    word in it, no content, no keyword and no publish date is trending all
    the same, because [live] is found inside [Olive] and inside
    [delivery]; and an article dated a day after the current time, which
    is no date within the last six hours, is trending when its title has
    a signal word. *)
Lemma shouldBeTrending_claim_fails :
  ~ trendingClaim (Sample.env [] Sample.healthy)
      "Olive oil delivery prices steady" "" [] ""
  /\ ~ trendingClaim (Sample.env [] Sample.healthy)
         "BREAKING: markets rally" "" [] "Tue, 03 Nov 2026 10:00:00 GMT".
Proof.
  split; intros [Hclaim _].
  - assert (Hcode : shouldBeTrending (Sample.env [] Sample.healthy)
                      "Olive oil delivery prices steady" "" [] "" = true)
      by (vm_compute; reflexivity).
    destruct (Hclaim Hcode) as [_ [Hsig | [Hsig | Hsig]]].
    + destruct Hsig as (w & Hin & Hw).
      cbn [In titleSignals] in Hin.
      repeat (destruct Hin as [<- | Hin]; [vm_compute in Hw; discriminate Hw|]).
      contradiction.
    + destruct Hsig as (w & Hin & Hw).
      cbn [In contentSignals] in Hin.
      repeat (destruct Hin as [<- | Hin]; [vm_compute in Hw; discriminate Hw|]).
      contradiction.
    + destruct Hsig as (k & Hin & _). contradiction.
  - assert (Hcode : shouldBeTrending (Sample.env [] Sample.healthy)
                      "BREAKING: markets rally" "" []
                      "Tue, 03 Nov 2026 10:00:00 GMT" = true)
      by (vm_compute; reflexivity).
    destruct (Hclaim Hcode) as [[Hnil | (t & Hparse & Hage)] _].
    + discriminate Hnil.
    + vm_compute in Hparse. injection Hparse as <-.
      change (now (Sample.env [] Sample.healthy)) with Sample.tenOClock in Hage.
      unfold Sample.tenOClock, sixHours in Hage. lia.
Qed.

(** C7, amended.  For a publish date that is not after the current time,
    [shouldBeTrending] answers true exactly when the article is recent (no
    publish date, or one within the last six hours) and at least one
    breaking-news signal is present: a signal text occurring anywhere in
    the title, letter case apart and also inside a longer word, a signal
    text occurring in the same way in the first 200 characters of the
    content, or a keyword of the breaking-news lexicon.  A publish date
    that does not parse is a date, and not a recent one.  An article
    published ten hours ago is never trending, and one published an hour
    ago with BREAKING in its title is. *)
Theorem shouldBeTrending_recent_and_signal :
  forall (E : Env) (title content : str) (keywords : list str) (pubDate : str),
    notInFuture E pubDate ->
    (shouldBeTrending E title content keywords pubDate = true <->
     recent E pubDate /\
     (titleSignal title \/ contentSignal content \/ keywordSignal keywords))
    /\ (pubDate <> [] -> dateParse E pubDate = None ->
        shouldBeTrending E title content keywords pubDate = false)
    /\ (forall t,
          pubDate <> [] -> dateParse E pubDate = Some t ->
          (now E - t = 10 * 60 * 60 * 1000)%Z ->
          shouldBeTrending E title content keywords pubDate = false)
    /\ (forall t,
          dateParse E pubDate = Some t ->
          (now E - t = 60 * 60 * 1000)%Z ->
          occursIn "BREAKING" title ->
          shouldBeTrending E title content keywords pubDate = true).
Proof.
  intros E title content keywords pubDate Hnf.
  assert (Hiff : shouldBeTrending E title content keywords pubDate = true <->
     recent E pubDate /\
     (titleSignal title \/ contentSignal content \/ keywordSignal keywords)).
  { unfold shouldBeTrending, trendingIndicators.
    rewrite andb_true_iff, any_of_three, (isRecent_spec E pubDate Hnf).
    unfold titleSignal, contentSignal, substring0.
    rewrite !testAnyCI_spec, keywordSignal_spec. reflexivity. }
  split; [exact Hiff|]. split; [|split].
  - intros Hne Hparse. apply not_true_is_false. intro Hs.
    apply Hiff in Hs. destruct Hs as [[Hnil | [t' [Ht' _]]] _].
    + contradiction.
    + congruence.
  - intros t Hne Hparse Hage.
    apply not_true_is_false. intro Hs.
    apply Hiff in Hs. destruct Hs as [[Hnil | [t' [Ht' Hlt]]] _].
    + contradiction.
    + rewrite Hparse in Ht'. injection Ht' as <-.
      rewrite Hage in Hlt. unfold sixHours in Hlt. lia.
  - intros t Hparse Hage [pre [post Hocc]].
    apply Hiff. split.
    + right. exists t. split; auto. rewrite Hage. unfold sixHours. lia.
    + left. exists (lit "breaking"). split.
      * simpl. auto.
      * exists (toLowerCase pre), (toLowerCase post).
        rewrite Hocc, !toLowerCase_app. reflexivity.
Qed.

(** The two borders of the recency test: a publish date that does not
    parse is not recent, and the test has no lower bound, so a publish
    date after the current time passes it. *)
Lemma isRecent_unparseable (E : Env) (pubDate : str) :
  pubDate <> [] -> dateParse E pubDate = None -> isRecent E pubDate = false.
Proof.
  intros Hne Hparse. unfold isRecent.
  destruct pubDate; [congruence|]. cbn [truthy]. now rewrite Hparse.
Qed.

Lemma isRecent_future (E : Env) (pubDate : str) (t : Z) :
  dateParse E pubDate = Some t -> (now E <= t)%Z -> isRecent E pubDate = true.
Proof.
  intros Hparse Hle. unfold isRecent. rewrite Hparse.
  destruct (truthy pubDate); [|reflexivity].
  apply Z.ltb_lt. unfold sixHours. lia.
Qed.

Lemma shouldBeTrending_witness :
  shouldBeTrending (Sample.env [] Sample.healthy)
    "BREAKING: markets rally" "" [] "Mon, 02 Nov 2026 09:00:00 GMT" = true
  /\ shouldBeTrending (Sample.env [] Sample.healthy)
       "BREAKING: markets rally" "" [] "Mon, 02 Nov 2026 00:00:00 GMT" = false
  /\ shouldBeTrending (Sample.env [] Sample.healthy)
       "Olive oil delivery prices steady" "" [] "" = true.
Proof.
  assert (Hpast : forall pubDate,
             pubDate = lit "Mon, 02 Nov 2026 09:00:00 GMT"
             \/ pubDate = lit "Mon, 02 Nov 2026 00:00:00 GMT"
             \/ pubDate = lit "" ->
             notInFuture (Sample.env [] Sample.healthy) pubDate).
  { intros pubDate [-> | [-> | ->]] t Ht; vm_compute in Ht;
      try discriminate Ht; injection Ht as <-; vm_compute; discriminate. }
  split; [|split].
  - apply (proj2 (proj2 (proj2 (shouldBeTrending_recent_and_signal
             (Sample.env [] Sample.healthy) "BREAKING: markets rally" "" []
             "Mon, 02 Nov 2026 09:00:00 GMT"
             (Hpast _ (or_introl eq_refl))))) 1793610000000%Z).
    + reflexivity.
    + reflexivity.
    + exists [], (lit ": markets rally"). reflexivity.
  - apply (proj1 (proj2 (proj2 (shouldBeTrending_recent_and_signal
             (Sample.env [] Sample.healthy) "BREAKING: markets rally" "" []
             "Mon, 02 Nov 2026 00:00:00 GMT"
             (Hpast _ (or_intror (or_introl eq_refl)))))) 1793577600000%Z).
    + discriminate.
    + reflexivity.
    + reflexivity.
  - apply (proj2 (proj1 (shouldBeTrending_recent_and_signal
             (Sample.env [] Sample.healthy)
             "Olive oil delivery prices steady" "" [] ""
             (Hpast _ (or_intror (or_intror eq_refl)))))).
    split.
    + left. reflexivity.
    + left. exists (lit "live"). split.
      * cbn. tauto.
      * exists (lit "o"), (lit " oil delivery prices steady"). reflexivity.
Defined.

Lemma four_of_five (b1 b2 b3 b4 b5 : bool) :
  (4 <=? countTrue [b1; b2; b3; b4; b5]) = true <->
  atLeastFour (b1 = true) (b2 = true) (b3 = true) (b4 = true) (b5 = true).
Proof.
  unfold atLeastFour.
  destruct b1, b2, b3, b4, b5; cbv; intuition congruence.
Qed.

Lemma notClickbait_spec (title : str) :
  negb (testAnyCI clickbaitMarks title) = true <-> notClickbaitShaped title.
Proof.
  unfold notClickbaitShaped. rewrite negb_true_iff.
  destruct (testAnyCI clickbaitMarks title) eqn:H.
  - apply testAnyCI_spec in H. destruct H as [w [Hin Hocc]].
    split; [discriminate|]. intros Hno. exfalso. exact (Hno w Hin Hocc).
  - split; auto. intros _ m Hin Hocc.
    assert (Ht : testAnyCI clickbaitMarks title = true)
      by (apply testAnyCI_spec; eauto).
    congruence.
Qed.

Lemma goodTitle_spec (title : str) :
  (30 <=? List.length title) && (List.length title <=? 100) = true
  <-> goodTitle title.
Proof.
  unfold goodTitle. rewrite andb_true_iff, !Nat.leb_le. reflexivity.
Qed.

(** C6.  [shouldBeFeatured] answers true exactly when at least four of the
    five checklist items hold: image present, at least 500 words, at least
    3 paragraphs, a title of 30 to 100 characters, a title that is not
    clickbait-shaped.  In particular an article without image that passes
    the other four checks is featured. *)
Theorem shouldBeFeatured_four_of_five :
  forall (title content : str) (stats : ContentStats) (imageUrl : option str),
    (shouldBeFeatured title content stats imageUrl = true <->
     atLeastFour (imagePresent imageUrl) (goodLength stats)
       (goodStructure stats) (goodTitle title) (notClickbaitShaped title))
    /\ (goodLength stats -> goodStructure stats -> goodTitle title ->
        notClickbaitShaped title ->
        shouldBeFeatured title content stats None = true).
Proof.
  assert (Hiff : forall title content stats imageUrl,
    shouldBeFeatured title content stats imageUrl = true <->
     atLeastFour (imagePresent imageUrl) (goodLength stats)
       (goodStructure stats) (goodTitle title) (notClickbaitShaped title)).
  { intros title content stats imageUrl.
    unfold shouldBeFeatured, qualityChecks, checkValues. cbn [hasImage
      hasGoodLength hasStructure hasGoodTitle notClickbait].
    rewrite four_of_five.
    pose proof (truthyOpt_spec imageUrl) as H1.
    pose proof (Nat.leb_le 500 (wordCount stats)) as H2.
    pose proof (Nat.leb_le 3 (paragraphs stats)) as H3.
    pose proof (goodTitle_spec title) as H4.
    pose proof (notClickbait_spec title) as H5.
    unfold atLeastFour, goodLength, goodStructure in *. tauto. }
  intros title content stats imageUrl. split; [apply Hiff|].
  intros H2 H3 H4 H5. apply Hiff. left. auto.
Qed.

Lemma shouldBeFeatured_witness :
  shouldBeFeatured "Markets rally after rate decision" ""
    {| wordCount := 520; charCount := 3100; paragraphs := 4; hasImages := false |}
    None = true.
Proof.
  apply (proj2 (shouldBeFeatured_four_of_five
                  "Markets rally after rate decision" ""
                  {| wordCount := 520; charCount := 3100; paragraphs := 4;
                     hasImages := false |} None)).
  - unfold goodLength. simpl. lia.
  - unfold goodStructure. simpl. lia.
  - unfold goodTitle. simpl. lia.
  - apply notClickbait_spec. reflexivity.
Defined.

(* ================================================================== *)
(** ** The slug *)
(* ================================================================== *)

Lemma replaceWs_hyphen_noSpace (s : str) (inWs : bool) :
  noSpace (replaceWs_aux "-" s inWs).
Proof.
  unfold noSpace. revert inWs. induction s as [|c s IH]; intros inWs; simpl.
  - constructor.
  - destruct (isSpace c) eqn:Hc.
    + destruct inWs; [apply IH|]. simpl. constructor; [reflexivity | apply IH].
    + constructor; [exact Hc | apply IH].
Qed.

Lemma collapseHyphens_noSpace (s : str) :
  noSpace s -> noSpace (collapseHyphens s).
Proof.
  unfold noSpace. induction s as [|c s IH]; intros H; [constructor|].
  inversion H as [|? ? Hc Hs]; subst. specialize (IH Hs).
  cbn [collapseHyphens]. destruct (chr_eqb c "-").
  - destruct s as [|d s']; [now constructor|].
    destruct (chr_eqb d "-"); [exact IH | now constructor].
  - now constructor.
Qed.

Lemma trimStart_noSpace (s : str) : noSpace s -> trimStart s = s.
Proof.
  intros H. destruct s as [|c s]; [reflexivity|].
  inversion H as [|? ? Hc _]; subst. simpl. now rewrite Hc.
Qed.

Lemma trim_noSpace (s : str) : noSpace s -> trim s = s.
Proof.
  intros H. unfold trim, trimEnd. rewrite (trimStart_noSpace s H).
  rewrite trimStart_noSpace; [apply rev_involutive|].
  unfold noSpace. now apply Forall_rev.
Qed.

(** The [trim()] of the slug expression never removes anything: no white
    space is left once the runs have become hyphens. *)
Lemma slugOf_trim_is_idle (title : str) :
  slugOf title =
  substring0 100
    (collapseHyphens (replaceWs "-" (stripNonWord (toLowerCase title)))).
Proof.
  unfold slugOf. f_equal. apply trim_noSpace, collapseHyphens_noSpace.
  apply replaceWs_hyphen_noSpace.
Qed.

(** C8.  The slug is a function of the title, made by lower-casing,
    stripping the characters that are neither word characters, white space
    nor hyphens, turning white-space runs into hyphens, collapsing repeated
    hyphens and capping at 100 characters; but the hyphens are not trimmed
    from the ends.  For the title [Hello World !] the code yields
    [hello-world-] where the steps as specified yield [hello-world]. *)
Theorem slugOf_keeps_edge_hyphens :
  slugOf "Hello World !" = lit "hello-world-"
  /\ slugAsSpecified "Hello World !" = lit "hello-world"
  /\ slugOf " Breaking: Markets -- rally?  " = lit "-breaking-markets-rally-"
  /\ slugAsSpecified " Breaking: Markets -- rally?  " = lit "breaking-markets-rally".
Proof. repeat split; vm_compute; reflexivity. Qed.

(* ================================================================== *)
(** ** The content gate *)
(* ================================================================== *)

Lemma isFullContent_true_iff (content title : str) :
  isFullContent content title = true <->
  content <> []
  /\ hasReadMore content = false
  /\ endsAbruptly (trim (trim (stripTags content))) = false
  /\ 250 <= List.length (splitWs (trim (stripTags content)))
  /\ 1000 <= List.length (trim (stripTags content)).
Proof.
  unfold isFullContent. destruct content as [|c r]; cbn [truthy negb].
  - split; [discriminate | intros [H _]; congruence].
  - set (content := c :: r).
    destruct (hasReadMore content); cbn [orb].
    + split; [discriminate | intros (_ & H & _); discriminate].
    + destruct (endsAbruptly (trim (trim (stripTags content)))).
      * split; [discriminate | intros (_ & _ & H & _); discriminate].
      * destruct ((250 <=? List.length (splitWs (trim (stripTags content))))
                  && (1000 <=? List.length (trim (stripTags content)))) eqn:Hb.
        -- apply andb_true_iff in Hb. destruct Hb as [Hw Hc].
           apply Nat.leb_le in Hw. apply Nat.leb_le in Hc.
           split; intros; repeat split; auto. discriminate.
        -- split; [discriminate|]. intros (_ & _ & _ & Hw & Hc).
           apply Nat.leb_le in Hw. apply Nat.leb_le in Hc.
           rewrite Hw, Hc in Hb. discriminate.
Qed.

Lemma trimStart_idem (s : str) : trimStart (trimStart s) = trimStart s.
Proof.
  induction s as [|c s IH]; [reflexivity|]. cbn [trimStart].
  destruct (isSpace c) eqn:Hc; [exact IH|]. cbn [trimStart]. now rewrite Hc.
Qed.

Lemma trimStart_suffix (s : str) : exists pre, s = pre ++ trimStart s.
Proof.
  induction s as [|c s [pre IH]]; [now exists []|]. cbn [trimStart].
  destruct (isSpace c).
  - exists (c :: pre). cbn. now rewrite <- IH.
  - now exists [].
Qed.

Lemma trimStart_length (s : str) :
  List.length (trimStart s) <= List.length s.
Proof.
  induction s as [|c s IH]; [reflexivity|]. cbn [trimStart].
  destruct (isSpace c); cbn [List.length]; lia.
Qed.

Lemma trimStart_keeps_clean_end (s : str) :
  trimStart (rev s) = rev s -> trimStart (rev (trimStart s)) = rev (trimStart s).
Proof.
  intros H. destruct (trimStart s) as [|c r] eqn:Hs; [reflexivity|].
  destruct (trimStart_suffix s) as [pre Hpre]. rewrite Hs in Hpre.
  rewrite Hpre, rev_app_distr in H.
  destruct (rev (c :: r)) as [|d l] eqn:Hr.
  - apply (f_equal (@List.length ascii)) in Hr.
    rewrite length_rev in Hr. discriminate.
  - cbn [app trimStart] in H. cbn [trimStart].
    destruct (isSpace d); [|reflexivity].
    apply (f_equal (@List.length ascii)) in H.
    pose proof (trimStart_length (l ++ rev pre)) as Hle.
    cbn [List.length] in H. lia.
Qed.

Lemma trim_cleanEdges (s : str) : cleanEdges (trim s).
Proof.
  unfold cleanEdges, trim, trimEnd. rewrite rev_involutive. split.
  - set (u := trimStart s).
    assert (Hu : trimStart u = u) by apply trimStart_idem.
    rewrite <- (rev_involutive u) in Hu.
    pose proof (trimStart_keeps_clean_end (rev u) Hu) as H.
    exact H.
  - apply trimStart_idem.
Qed.

Lemma trim_of_cleanEdges (s : str) : cleanEdges s -> trim s = s.
Proof.
  intros [H1 H2]. unfold trim, trimEnd. rewrite H1, H2. apply rev_involutive.
Qed.

Lemma trim_idem (s : str) : trim (trim s) = trim s.
Proof. apply trim_of_cleanEdges, trim_cleanEdges. Qed.

Lemma endsWith_occurs (s p : str) : endsWith s p = true -> occursIn p s.
Proof.
  unfold endsWith. rewrite startsWith_spec. intros [post H].
  exists (rev post), []. rewrite app_nil_r.
  rewrite <- (rev_involutive s), H, rev_app_distr, rev_involutive.
  reflexivity.
Qed.

(** The snippet signals win whatever the counts are. *)
Lemma isFullContent_false_on_snippet_signal (content title : str) :
  hasReadMore content = true
  \/ endsWith (trim (stripTags content)) "..." = true ->
  isFullContent content title = false.
Proof.
  intros H. apply not_true_is_false. intros Hfull.
  apply isFullContent_true_iff in Hfull.
  destruct Hfull as (_ & Hmark & Hends & _).
  destruct H as [H | H]; [congruence|].
  rewrite trim_idem in Hends. unfold endsAbruptly in Hends.
  apply orb_false_iff in Hends. destruct Hends as [Hinc _].
  apply endsWith_occurs, includes_spec in H. congruence.
Qed.

(** C2.  [isFullContent] answers false on a read-more marker and on text
    ending in three dots, and otherwise decides by the 250-word and
    1000-character thresholds ([isFullContent_true_iff],
    [isFullContent_false_on_snippet_signal]); but it also answers false when
    the three dots stand anywhere else in the text, and it does not see the
    ellipsis character at the end of a text.  The first sample has 265
    words and 1455 characters, no marker and no ellipsis at its end, and is
    rejected; the second ends in the ellipsis character and is accepted. *)
Theorem isFullContent_rejects_inner_ellipsis :
  isFullContent Sample.innerEllipsis "Sample" = false
  /\ hasReadMore Sample.innerEllipsis = false
  /\ endsWith (trim (stripTags Sample.innerEllipsis)) "..." = false
  /\ endsWith (trim (stripTags Sample.innerEllipsis)) Sample.ellipsisChar = false
  /\ List.length (splitWs (trim (stripTags Sample.innerEllipsis))) = 265
  /\ List.length (trim (stripTags Sample.innerEllipsis)) = 1455
  /\ isFullContent Sample.trailingEllipsis "Sample" = true
  /\ endsWith (trim (stripTags Sample.trailingEllipsis)) Sample.ellipsisChar = true.
Proof. repeat split; vm_compute; reflexivity. Qed.

(* ================================================================== *)
(** ** The deduplicator *)
(* ================================================================== *)

Lemma rows_found (f : ArticleRow -> bool) (l : list ArticleRow) :
  (0 <? List.length (map art_id (filter f l))) = true
  <-> exists a, In a l /\ f a = true.
Proof.
  rewrite length_map, Nat.ltb_lt. split.
  - intros H. destruct (filter f l) as [|a r] eqn:Hf; [cbn in H; lia|].
    exists a. apply filter_In. rewrite Hf. now left.
  - intros [a Ha]. apply filter_In in Ha.
    destruct (filter f l); [contradiction | cbn; lia].
Qed.

(** With a storage layer that answers, [isDuplicate] is true exactly when
    some stored row has the normalised probe URL as its source URL, or the
    probe's title up to case, or the probe's content hash. *)
Lemma isDuplicate_true_iff (E : Env) (db : DB) (sourceUrl title content : str) :
  (forall q, fails E q = false) ->
  (isDuplicate E db sourceUrl title content = true <->
   exists a, In a (articles db) /\ matchesProbe E sourceUrl title content a).
Proof.
  intros Hok. unfold isDuplicate, query, matchesProbe. rewrite !Hok.
  unfold rowsBySourceUrl, rowsByLowerTitle, rowsByContentMd5.
  destruct (0 <? _) eqn:H1.
  { apply rows_found in H1. destruct H1 as [a [Hin Ha]].
    apply str_eqb_eq in Ha. split; auto. intros _. exists a. auto. }
  destruct (0 <? _) eqn:H2 in |- *.
  { apply rows_found in H2. destruct H2 as [a [Hin Ha]].
    apply str_eqb_eq in Ha. split; auto. intros _. exists a. auto. }
  destruct (0 <? _) eqn:H3 in |- *.
  { apply rows_found in H3. destruct H3 as [a [Hin Ha]].
    apply str_eqb_eq in Ha. split; auto. intros _. exists a. auto. }
  split; [discriminate|]. intros [a [Hin [Ha | [Ha | Ha]]]].
  - assert (Hf : (0 <? List.length (map art_id (filter
               (fun a => str_eqb (source_url a) (normalizeUrl E sourceUrl))
               (articles db)))) = true).
    { apply rows_found. exists a. split; auto. now apply str_eqb_eq. }
    congruence.
  - assert (Hf : (0 <? List.length (map art_id (filter
               (fun a => str_eqb (toLowerCase (art_title a)) (toLowerCase title))
               (articles db)))) = true).
    { apply rows_found. exists a. split; auto. now apply str_eqb_eq. }
    congruence.
  - assert (Hf : (0 <? List.length (map art_id (filter
               (fun a => str_eqb
                           (MD5.md5 (toLowerCase (pgTrim (pgCoalesce (content_original a)))))
                           (generateContentHash content))
               (articles db)))) = true).
    { apply rows_found. exists a. split; auto. now apply str_eqb_eq. }
    congruence.
Qed.

(** C1.  The process worker stores the candidate's link as it came; the
    deduplicator looks up the normalised form.  After the sample job, whose
    link carries a query string, is persisted, [isDuplicate] with the same
    link, or with another query string on it, and a new title and content
    finds nothing.  The title and the content hash do find the stored
    article, and a different URL, title and content is no duplicate. *)
Theorem isDuplicate_misses_stored_query_url :
  let E := Sample.env [] Sample.healthy in
  match processWorker E Sample.db0 Sample.storyJob with
  | (inr _, db) => db = Sample.db1
  | (inl _, _) => False
  end
  /\ map source_url (articles Sample.db1) = [Sample.storyLink]
  /\ normalizeUrl E Sample.storyLink = lit "https://example.com/news/markets-rally"
  /\ isDuplicate E Sample.db1 Sample.storyLink "Another headline" "Other body" = false
  /\ isDuplicate E Sample.db1 "https://example.com/news/markets-rally?ref=home"
       "Another headline" "Other body" = false
  /\ isDuplicate E Sample.db1 "https://other.example.org/x"
       "MARKETS RALLY AFTER RATE DECISION" "Other body" = true
  /\ isDuplicate E Sample.db1 "https://other.example.org/x"
       "Another headline" (lit "  " ++ toUpperCase Sample.body) = true
  /\ isDuplicate E Sample.db1 "https://other.example.org/x"
       "Another headline" "Other body" = false.
Proof. repeat split; vm_compute; reflexivity. Qed.

(** C10.  A storage query that throws during any of the three checks makes
    [isDuplicate] answer false: at the URL look-up; at the title look-up
    once the URL look-up found nothing; at the hash look-up once the first
    two found nothing.  The fetch loop then does not skip the candidate as
    a duplicate. *)
Theorem isDuplicate_fails_open :
  forall (E : Env) (db : DB) (sourceUrl title content : str),
    (fails E (SelectArticleBySourceUrl (normalizeUrl E sourceUrl)) = true ->
     isDuplicate E db sourceUrl title content = false)
    /\ (fails E (SelectArticleBySourceUrl (normalizeUrl E sourceUrl)) = false ->
        rowsBySourceUrl db (normalizeUrl E sourceUrl) = [] ->
        fails E (SelectArticleByLowerTitle title) = true ->
        isDuplicate E db sourceUrl title content = false)
    /\ (fails E (SelectArticleBySourceUrl (normalizeUrl E sourceUrl)) = false ->
        rowsBySourceUrl db (normalizeUrl E sourceUrl) = [] ->
        fails E (SelectArticleByLowerTitle title) = false ->
        rowsByLowerTitle db title = [] ->
        fails E (SelectArticleByContentMd5 (generateContentHash content)) = true ->
        isDuplicate E db sourceUrl title content = false)
    /\ (forall source article,
          pa_link article = sourceUrl -> pa_title article = title ->
          orElse (pa_content article) "" = content ->
          fails E (SelectArticleBySourceUrl (normalizeUrl E sourceUrl)) = true ->
          examine E db source article <> Skip Duplicate).
Proof.
  intros E db sourceUrl title content.
  assert (H1 : fails E (SelectArticleBySourceUrl (normalizeUrl E sourceUrl)) = true ->
               isDuplicate E db sourceUrl title content = false).
  { intros Hf. unfold isDuplicate, query. now rewrite Hf. }
  split; [exact H1|]. split; [|split].
  - intros Hu Hrows Ht. unfold isDuplicate, query.
    rewrite Hu, Hrows. cbn. now rewrite Ht.
  - intros Hu Hrows Ht Htrows Hh. unfold isDuplicate, query.
    rewrite Hu, Hrows. cbn. rewrite Ht, Htrows. cbn. now rewrite Hh.
  - intros source article Hl Htl Hc Hf. unfold examine.
    rewrite Hl, Htl, Hc, (H1 Hf).
    destruct (negb (truthy sourceUrl)); [discriminate|].
    destruct (finalize E source article) as [fullContent imageUrl].
    destruct (negb (truthyOpt imageUrl)); [discriminate|].
    destruct (List.length fullContent <? 500); discriminate.
Qed.

Lemma isDuplicate_fails_open_witness :
  isDuplicate (Sample.env [] Sample.healthy) Sample.db1
    "https://other.example.org/x" "Markets rally after rate decision" "Other body" = true
  /\ isDuplicate (Sample.env [] Sample.urlLookupDown) Sample.db1
       "https://other.example.org/x" "Markets rally after rate decision" "Other body" = false
  /\ isDuplicate (Sample.env [] Sample.titleLookupDown) Sample.db1
       "https://other.example.org/x" "Markets rally after rate decision" "Other body" = false
  /\ isDuplicate (Sample.env [] Sample.hashLookupDown) Sample.db1
       "https://other.example.org/x" "Another headline" Sample.body = false
  /\ examine (Sample.env [] Sample.urlLookupDown) Sample.db1 Sample.source
       (Sample.candidate "Markets rally after rate decision"
          "https://other.example.org/x" "Other body" None) <> Skip Duplicate.
Proof.
  split; [vm_compute; reflexivity|]. split; [|split; [|split]].
  - apply (proj1 (isDuplicate_fails_open (Sample.env [] Sample.urlLookupDown)
                    Sample.db1 "https://other.example.org/x"
                    "Markets rally after rate decision" "Other body")).
    reflexivity.
  - apply (proj1 (proj2 (isDuplicate_fails_open
                    (Sample.env [] Sample.titleLookupDown)
                    Sample.db1 "https://other.example.org/x"
                    "Markets rally after rate decision" "Other body")));
      vm_compute; reflexivity.
  - apply (proj1 (proj2 (proj2 (isDuplicate_fails_open
                    (Sample.env [] Sample.hashLookupDown)
                    Sample.db1 "https://other.example.org/x"
                    "Another headline" Sample.body))));
      vm_compute; reflexivity.
  - apply (proj2 (proj2 (proj2 (isDuplicate_fails_open
                    (Sample.env [] Sample.urlLookupDown)
                    Sample.db1 "https://other.example.org/x"
                    "Markets rally after rate decision" "Other body"))));
      reflexivity.
Defined.

(* ================================================================== *)
(** ** The process worker *)
(* ================================================================== *)

(** Case split on every innermost scrutinee of the matches in [H]. *)
Ltac split_cases H :=
  repeat match type of H with
         | context [match ?x with _ => _ end] =>
             lazymatch x with
             | context [match _ with _ => _ end] => fail
             | _ => destruct x eqn:?
             end
         end.

Lemma processWorker_error_keeps_store (E : Env) (db db' : DB)
    (job : ProcessJob) (e : JobError) :
  processWorker E db job = (inl e, db') -> db' = db.
Proof.
  unfold processWorker, insertArticle. cbv zeta. intros H.
  split_cases H;
    try discriminate; try (injection H as _ <-; reflexivity).
Qed.

Lemma pgVarchar_stored (n : nat) (s stored : str) :
  pgVarchar n s = Some stored -> stored = firstn n s.
Proof.
  unfold pgVarchar. destruct (List.length s <=? n) eqn:Hfit.
  - intros H. injection H as <-. apply Nat.leb_le in Hfit.
    symmetry. now apply firstn_all2.
  - destruct (forallb _ _); [|discriminate]. intros H. now injection H as <-.
Qed.

Lemma pgVarchar_fits (n : nat) (s : str) :
  List.length s <= n -> pgVarchar n s = Some s.
Proof. intros H. unfold pgVarchar. apply Nat.leb_le in H. now rewrite H. Qed.

Lemma storedRow_inv (r stored : ArticleRow) :
  storedRow r = Some stored ->
  stored
  = {| art_id := art_id r; art_title := firstn 500 (art_title r);
       art_slug := firstn 500 (art_slug r);
       art_summary := art_summary r;
       content_original := content_original r;
       content_rewritten := content_rewritten r;
       source_url := source_url r;
       art_source_name := firstn 255 (art_source_name r);
       art_source_id := art_source_id r;
       author_name := firstn 255 (author_name r);
       category_id := category_id r;
       featured_image := featured_image r;
       art_keywords := art_keywords r;
       art_entities := art_entities r; art_status := art_status r;
       published_at := published_at r; is_trending := is_trending r;
       is_featured := is_featured r |}.
Proof.
  unfold storedRow.
  destruct (pgVarchar 500 (art_title r)) as [title|] eqn:H1; [|discriminate].
  destruct (pgVarchar 500 (art_slug r)) as [slug|] eqn:H2; [|discriminate].
  destruct (pgVarchar 255 (art_source_name r)) as [sourceName|] eqn:H3;
    [|discriminate].
  destruct (pgVarchar 255 (author_name r)) as [authorName|] eqn:H4;
    [|discriminate].
  intros H. injection H as <-.
  apply pgVarchar_stored in H1, H2, H3, H4. now subst.
Qed.

Lemma slugOf_length (title : str) : List.length (slugOf title) <= 100.
Proof. unfold slugOf, substring0. rewrite length_firstn. lia. Qed.

(** What a successful run of the process worker went through and stored. *)
Lemma processWorker_success_inv (E : Env) (db db' : DB) (job : ProcessJob)
    (r : ProcessResult) :
  processWorker E db job = (inr r, db') ->
  let cleanedContent := cleanHTML E (orElse (job_content job) "") in
  let plainText := extractPlainText cleanedContent in
  exists row,
    db' = {| news_sources := news_sources db;
             articles := articles db ++ [withId (freshId db) row];
             categories := categories db |}
    /\ insertAllowed db row = true
    /\ 500 <= List.length plainText
    /\ truthyOpt (job_imageUrl job) = true
    /\ articleId r = freshId db
    /\ art_slug row = slugOf (job_title job)
    /\ art_summary row = summarizeText E plainText None
    /\ content_original row = Some cleanedContent
    /\ author_name row
       = firstn 255
           (orElse (job_author job)
              (orElse (job_sourceName job) "PulsePress Editorial"))
    /\ featured_image row = job_imageUrl job
    /\ art_status row = published
    /\ published_at row = now E
    /\ is_trending row = pr_isTrending r
    /\ is_featured row = pr_isFeatured r
    /\ category_id row = pr_categoryId r
    /\ art_title row = firstn 500 (job_title job)
    /\ source_url row = job_link job.
Proof.
  unfold processWorker. cbv zeta.
  destruct (query E (SelectSourceId (job_sourceId job)) _) as [[|s rows]|];
    try discriminate.
  destruct (List.length _ <? 500) eqn:Hlen; [discriminate|].
  destruct (truthyOpt (job_imageUrl job)) eqn:Himg; cbn [negb];
    [|discriminate].
  destruct (rewriteArticleWithHTML E _ _ _ _ _) as [rewritten|];
    [|discriminate].
  unfold insertArticle.
  destruct (fails E (InsertArticle _)); [discriminate|].
  destruct (storedRow _) as [stored|] eqn:Hst; [|discriminate].
  destruct (insertAllowed db stored) eqn:Hok; cbn [negb]; [|discriminate].
  intros H. injection H as <- <-.
  apply Nat.ltb_ge in Hlen.
  apply storedRow_inv in Hst.
  cbn [art_id art_title art_slug art_summary content_original
       content_rewritten source_url art_source_name art_source_id
       author_name category_id featured_image art_keywords art_entities
       art_status published_at is_trending is_featured] in Hst.
  exists stored. split; [reflexivity|]. split; [exact Hok|].
  rewrite Hst.
  cbn [art_slug art_summary content_original author_name featured_image
       art_status published_at is_trending is_featured category_id
       art_title source_url articleId pr_isTrending pr_isFeatured
       pr_categoryId].
  repeat split; try assumption.
  apply firstn_all2. pose proof (slugOf_length (job_title job)). lia.
Qed.

Lemma processWorker_success_appends (E : Env) (db db' : DB)
    (job : ProcessJob) (r : ProcessResult) :
  processWorker E db job = (inr r, db') ->
  exists row,
    articles db' = articles db ++ [row]
    /\ source_url row = job_link job
    /\ art_title row = firstn 500 (job_title job)
    /\ art_slug row = slugOf (job_title job)
    /\ art_status row = published
    /\ news_sources db' = news_sources db.
Proof.
  intros Hrun.
  destruct (processWorker_success_inv E db db' job r Hrun)
    as (row & -> & _ & _ & _ & _ & Hslug & _ & _ & _ & _ & Hstat & _ & _ & _
        & _ & Htitle & Hurl).
  exists (withId (freshId db) row).
  cbn [articles news_sources withId source_url art_title art_slug art_status].
  repeat split; assumption.
Qed.

Lemma str_eqb_refl (a : str) : str_eqb a a = true.
Proof. now apply str_eqb_eq. Qed.

(** Where the round trip does hold: a probe whose normal form is the very
    text that was stored. *)
Lemma isDuplicate_after_persist_normal_url (E : Env) (db db' : DB)
    (job : ProcessJob) (r : ProcessResult) (probe title content : str) :
  processWorker E db job = (inr r, db') ->
  fails E (SelectArticleBySourceUrl (normalizeUrl E probe)) = false ->
  normalizeUrl E probe = job_link job ->
  isDuplicate E db' probe title content = true.
Proof.
  intros Hrun Hq Hnorm.
  apply processWorker_success_appends in Hrun.
  destruct Hrun as (row & Harts & Hurl & _).
  unfold isDuplicate, query. rewrite Hq.
  unfold rowsBySourceUrl. rewrite Harts, filter_app, map_app, length_app.
  cbn [filter]. rewrite Hurl, Hnorm, str_eqb_refl. cbn [map List.length].
  destruct (0 <? _) eqn:Hlt; [reflexivity|].
  apply Nat.ltb_ge in Hlt. lia.
Qed.

(** C9.  A process job whose cleaned plain text is shorter than 500
    characters, or whose image URL is absent, ends in an error and leaves
    the store as it was; and whatever error ends a process job, the store is
    left as it was. *)
Theorem processWorker_rejects_short_or_imageless :
  forall (E : Env) (db : DB) (job : ProcessJob),
    (List.length (extractPlainText (cleanHTML E (orElse (job_content job) ""))) < 500
     \/ truthyOpt (job_imageUrl job) = false ->
     exists e, processWorker E db job = (inl e, db))
    /\ (forall e db', processWorker E db job = (inl e, db') -> db' = db).
Proof.
  intros E db job. split.
  - intros Hbad. unfold processWorker. cbv zeta.
    destruct (query E (SelectSourceId (job_sourceId job)) _) as [[|s rows]|];
      [eexists; reflexivity| |eexists; reflexivity].
    destruct (List.length _ <? 500) eqn:Hlen; [eexists; reflexivity|].
    destruct Hbad as [Hshort | Himg].
    + apply Nat.ltb_ge in Hlen. lia.
    + rewrite Himg. cbn [negb]. eexists; reflexivity.
  - intros e db'. apply processWorker_error_keeps_store.
Qed.

Lemma processWorker_rejects_witness :
  (exists e, processWorker (Sample.env [] Sample.healthy) Sample.db0
               Sample.shortJob = (inl e, Sample.db0))
  /\ (exists e, processWorker (Sample.env [] Sample.healthy) Sample.db0
                  Sample.imagelessJob = (inl e, Sample.db0))
  /\ articles Sample.db0 = [].
Proof.
  split; [|split].
  - apply (proj1 (processWorker_rejects_short_or_imageless
                    (Sample.env [] Sample.healthy) Sample.db0 Sample.shortJob)).
    left. vm_compute. lia.
  - apply (proj1 (processWorker_rejects_short_or_imageless
                    (Sample.env [] Sample.healthy) Sample.db0 Sample.imagelessJob)).
    right. reflexivity.
  - apply (f_equal articles
             (proj2 (processWorker_rejects_short_or_imageless
                       (Sample.env [] Sample.healthy) Sample.db0 Sample.shortJob)
                (ContentTooShort 6) Sample.db0 eq_refl)).
Defined.

(* ================================================================== *)
(** ** The fetch worker *)
(* ================================================================== *)

Section FetchLoopFacts.

Variable E : Env.
Variable db : DB.
Variable source : SourceRow.

(** What the loop leaves behind: either every article was skipped, or the
    articles before the first accepted one were skipped, that one was
    enqueued, and the rest was never looked at. *)
Lemma fetchLoop_spec (articles : list ParsedArticle) :
  forall st st',
    queued st = 0 ->
    fetchLoop E db source articles st = Some st' ->
    (queued st' = 0 /\ enqueued st' = enqueued st
     /\ visited st' = visited st ++ articles
     /\ skipped st' = skipped st + List.length articles
     /\ Forall (skipsArticle E db source) articles)
    \/ (exists pre a post job,
          articles = pre ++ a :: post
          /\ Forall (skipsArticle E db source) pre
          /\ examine E db source a = Queue job
          /\ queued st' = 1 /\ enqueued st' = enqueued st ++ [job]
          /\ visited st' = visited st ++ pre ++ [a]
          /\ skipped st' = skipped st + List.length pre).
Proof.
  induction articles as [|a rest IH]; intros st st' Hq H; cbn [fetchLoop] in H.
  - injection H as <-. left. rewrite app_nil_r. simpl. repeat split; auto.
  - rewrite Hq in H. cbn [Nat.leb] in H.
    destruct (examine E db source a) as [why|job] eqn:Hex.
    + apply IH in H; [|cbn; exact Hq].
      destruct H as [(H1 & H2 & H3 & H4 & H5) | (pre & b & post & job & H1 & H2 & H3 & H4 & H5 & H6 & H7)].
      * left. cbn in *. rewrite <- app_assoc in H3. cbn in H3.
        repeat split; auto; try lia.
        constructor; auto. unfold skipsArticle, isSkipped. rewrite Hex. eauto.
      * right. exists (a :: pre), b, post, job. cbn in *.
        rewrite <- app_assoc in H6. cbn in H6.
        repeat split; auto; try lia; try congruence.
        constructor; auto. unfold skipsArticle, isSkipped. rewrite Hex. eauto.
    + destruct (queueAccepts E job); [|discriminate].
      injection H as <-. right. exists [], a, rest, job. cbn.
      repeat split; auto.
Qed.

Lemma fetchLoop_all_skipped (articles : list ParsedArticle) :
  forall st,
    queued st = 0 ->
    Forall (skipsArticle E db source) articles ->
    fetchLoop E db source articles st
    = Some {| queued := 0; skipped := skipped st + List.length articles;
              enqueued := enqueued st; visited := visited st ++ articles |}.
Proof.
  induction articles as [|a rest IH]; intros st Hq Hall; cbn [fetchLoop].
  - rewrite app_nil_r, Nat.add_0_r. destruct st; cbn in *. now subst.
  - rewrite Hq. cbn [Nat.leb].
    inversion Hall as [|? ? [why Ha] Hrest]; subst. rewrite Ha.
    rewrite IH; auto. cbn. rewrite <- app_assoc. cbn.
    do 2 f_equal. lia.
Qed.

(** Skipping never fails the job: the loop ends in an error only when the
    queue rejects the one payload it is given. *)
Lemma fetchLoop_completes (articles : list ParsedArticle) :
  (forall job, queueAccepts E job = true) ->
  forall st, exists st', fetchLoop E db source articles st = Some st'.
Proof.
  intros Hq. induction articles as [|a rest IH]; intros st; cbn [fetchLoop].
  - eauto.
  - destruct (1 <=? queued st); [eauto|].
    destruct (examine E db source a) as [why|job]; [apply IH|].
    rewrite Hq. eauto.
Qed.

(** What an enqueued payload went through. *)
Lemma examine_Queue_inv (article : ParsedArticle) (job : ProcessJob) :
  examine E db source article = Queue job ->
  truthyOpt (job_imageUrl job) = true
  /\ 500 <= List.length (job_content job)
  /\ job_content job = fst (finalize E source article)
  /\ job_imageUrl job = snd (finalize E source article)
  /\ pa_link article <> []
  /\ job_link job = pa_link article
  /\ job_title job = pa_title article
  /\ isDuplicate E db (pa_link article) (pa_title article)
       (orElse (pa_content article) "") = false.
Proof.
  unfold examine. intros H.
  destruct (truthy (pa_link article)) eqn:Hlink; [|discriminate].
  cbn [negb] in H.
  destruct (isDuplicate E db (pa_link article) (pa_title article)
              (orElse (pa_content article) "")) eqn:Hdup; [discriminate|].
  destruct (finalize E source article) as [fullContent imageUrl].
  destruct (truthyOpt imageUrl) eqn:Himg; [|discriminate].
  cbn [negb] in H.
  destruct (List.length fullContent <? 500) eqn:Hlen; [discriminate|].
  injection H as <-. cbn. apply Nat.ltb_ge in Hlen.
  apply truthy_spec in Hlink. repeat split; auto.
Qed.

(** A candidate without image, or with less than 500 characters of final
    content, is skipped. *)
Lemma examine_unready_skipped (article : ParsedArticle) :
  truthyOpt (snd (finalize E source article)) = false
  \/ List.length (fst (finalize E source article)) < 500 ->
  isSkipped (examine E db source article).
Proof.
  intros Hbad. unfold isSkipped, examine.
  destruct (negb (truthy (pa_link article))); [eauto|].
  destruct (isDuplicate E db (pa_link article) (pa_title article)
              (orElse (pa_content article) "")); [eauto|].
  destruct (finalize E source article) as [fullContent imageUrl].
  cbn [fst snd] in Hbad.
  destruct (truthyOpt imageUrl); cbn [negb]; [|eauto].
  destruct (List.length fullContent <? 500) eqn:Hlen; [eauto|].
  apply Nat.ltb_ge in Hlen. destruct Hbad as [H | H]; [discriminate | lia].
Qed.

End FetchLoopFacts.

Lemma fetchWorker_jobs (E : Env) (db : DB) (sourceId : nat) :
  fetch_jobs (fetchWorker E db sourceId) = []
  \/ exists source articles st,
       fetchLoop E (recordSuccess (now E) sourceId db) source articles loopStart
       = Some st
       /\ fetch_jobs (fetchWorker E db sourceId) = enqueued st.
Proof.
  unfold fetchWorker, fetchTry.
  destruct (query E (SelectActiveSource sourceId) _) as [[|source rows]|];
    try (left; destruct (query E (UpdateSourceError _ _) tt); reflexivity).
  destruct (retrieve E source) as [articles|];
    try (left; destruct (query E (UpdateSourceError _ _) tt); reflexivity).
  destruct (query E (UpdateSourceSuccess sourceId) tt);
    try (left; destruct (query E (UpdateSourceError _ _) tt); reflexivity).
  destruct (fetchLoop E _ source articles loopStart) as [st|] eqn:Hloop;
    try (left; destruct (query E (UpdateSourceError _ _) tt); reflexivity).
  right. exists source, articles, st. split; [exact Hloop | reflexivity].
Qed.

(** The stores a run of the fetch worker can leave. *)
Lemma fetchWorker_cases (E : Env) (db : DB) (sourceId : nat) :
  let run := fetchWorker E db sourceId in
  let counted := recordSuccess (now E) sourceId db in
  (exists source others articles st,
      filter (fun s => (src_id s =? sourceId) && is_active s) (news_sources db)
      = source :: others
      /\ retrieve E source = Some articles
      /\ fetchLoop E counted source articles loopStart = Some st
      /\ run = {| fetch_outcome :=
                    inr {| totalFetched := List.length articles;
                           fr_queued := queued st;
                           fr_skipped := skipped st;
                           fr_source := src_name source |};
                  fetch_db := counted;
                  fetch_jobs := enqueued st |})
  \/ (exists e before,
        fetch_outcome run = inl e /\ fetch_jobs run = []
        /\ (before = db \/ before = counted)
        /\ (fetch_db run = before
            \/ exists msg, fetch_db run = recordFailure msg sourceId before)).
Proof.
  cbv zeta. unfold fetchWorker, fetchTry.
  destruct (query E (SelectActiveSource sourceId) _) as [[|source rows]|] eqn:Hq.
  1, 3: right; destruct (query E (UpdateSourceError _ _) tt);
        eexists; exists db; cbn; repeat split; eauto.
  destruct (retrieve E source) as [articles|] eqn:Hfeed.
  2: right; destruct (query E (UpdateSourceError _ _) tt);
     eexists; exists db; cbn; repeat split; eauto.
  destruct (query E (UpdateSourceSuccess sourceId) tt).
  2: right; destruct (query E (UpdateSourceError _ _) tt);
     eexists; exists db; cbn; repeat split; eauto.
  destruct (fetchLoop E _ source articles loopStart) as [st|] eqn:Hloop.
  2: right; destruct (query E (UpdateSourceError _ _) tt);
     eexists; exists (recordSuccess (now E) sourceId db); cbn;
     repeat split; eauto.
  left. exists source, rows, articles, st.
  unfold query in Hq. destruct (fails E (SelectActiveSource sourceId));
    [discriminate|]. injection Hq as Hq.
  repeat split; assumption.
Qed.

(** C3.  One run of the fetch worker hands at most one payload to the
    process queue, and it takes the candidates of the source in feed
    order.  When a payload is handed over, the candidate list the source
    gave is [pre ++ a :: post], every candidate of [pre] was skipped, [a]
    passed all gates and is the payload, the loop looked at [pre] and [a]
    and at nothing of [post], and the job reports one queued and
    [length pre] skipped.  When the job completes with nothing handed
    over, every candidate of the list was skipped.  The same holds of the
    loop on every list. *)
Theorem fetchWorker_enqueues_at_most_one :
  forall (E : Env) (db : DB) (sourceId : nat),
    let run := fetchWorker E db sourceId in
    let counted := recordSuccess (now E) sourceId db in
    List.length (fetch_jobs run) <= 1
    /\ (forall job,
          In job (fetch_jobs run) ->
          exists source others pre a post st,
            filter (fun s => (src_id s =? sourceId) && is_active s)
              (news_sources db) = source :: others
            /\ retrieve E source = Some (pre ++ a :: post)
            /\ Forall (fun x => isSkipped (examine E counted source x)) pre
            /\ examine E counted source a = Queue job
            /\ fetch_jobs run = [job]
            /\ fetchLoop E counted source (pre ++ a :: post) loopStart
               = Some st
            /\ visited st = pre ++ [a]
            /\ fetch_outcome run
               = inr {| totalFetched := List.length (pre ++ a :: post);
                        fr_queued := 1;
                        fr_skipped := List.length pre;
                        fr_source := src_name source |})
    /\ (forall result,
          fetch_outcome run = inr result -> fetch_jobs run = [] ->
          exists source others articles,
            filter (fun s => (src_id s =? sourceId) && is_active s)
              (news_sources db) = source :: others
            /\ retrieve E source = Some articles
            /\ Forall (fun x => isSkipped (examine E counted source x))
                 articles
            /\ result
               = {| totalFetched := List.length articles;
                    fr_queued := 0;
                    fr_skipped := List.length articles;
                    fr_source := src_name source |})
    /\ (forall source articles st,
          fetchLoop E db source articles loopStart = Some st ->
          queued st = List.length (enqueued st)
          /\ List.length (enqueued st) <= 1
          /\ ((enqueued st = [] /\ visited st = articles
               /\ Forall (fun a => isSkipped (examine E db source a)) articles)
              \/ (exists pre a post job,
                    articles = pre ++ a :: post
                    /\ Forall (fun a => isSkipped (examine E db source a)) pre
                    /\ examine E db source a = Queue job
                    /\ enqueued st = [job]
                    /\ visited st = pre ++ [a]))).
Proof.
  intros E db sourceId run counted.
  assert (Hloop : forall db source articles st,
          fetchLoop E db source articles loopStart = Some st ->
          queued st = List.length (enqueued st)
          /\ List.length (enqueued st) <= 1
          /\ ((enqueued st = [] /\ visited st = articles
               /\ Forall (fun a => isSkipped (examine E db source a)) articles)
              \/ (exists pre a post job,
                    articles = pre ++ a :: post
                    /\ Forall (fun a => isSkipped (examine E db source a)) pre
                    /\ examine E db source a = Queue job
                    /\ enqueued st = [job]
                    /\ visited st = pre ++ [a]))).
  { intros db' source articles st H.
    apply fetchLoop_spec in H; [|reflexivity]. cbn in H.
    destruct H as [(H1 & H2 & H3 & H4 & H5) | (pre & a & post & job & H1 & H2 & H3 & H4 & H5 & H6 & H7)].
    - rewrite H1, H2. cbn. split; [reflexivity|]. split; [lia|].
      left. auto.
    - rewrite H4, H5. cbn. split; [reflexivity|]. split; [lia|].
      right. exists pre, a, post, job. auto. }
  subst run counted.
  split; [|split; [|split; [|apply Hloop]]].
  - destruct (fetchWorker_jobs E db sourceId) as [-> | (source & articles & st & H & ->)].
    + cbn. lia.
    + apply Hloop in H. tauto.
  - intros job Hin.
    destruct (fetchWorker_cases E db sourceId)
      as [(source & others & articles & st & Hrows & Hfeed & Hrun & Hout)
         | (e & before & _ & Hjobs & _)].
    + rewrite Hout in Hin |- *. cbn [fetch_jobs fetch_outcome] in *.
      pose proof Hrun as Hspec.
      apply fetchLoop_spec in Hspec; [|reflexivity].
      cbn [loopStart queued skipped enqueued visited app] in Hspec.
      destruct Hspec as [(_ & He & _)
                        | (pre & a & post & j & Harts & Hpre & Hex & Hq & He
                           & Hv & Hs)].
      * rewrite He in Hin. contradiction.
      * rewrite He in Hin. destruct Hin as [<- | []].
        subst articles. exists source, others, pre, a, post, st.
        rewrite He, Hq, Hs. cbn [Nat.add].
        repeat split; try assumption; reflexivity.
    + rewrite Hjobs in Hin. contradiction.
  - intros result Hout Hnone.
    destruct (fetchWorker_cases E db sourceId)
      as [(source & others & articles & st & Hrows & Hfeed & Hrun & Hres)
         | (e & before & Herr & _)].
    + rewrite Hres in Hout, Hnone. cbn [fetch_jobs fetch_outcome] in *.
      injection Hout as <-.
      apply fetchLoop_spec in Hrun; [|reflexivity].
      cbn [loopStart queued skipped enqueued visited app] in Hrun.
      destruct Hrun as [(Hq & _ & _ & Hs & Hall)
                       | (pre & a & post & j & _ & _ & _ & _ & He & _)].
      * exists source, others, articles. rewrite Hq, Hs. cbn [Nat.add].
        repeat split; try assumption; reflexivity.
      * rewrite He in Hnone. discriminate Hnone.
    + rewrite Herr in Hout. discriminate Hout.
Qed.

Lemma fetchWorker_enqueues_witness :
  let E := Sample.env Sample.feed Sample.healthy in
  let run := fetchWorker E Sample.db0 1 in
  let counted := recordSuccess (now E) 1 Sample.db0 in
  (exists source others pre a post st,
      filter (fun s => (src_id s =? 1) && is_active s)
        (news_sources Sample.db0) = source :: others
      /\ retrieve E source = Some (pre ++ a :: post)
      /\ Forall (fun x => isSkipped (examine E counted source x)) pre
      /\ examine E counted source a = Queue Sample.firstGoodJob
      /\ fetch_jobs run = [Sample.firstGoodJob]
      /\ fetchLoop E counted source (pre ++ a :: post) loopStart = Some st
      /\ visited st = pre ++ [a]
      /\ fetch_outcome run
         = inr {| totalFetched := List.length (pre ++ a :: post);
                  fr_queued := 1;
                  fr_skipped := List.length pre;
                  fr_source := src_name source |})
  /\ fetch_outcome run
     = inr {| totalFetched := 5; fr_queued := 1; fr_skipped := 3;
              fr_source := lit "Example Wire" |}.
Proof.
  cbv zeta. split.
  - apply (proj1 (proj2 (fetchWorker_enqueues_at_most_one
                           (Sample.env Sample.feed Sample.healthy)
                           Sample.db0 1))).
    vm_compute. left. reflexivity.
  - vm_compute. reflexivity.
Defined.

Lemma fetchWorker_completes_when_all_skipped (E : Env) (db : DB)
    (sourceId : nat) (source : SourceRow) (others : list SourceRow)
    (articles : list ParsedArticle) :
  fails E (SelectActiveSource sourceId) = false ->
  filter (fun s => (src_id s =? sourceId) && is_active s) (news_sources db)
  = source :: others ->
  retrieve E source = Some articles ->
  fails E (UpdateSourceSuccess sourceId) = false ->
  Forall (fun a =>
            isSkipped (examine E (recordSuccess (now E) sourceId db) source a))
    articles ->
  fetchWorker E db sourceId
  = {| fetch_outcome :=
         inr {| totalFetched := List.length articles; fr_queued := 0;
                fr_skipped := List.length articles;
                fr_source := src_name source |};
       fetch_db := recordSuccess (now E) sourceId db;
       fetch_jobs := [] |}.
Proof.
  intros Hq Hrows Hfeed Hupd Hall.
  unfold fetchWorker, fetchTry, query.
  rewrite Hq, Hrows, Hfeed, Hupd.
  rewrite (fetchLoop_all_skipped E _ source articles loopStart eq_refl Hall).
  reflexivity.
Qed.

Lemma fetchWorker_completes (E : Env) (db : DB) (sourceId : nat)
    (source : SourceRow) (others : list SourceRow)
    (articles : list ParsedArticle) :
  fails E (SelectActiveSource sourceId) = false ->
  filter (fun s => (src_id s =? sourceId) && is_active s) (news_sources db)
  = source :: others ->
  retrieve E source = Some articles ->
  fails E (UpdateSourceSuccess sourceId) = false ->
  (forall job, queueAccepts E job = true) ->
  exists result,
    fetch_outcome (fetchWorker E db sourceId) = inr result
    /\ totalFetched result = List.length articles.
Proof.
  intros Hq Hrows Hfeed Hupd Hacc.
  unfold fetchWorker, fetchTry, query.
  rewrite Hq, Hrows, Hfeed, Hupd.
  destruct (fetchLoop_completes E (recordSuccess (now E) sourceId db) source
              articles Hacc loopStart) as [st ->].
  eexists. split; reflexivity.
Qed.

(** C4.  Every payload the fetch worker enqueues has an image URL and at
    least 500 characters of final content.  A candidate that fails either
    check is skipped; and when every candidate of a feed fails one of them,
    the job completes with nothing queued.  Whatever is skipped, the job
    completes as long as the source is found, the feed parses, the store
    answers and the queue accepts. *)
Theorem fetchWorker_jobs_have_image_and_content :
  forall (E : Env) (db : DB) (sourceId : nat),
    (forall job,
        In job (fetch_jobs (fetchWorker E db sourceId)) ->
        truthyOpt (job_imageUrl job) = true
        /\ 500 <= List.length (job_content job))
    /\ (forall source article,
          truthyOpt (snd (finalize E source article)) = false
          \/ List.length (fst (finalize E source article)) < 500 ->
          isSkipped (examine E db source article))
    /\ (forall source others articles,
          fails E (SelectActiveSource sourceId) = false ->
          filter (fun s => (src_id s =? sourceId) && is_active s)
            (news_sources db) = source :: others ->
          retrieve E source = Some articles ->
          fails E (UpdateSourceSuccess sourceId) = false ->
          Forall (fun a =>
                    truthyOpt (snd (finalize E source a)) = false
                    \/ List.length (fst (finalize E source a)) < 500)
            articles ->
          fetch_outcome (fetchWorker E db sourceId)
          = inr {| totalFetched := List.length articles; fr_queued := 0;
                   fr_skipped := List.length articles;
                   fr_source := src_name source |}
          /\ fetch_jobs (fetchWorker E db sourceId) = [])
    /\ (forall source others articles,
          fails E (SelectActiveSource sourceId) = false ->
          filter (fun s => (src_id s =? sourceId) && is_active s)
            (news_sources db) = source :: others ->
          retrieve E source = Some articles ->
          fails E (UpdateSourceSuccess sourceId) = false ->
          (forall job, queueAccepts E job = true) ->
          exists result,
            fetch_outcome (fetchWorker E db sourceId) = inr result
            /\ totalFetched result = List.length articles).
Proof.
  intros E db sourceId. split; [|split; [|split]].
  4: { intros source others articles. apply fetchWorker_completes. }
  - intros job Hin.
    destruct (fetchWorker_jobs E db sourceId)
      as [Hnil | (source & articles & st & Hloop & Hjobs)].
    + rewrite Hnil in Hin. contradiction.
    + rewrite Hjobs in Hin.
      apply fetchLoop_spec in Hloop; [|reflexivity]. cbn in Hloop.
      destruct Hloop as [(_ & H2 & _) | (pre & a & post & j & _ & _ & Hex & _ & H5 & _)].
      * rewrite H2 in Hin. contradiction.
      * rewrite H5 in Hin. destruct Hin as [<- | []].
        apply examine_Queue_inv in Hex. tauto.
  - intros source article. apply examine_unready_skipped.
  - intros source others articles Hq Hrows Hfeed Hupd Hall.
    rewrite (fetchWorker_completes_when_all_skipped E db sourceId source
               others articles Hq Hrows Hfeed Hupd).
    + split; reflexivity.
    + eapply Forall_impl; [|exact Hall].
      intros a. apply examine_unready_skipped.
Qed.

Lemma fetchWorker_jobs_witness :
  (truthyOpt (job_imageUrl Sample.firstGoodJob) = true
   /\ 500 <= List.length (job_content Sample.firstGoodJob))
  /\ isSkipped (examine (Sample.env Sample.unready Sample.healthy) Sample.db0
                  Sample.source
                  (Sample.candidate "Too short" "https://example.com/b"
                     "<p>Brief.</p>" (Some (lit "https://example.com/i/b.jpg"))))
  /\ (fetch_outcome (fetchWorker (Sample.env Sample.unready Sample.healthy)
                       Sample.db0 1)
      = inr {| totalFetched := 2; fr_queued := 0; fr_skipped := 2;
               fr_source := lit "Example Wire" |}
      /\ fetch_jobs (fetchWorker (Sample.env Sample.unready Sample.healthy)
                       Sample.db0 1) = [])
  /\ (exists result,
        fetch_outcome (fetchWorker (Sample.env Sample.feed Sample.healthy)
                         Sample.db0 1) = inr result
        /\ totalFetched result = 5).
Proof.
  split; [|split; [|split]].
  - apply (proj1 (fetchWorker_jobs_have_image_and_content
                    (Sample.env Sample.feed Sample.healthy) Sample.db0 1)
             Sample.firstGoodJob).
    vm_compute. left. reflexivity.
  - apply (proj1 (proj2 (fetchWorker_jobs_have_image_and_content
                    (Sample.env Sample.unready Sample.healthy) Sample.db0 1))).
    right. vm_compute. lia.
  - apply (proj1 (proj2 (proj2 (fetchWorker_jobs_have_image_and_content
                    (Sample.env Sample.unready Sample.healthy) Sample.db0 1)))
             Sample.source [] Sample.unready).
    + reflexivity.
    + reflexivity.
    + reflexivity.
    + reflexivity.
    + apply Forall_cons; [left; vm_compute; reflexivity|].
      apply Forall_cons; [right; vm_compute; lia|].
      apply Forall_nil.
  - apply (proj2 (proj2 (proj2 (fetchWorker_jobs_have_image_and_content
                    (Sample.env Sample.feed Sample.healthy) Sample.db0 1)))
             Sample.source [] Sample.feed).
    + reflexivity.
    + reflexivity.
    + reflexivity.
    + reflexivity.
    + intros job. reflexivity.
Defined.

(* ================================================================== *)
(** ** The summarizer *)
(* ================================================================== *)

Lemma isTerm_cases (c : ascii) :
  isTerm c = true -> c = "."%char \/ c = "!"%char \/ c = "?"%char.
Proof.
  unfold isTerm. rewrite !orb_true_iff, !chr_eqb_eq. tauto.
Qed.

Lemma isTerm_not_space (c : ascii) : isTerm c = true -> isSpace c = false.
Proof. intros H. destruct (isTerm_cases c H) as [-> | [-> | ->]]; reflexivity. Qed.

Lemma isTerm_upperChar (c : ascii) : isTerm c = true -> upperChar c = c.
Proof. intros H. destruct (isTerm_cases c H) as [-> | [-> | ->]]; reflexivity. Qed.

Lemma upperChar_not_lower (c : ascii) : isLower (upperChar c) = false.
Proof. destruct c as [[] [] [] [] [] [] [] []]; reflexivity. Qed.

Lemma endsWithTerm_snoc (x : str) (t : ascii) :
  endsWithTerm (x ++ [t]) = isTerm t.
Proof. unfold endsWithTerm. rewrite rev_app_distr. reflexivity. Qed.

Lemma endsWithTerm_inv (s : str) :
  endsWithTerm s = true -> exists x t, s = x ++ [t] /\ isTerm t = true.
Proof.
  unfold endsWithTerm. destruct (rev s) as [|c l] eqn:Hrev; [discriminate|].
  intros Hc. exists (rev l), c. split; auto.
  rewrite <- (rev_involutive s), Hrev. reflexivity.
Qed.

Lemma lastTermFrom_spec (s : str) :
  forall i best j,
    lastTermFrom i s best = Some j ->
    best = Some j
    \/ (exists c, i <= j /\ nth_error s (j - i) = Some c /\ isTerm c = true).
Proof.
  induction s as [|c s IH]; intros i best j H; cbn [lastTermFrom] in H.
  - now left.
  - apply IH in H. destruct H as [H | (d & Hle & Hnth & Hd)].
    + destruct (isTerm c) eqn:Hc; [|now left].
      injection H as <-. right. exists c. rewrite Nat.sub_diag. auto.
    + right. exists d. split; [lia|]. split; auto.
      replace (j - i) with (S (j - S i)) by lia. exact Hnth.
Qed.

Lemma lastPunctuation_spec (s : str) (j : nat) :
  lastPunctuation s = Some j ->
  exists c, nth_error s j = Some c /\ isTerm c = true.
Proof.
  unfold lastPunctuation. intros H. apply lastTermFrom_spec in H.
  destruct H as [H | (c & _ & Hnth & Hc)]; [discriminate|].
  rewrite Nat.sub_0_r in Hnth. eauto.
Qed.

Lemma firstn_succ_snoc (s : str) :
  forall j c, nth_error s j = Some c -> firstn (S j) s = firstn j s ++ [c].
Proof.
  induction s as [|d s IH]; intros [|j] c H; try discriminate.
  - injection H as ->. reflexivity.
  - cbn in H. change (d :: firstn (S j) s = d :: (firstn j s ++ [c])).
    f_equal. now apply IH.
Qed.

Lemma replaceWs_aux_snoc (r x : str) (t : ascii) :
  isSpace t = false ->
  forall inWs, replaceWs_aux r (x ++ [t]) inWs = replaceWs_aux r x inWs ++ [t].
Proof.
  intros Ht. induction x as [|c x IH]; intros inWs; cbn.
  - now rewrite Ht.
  - destruct (isSpace c); [destruct inWs|]; rewrite IH; auto.
    now rewrite app_assoc.
Qed.

Lemma trimStart_snoc (x : str) (t : ascii) :
  isSpace t = false -> exists y, trimStart (x ++ [t]) = y ++ [t].
Proof.
  intros Ht. induction x as [|c x IH]; cbn.
  - rewrite Ht. now exists [].
  - destruct (isSpace c); [exact IH|]. now exists (c :: x).
Qed.

Lemma trimEnd_snoc (y : str) (t : ascii) :
  isSpace t = false -> trimEnd (y ++ [t]) = y ++ [t].
Proof.
  intros Ht. unfold trimEnd. rewrite rev_app_distr. cbn. rewrite Ht.
  change (t :: rev y) with (rev [t] ++ rev y).
  rewrite <- rev_app_distr. apply rev_involutive.
Qed.

Lemma trim_snoc (x : str) (t : ascii) :
  isSpace t = false -> exists y, trim (x ++ [t]) = y ++ [t].
Proof.
  intros Ht. unfold trim.
  destruct (trimStart_snoc x t Ht) as [y ->].
  exists y. now apply trimEnd_snoc.
Qed.

(** The punctuation step of [cleanSummary] leaves a terminator at the
    end. *)
Lemma punctuated_ends_with_term (cleaned : str) :
  endsWithTerm
    (if negb (endsWithTerm cleaned) then
       match lastPunctuation cleaned with
       | Some (S i) => substring0 (S i + 1) cleaned
       | _ => cleaned ++ lit "."
       end
     else cleaned) = true.
Proof.
  destruct (endsWithTerm cleaned) eqn:He; cbn [negb]; [exact He|].
  destruct (lastPunctuation cleaned) as [[|i]|] eqn:Hl;
    try (change (lit ".") with ["."%char]; now rewrite endsWithTerm_snoc).
  apply lastPunctuation_spec in Hl. destruct Hl as (c & Hnth & Hc).
  unfold substring0. replace (S i + 1) with (S (S i)) by lia.
  rewrite (firstn_succ_snoc cleaned (S i) c Hnth), endsWithTerm_snoc.
  exact Hc.
Qed.

(** Every result of [cleanSummary] ends in a terminator and does not begin
    with a lower-case letter. *)
Lemma cleanSummary_shape (summary : str) :
  endsWithTerm (cleanSummary summary) = true
  /\ match cleanSummary summary with
     | c :: _ => isLower c = false
     | [] => False
     end.
Proof.
  unfold cleanSummary. cbv zeta.
  match goal with
  | |- context [replaceWs _ ?c2] =>
      assert (Hp : endsWithTerm c2 = true)
        by apply punctuated_ends_with_term;
      destruct (endsWithTerm_inv c2 Hp) as (x & t & Hx & Ht);
      rewrite !Hx; clear Hx Hp
  end.
  pose proof (isTerm_not_space t Ht) as Hs.
  unfold replaceWs. rewrite (replaceWs_aux_snoc _ x t Hs).
  destruct (trim_snoc (replaceWs_aux " " x false) t Hs) as [y ->].
  destruct y as [|c y]; cbn [capitalizeFirst app].
  - rewrite (isTerm_upperChar t Ht). split.
    + change [t] with ([] ++ [t]). now rewrite endsWithTerm_snoc.
    + destruct (isTerm_cases t Ht) as [-> | [-> | ->]]; reflexivity.
  - split.
    + change (upperChar c :: y ++ [t]) with ((upperChar c :: y) ++ [t]).
      now rewrite endsWithTerm_snoc.
    + apply upperChar_not_lower.
Qed.

Lemma generateEnhancedSummary_shape (text : str) (targetLength : nat) :
  endsWithTerm (generateEnhancedSummary text targetLength) = true
  /\ match generateEnhancedSummary text targetLength with
     | c :: _ => isLower c = false
     | [] => False
     end.
Proof. unfold generateEnhancedSummary. apply cleanSummary_shape. Qed.

Lemma summarizeText_without_key (E : Env) (text : str) :
  huggingfaceApiKey E = false ->
  summarizeText E text None
  = generateEnhancedSummary (prepareTextForSummarization text)
      (Nat.max (List.length text / 4) 200).
Proof. intros H. unfold summarizeText. now rewrite H. Qed.

Lemma noRuns_app (a c : str) :
  forall b, noRuns b (a ++ c) = noRuns b a && noRuns (lastWs b a) c.
Proof.
  induction a as [|x a IH]; intros b; cbn.
  - reflexivity.
  - rewrite IH. now rewrite andb_assoc.
Qed.

Lemma noRuns_weaken (s : str) (b : bool) :
  noRuns b s = true -> noRuns false s = true.
Proof.
  destruct s as [|c r]; cbn; [auto|].
  rewrite !andb_true_iff. tauto.
Qed.

Lemma singleSpaced_infix (p s : str) :
  singleSpaced s -> occursIn p s -> singleSpaced p.
Proof.
  unfold singleSpaced. intros Hs (pre & post & ->).
  rewrite noRuns_app in Hs. apply andb_true_iff in Hs. destruct Hs as [_ Hs].
  rewrite noRuns_app in Hs. apply andb_true_iff in Hs. destruct Hs as [Hs _].
  eapply noRuns_weaken; eauto.
Qed.

Lemma occursIn_trans (a b c : str) : occursIn a b -> occursIn b c -> occursIn a c.
Proof.
  intros (p1 & q1 & ->) (p2 & q2 & ->).
  exists (p2 ++ p1), (q1 ++ q2). now rewrite <- !app_assoc.
Qed.




Lemma trimStart_occurs (s : str) : occursIn (trimStart s) s.
Proof.
  destruct (trimStart_suffix s) as [pre H]. exists pre, [].
  now rewrite app_nil_r.
Qed.

Lemma occursIn_rev (a b : str) : occursIn a b -> occursIn (rev a) (rev b).
Proof.
  intros (p & q & ->). exists (rev q), (rev p).
  rewrite !rev_app_distr, <- app_assoc. reflexivity.
Qed.

Lemma trim_occurs (s : str) : occursIn (trim s) s.
Proof.
  unfold trim, trimEnd.
  apply occursIn_trans with (trimStart s); [|apply trimStart_occurs].
  set (u := trimStart s).
  pose proof (occursIn_rev _ _ (trimStart_occurs (rev u))) as H.
  now rewrite rev_involutive in H.
Qed.




























(* ================================================================== *)
(** ** Further properties of the content gate and the cleaner *)
(* ================================================================== *)

(** X1.  Only the source type [rss-scrape] overrides the analysis: for
    every other type, [rss-full] included, [needsScraping] is the negation
    of [isFullContent]. *)
Theorem needsScraping_by_source_type :
  forall (content sourceType title : str),
    (sourceType = lit "rss-scrape" ->
     needsScraping content sourceType title = true)
    /\ (sourceType <> lit "rss-scrape" ->
        needsScraping content sourceType title
        = negb (isFullContent content title)).
Proof.
  intros content sourceType title. unfold needsScraping. split.
  - intros ->. now rewrite str_eqb_refl.
  - intros Hne. destruct (str_eqb sourceType "rss-scrape") eqn:Hs.
    + apply str_eqb_eq in Hs. contradiction.
    + destruct (str_eqb sourceType "rss-full");
        destruct (isFullContent content title); reflexivity.
Qed.

Lemma needsScraping_by_source_type_witness :
  needsScraping Sample.longBody "rss-scrape" "t" = true
  /\ needsScraping Sample.longBody "rss-full" "t"
     = negb (isFullContent Sample.longBody "t").
Proof.
  split.
  - apply (proj1 (needsScraping_by_source_type Sample.longBody "rss-scrape" "t")).
    reflexivity.
  - apply (proj2 (needsScraping_by_source_type Sample.longBody "rss-full" "t")).
    discriminate.
Defined.

Lemma endsNonSpace_cons (c : ascii) (r : str) :
  endsNonSpace (c :: r) -> (r = [] /\ isSpace c = false) \/ endsNonSpace r.
Proof.
  intros (y & t & H & Ht). destruct y as [|a y]; cbn in H.
  - injection H as -> <-. now left.
  - injection H as _ ->. right. now exists y, t.
Qed.

Lemma splitWs_aux_fields (s : str) :
  forall cur inWs,
    (s = [] -> cur <> []) ->
    (s <> [] -> endsNonSpace s) ->
    (inWs = false -> cur = [] -> exists c r, s = c :: r /\ isSpace c = false) ->
    Forall (fun f => truthy f = true) (splitWs_aux s cur inWs).
Proof.
  induction s as [|c r IH]; intros cur inWs Hnil Hend Hhead; cbn [splitWs_aux].
  - constructor; [|constructor]. apply truthy_spec.
    intros H. apply (f_equal (@rev ascii)) in H. rewrite rev_involutive in H.
    now apply Hnil.
  - assert (Hend' : (r = [] /\ isSpace c = false) \/ endsNonSpace r)
      by (apply endsNonSpace_cons, Hend; discriminate).
    destruct (isSpace c) eqn:Hc.
    + assert (Hr : endsNonSpace r)
        by (destruct Hend' as [[_ H] | H]; [discriminate | exact H]).
      assert (Hrne : r <> []).
      { destruct Hr as (y & t & -> & _). now destruct y. }
      destruct inWs.
      * apply IH; auto; try congruence.
      * assert (Hcur : cur <> []).
        { intros ->. destruct (Hhead eq_refl eq_refl) as (d & r' & Hd & Hsp).
          injection Hd as <- _. congruence. }
        constructor.
        -- apply truthy_spec. intros H. apply (f_equal (@rev ascii)) in H.
           rewrite rev_involutive in H. now apply Hcur.
        -- apply IH; auto; try congruence.
    + apply IH.
      * discriminate.
      * intros Hrne. destruct Hend' as [[H _] | H]; [contradiction | exact H].
      * discriminate.
Qed.

Lemma cleanEdges_endsNonSpace (s : str) :
  cleanEdges s -> s <> [] -> endsNonSpace s.
Proof.
  intros [_ H] Hne. destruct (rev s) as [|t y] eqn:Hr.
  - apply (f_equal (@rev ascii)) in Hr. rewrite rev_involutive in Hr.
    contradiction.
  - exists (rev y), t. split.
    + rewrite <- (rev_involutive s), Hr. reflexivity.
    + cbn [trimStart] in H. destruct (isSpace t); [|reflexivity].
      apply (f_equal (@List.length ascii)) in H.
      pose proof (trimStart_length y). cbn [List.length] in H. lia.
Qed.

Lemma cleanEdges_head (s : str) :
  cleanEdges s -> s <> [] -> exists c r, s = c :: r /\ isSpace c = false.
Proof.
  intros [H _] Hne. destruct s as [|c r]; [contradiction|].
  exists c, r. split; auto. cbn [trimStart] in H.
  destruct (isSpace c); [|reflexivity].
  apply (f_equal (@List.length ascii)) in H.
  pose proof (trimStart_length r). cbn [List.length] in H. lia.
Qed.

(** On trimmed text that is not empty, [split(/\s+/)] yields no empty
    field. *)
Lemma splitWs_trimmed_fields (s : str) :
  s <> [] -> Forall (fun f => truthy f = true) (splitWs (trim s)) \/ trim s = [].
Proof.
  intros _. destruct (trim s) as [|c r] eqn:Ht; [now right|]. left.
  rewrite <- Ht. unfold splitWs. apply splitWs_aux_fields.
  - rewrite Ht. discriminate.
  - intros Hne. apply cleanEdges_endsNonSpace; auto. apply trim_cleanEdges.
  - intros _ _. apply cleanEdges_head; [apply trim_cleanEdges|].
    rewrite Ht. discriminate.
Qed.

Lemma filter_all {A : Type} (f : A -> bool) (l : list A) :
  Forall (fun x => f x = true) l -> filter f l = l.
Proof.
  induction 1 as [|x l Hx _ IH]; cbn; [reflexivity|]. now rewrite Hx, IH.
Qed.

(** X2.  The two word counts of the analyser agree on every content whose
    plain text is not empty; on empty plain text [isFullContent] counts one
    word and [getContentStats] none.  So content that [isFullContent]
    accepts has at least 250 words and 1000 characters in its statistics. *)
Theorem content_stats_agree_with_gate :
  forall (content title : str),
    (trim (stripTags content) <> [] ->
     wordCount (getContentStats content)
     = List.length (splitWs (trim (stripTags content))))
    /\ (trim (stripTags content) = [] ->
        wordCount (getContentStats content) = 0
        /\ List.length (splitWs (trim (stripTags content))) = 1)
    /\ (isFullContent content title = true ->
        250 <= wordCount (getContentStats content)
        /\ 1000 <= charCount (getContentStats content)).
Proof.
  intros content title.
  assert (Hagree : trim (stripTags content) <> [] ->
     wordCount (getContentStats content)
     = List.length (splitWs (trim (stripTags content)))).
  { intros Hne. unfold getContentStats. cbn [wordCount].
    destruct (splitWs_trimmed_fields (stripTags content)) as [H | H].
    - intros Hs. rewrite Hs in Hne. now apply Hne.
    - now rewrite (filter_all _ _ H).
    - contradiction. }
  split; [exact Hagree|]. split.
  - intros He. unfold getContentStats. cbn [wordCount]. rewrite He.
    split; reflexivity.
  - intros Hfull. apply isFullContent_true_iff in Hfull.
    destruct Hfull as (_ & _ & _ & Hw & Hc).
    assert (Hne : trim (stripTags content) <> []).
    { intros He. rewrite He in Hc. cbn in Hc. lia. }
    rewrite (Hagree Hne). split; [exact Hw|]. exact Hc.
Qed.

Lemma content_stats_agree_witness :
  wordCount (getContentStats Sample.body) = 100
  /\ (wordCount (getContentStats "<p> </p>") = 0
      /\ List.length (splitWs (trim (stripTags "<p> </p>"))) = 1)
  /\ (250 <= wordCount (getContentStats (Sample.times 3 Sample.body))
      /\ 1000 <= charCount (getContentStats (Sample.times 3 Sample.body))).
Proof.
  split; [|split].
  - rewrite (proj1 (content_stats_agree_with_gate Sample.body "t")).
    + vm_compute. reflexivity.
    + vm_compute. discriminate.
  - apply (proj1 (proj2 (content_stats_agree_with_gate "<p> </p>" "t"))).
    vm_compute. reflexivity.
  - apply (proj2 (proj2 (content_stats_agree_with_gate
                           (Sample.times 3 Sample.body) "t"))).
    vm_compute. reflexivity.
Defined.

Lemma chr_eqb_sym (a b : ascii) : chr_eqb a b = chr_eqb b a.
Proof. unfold chr_eqb. apply Ascii.eqb_sym. Defined.

Lemma stripTagsFrom_keeps_no_gt (s : str) :
  forall inTag,
    existsb (chr_eqb ">") s = false ->
    existsb (chr_eqb ">") (stripTagsFrom inTag s) = false.
Proof.
  induction s as [|c r IH]; intros inTag H; [reflexivity|].
  cbn [existsb] in H. apply orb_false_iff in H. destruct H as [Hc Hr].
  cbn [stripTagsFrom]. destruct inTag.
  - rewrite (chr_eqb_sym c ">"), Hc. now apply IH.
  - rewrite Hr, andb_false_r. cbn [existsb]. rewrite Hc. now apply IH.
Qed.

Lemma stripTagsFrom_no_tag (s : str) :
  forall inTag, hasTag (stripTagsFrom inTag s) = false.
Proof.
  induction s as [|c r IH]; intros inTag; [reflexivity|].
  cbn [stripTagsFrom]. destruct inTag.
  - destruct (chr_eqb c ">"); apply IH.
  - destruct (chr_eqb c "<" && existsb (chr_eqb ">") r) eqn:Hopen.
    + cbn [hasTag]. rewrite IH. reflexivity.
    + cbn [hasTag]. rewrite IH, orb_false_r.
      apply andb_false_iff in Hopen. destruct Hopen as [-> | Hgt];
        [reflexivity|].
      rewrite (stripTagsFrom_keeps_no_gt r false Hgt). apply andb_false_r.
Qed.

Lemma stripTagsFrom_length (s : str) :
  forall inTag, List.length (stripTagsFrom inTag s) <= List.length s.
Proof.
  induction s as [|c r IH]; intros inTag; [reflexivity|].
  cbn [stripTagsFrom]. destruct inTag.
  - destruct (chr_eqb c ">"); cbn [List.length];
      [specialize (IH false) | specialize (IH true)]; lia.
  - destruct (chr_eqb c "<" && existsb (chr_eqb ">") r); cbn [List.length];
      [specialize (IH true) | specialize (IH false)]; lia.
Qed.

Lemma stripTags_without_tag (s : str) : hasTag s = false -> stripTags s = s.
Proof.
  unfold stripTags. induction s as [|c r IH]; intros H; [reflexivity|].
  cbn [hasTag] in H. apply orb_false_iff in H. destruct H as [H1 H2].
  cbn [stripTagsFrom]. rewrite H1. now rewrite (IH H2).
Qed.

(** X3.  Tag stripping leaves no tag behind and never lengthens the text;
    text without a tag comes back unchanged, so stripping twice is
    stripping once. *)
Theorem stripTags_removes_every_tag :
  forall (s : str),
    hasTag (stripTags s) = false
    /\ List.length (stripTags s) <= List.length s
    /\ (hasTag s = false -> stripTags s = s)
    /\ stripTags (stripTags s) = stripTags s.
Proof.
  intros s. split; [|split; [|split]].
  - apply stripTagsFrom_no_tag.
  - apply stripTagsFrom_length.
  - apply stripTags_without_tag.
  - apply stripTags_without_tag, stripTagsFrom_no_tag.
Qed.

Lemma stripTags_removes_witness :
  stripTags "2 < 3 and so on" = lit "2 < 3 and so on".
Proof.
  apply (proj1 (proj2 (proj2 (stripTags_removes_every_tag "2 < 3 and so on")))).
  reflexivity.
Defined.

Lemma replaceWs_single (s : str) :
  forall inWs, noRuns inWs (replaceWs_aux " " s inWs) = true.
Proof.
  induction s as [|c r IH]; intros inWs; [reflexivity|].
  cbn [replaceWs_aux]. destruct (isSpace c) eqn:Hc.
  - destruct inWs; [apply IH|]. cbn. apply IH.
  - cbn [noRuns]. rewrite Hc, andb_false_r. cbn. apply IH.
Qed.

Lemma replaceWs_plain (s : str) :
  forall inWs, onlyPlainSpaces (replaceWs_aux " " s inWs).
Proof.
  unfold onlyPlainSpaces. induction s as [|c r IH]; intros inWs;
    [constructor|].
  cbn [replaceWs_aux]. destruct (isSpace c) eqn:Hc.
  - destruct inWs; [apply IH|]. cbn. constructor; [reflexivity | apply IH].
  - constructor; [congruence | apply IH].
Qed.

Lemma replaceWs_length (s : str) :
  forall inWs, List.length (replaceWs_aux " " s inWs) <= List.length s.
Proof.
  induction s as [|c r IH]; intros inWs; [reflexivity|].
  cbn [replaceWs_aux]. destruct (isSpace c).
  - specialize (IH true). destruct inWs.
    + cbn [List.length]. lia.
    + rewrite length_app. change (List.length (lit " ")) with 1.
      cbn [List.length]. lia.
  - specialize (IH false). cbn [List.length]. lia.
Qed.

Lemma occursIn_Forall (P : ascii -> Prop) (p s : str) :
  occursIn p s -> Forall P s -> Forall P p.
Proof.
  intros (pre & post & ->) H.
  apply Forall_app in H. destruct H as [_ H].
  apply Forall_app in H. tauto.
Qed.

Lemma occursIn_length (p s : str) :
  occursIn p s -> List.length p <= List.length s.
Proof. intros (pre & post & ->). rewrite !length_app. lia. Qed.

Lemma startsWith_length (s p : str) :
  startsWith s p = true -> List.length p <= List.length s.
Proof.
  intros H. apply startsWith_spec in H. destruct H as [post ->].
  rewrite length_app. lia.
Qed.

Lemma replaceLit_aux_length (pat by_ : str) :
  List.length by_ <= List.length pat ->
  forall s skip,
    List.length (replaceLit_aux pat by_ skip s) + Nat.min skip (List.length s)
    <= List.length s.
Proof.
  intros Hby. induction s as [|c r IH]; intros skip; cbn [replaceLit_aux].
  - cbn. lia.
  - destruct skip as [|k].
    + destruct (truthy pat && startsWith (c :: r) pat) eqn:Hm.
      * apply andb_true_iff in Hm. destruct Hm as [Hp Hs].
        apply startsWith_length in Hs. apply truthy_spec in Hp.
        destruct pat as [|p0 pat']; [congruence|].
        cbn [List.length] in *. rewrite length_app.
        specialize (IH (S (List.length pat') - 1)).
        replace (S (List.length pat') - 1) with (List.length pat') in * by lia.
        rewrite Nat.min_l in IH by lia. lia.
      * cbn. specialize (IH 0). lia.
    + cbn [List.length]. specialize (IH k). lia.
Qed.

Lemma replaceLit_length (pat by_ s : str) :
  List.length by_ <= List.length pat ->
  List.length (replaceLit pat by_ s) <= List.length s.
Proof.
  intros H. pose proof (replaceLit_aux_length pat by_ H s 0). unfold replaceLit.
  lia.
Qed.

(** X4.  The plain text of [extractPlainText] is in normal form: no white
    space at either end, no two white-space characters in a row, and no
    white space other than the plain space; and it is never longer than the
    HTML it came from. *)
Theorem extractPlainText_normal_form :
  forall (html : str),
    cleanEdges (extractPlainText html)
    /\ singleSpaced (extractPlainText html)
    /\ onlyPlainSpaces (extractPlainText html)
    /\ List.length (extractPlainText html) <= List.length html.
Proof.
  intros html. unfold extractPlainText. cbv zeta.
  set (decoded := replaceLit "&#39;" "'" _).
  split; [apply trim_cleanEdges|]. split; [|split].
  - apply (singleSpaced_infix _ (replaceWs " " decoded));
      [apply replaceWs_single | apply trim_occurs].
  - apply (occursIn_Forall _ _ (replaceWs " " decoded));
      [apply trim_occurs | apply replaceWs_plain].
  - pose proof (occursIn_length _ _ (trim_occurs (replaceWs " " decoded))) as H1.
    pose proof (replaceWs_length decoded false) as H2.
    unfold replaceWs in *.
    assert (H3 : List.length decoded <= List.length html).
    { unfold decoded.
      repeat (etransitivity; [apply replaceLit_length; cbn; lia|]).
      apply stripTagsFrom_length. }
    lia.
Qed.

(* ================================================================== *)
(** ** Further properties: truncation, escaping, images and the feed mapping *)
(* ================================================================== *)

Lemma lastIndexFrom_bound (c : ascii) (s : str) :
  forall i best j,
    lastIndexFrom c i s best = Some j ->
    best = Some j \/ (i <= j /\ j < i + List.length s).
Proof.
  induction s as [|d r IH]; intros i best j H; cbn [lastIndexFrom] in H.
  - now left.
  - apply IH in H. cbn [List.length]. destruct H as [H | H]; [|right; lia].
    destruct (chr_eqb d c); [|now left].
    injection H as <-. right. lia.
Qed.

Lemma lastIndexOf_bound (s : str) (c : ascii) (j : nat) :
  lastIndexOf s c = Some j -> j < List.length s.
Proof.
  unfold lastIndexOf. intros H. apply lastIndexFrom_bound in H.
  destruct H as [H | H]; [discriminate | lia].
Qed.

Lemma firstn_prefix_of_prefix (n m : nat) (s : str) :
  n <= m -> firstn n (firstn m s) = firstn n s.
Proof. intros H. rewrite firstn_firstn. now rewrite Nat.min_l. Qed.

(** X5.  [truncateText] returns a text that fits unchanged.  Otherwise it
    returns either a prefix of at most [maxLength] characters that ends in
    [.], [!] or [?] and is longer than 0.8 times [maxLength], or a prefix
    of fewer than [maxLength] characters followed by three dots; in the
    second case the result can be up to two characters longer than
    [maxLength]. *)
Theorem truncateText_shape :
  forall (text : str) (maxLength : nat),
    (List.length text <= maxLength -> truncateText text maxLength = text)
    /\ (maxLength < List.length text ->
        (exists n,
            n <= maxLength /\ 4 * maxLength < 5 * n
            /\ truncateText text maxLength = firstn n text
            /\ endsWithTerm (firstn n text) = true)
        \/ (exists n,
              n <= maxLength - 1
              /\ truncateText text maxLength = firstn n text ++ lit "..."))
    /\ List.length (truncateText text maxLength) <= Nat.max (maxLength + 2) 3.
Proof.
  intros text maxLength.
  assert (Hfit : List.length text <= maxLength ->
                 truncateText text maxLength = text).
  { intros H. unfold truncateText. apply Nat.leb_le in H. now rewrite H. }
  assert (Hcut : maxLength < List.length text ->
        (exists n,
            n <= maxLength /\ 4 * maxLength < 5 * n
            /\ truncateText text maxLength = firstn n text
            /\ endsWithTerm (firstn n text) = true)
        \/ (exists n,
              n <= maxLength - 1
              /\ truncateText text maxLength = firstn n text ++ lit "...")).
  { intros Hlong. unfold truncateText, substring0.
    destruct (List.length text <=? maxLength) eqn:Hle;
      [apply Nat.leb_le in Hle; lia|]. cbv zeta.
    assert (Hlen : List.length (firstn maxLength text) = maxLength)
      by (rewrite length_firstn; lia).
    destruct (lastPunctuation (firstn maxLength text)) as [i|] eqn:Hp.
    - destruct (4 * maxLength <? 5 * i) eqn:Hfar.
      + left. apply Nat.ltb_lt in Hfar.
        apply lastPunctuation_spec in Hp. destruct Hp as (c & Hnth & Hc).
        assert (Hi : i < maxLength).
        { rewrite <- Hlen. apply nth_error_Some. congruence. }
        exists (i + 1). replace (i + 1) with (S i) by lia.
        rewrite firstn_prefix_of_prefix by lia.
        split; [lia|]. split; [lia|]. split; [reflexivity|].
        rewrite <- (firstn_prefix_of_prefix (S i) maxLength text) by lia.
        rewrite (firstn_succ_snoc _ i c Hnth), endsWithTerm_snoc. exact Hc.
      + right. destruct (lastIndexOf (firstn maxLength text) " ") as [j|] eqn:Hs.
        * apply lastIndexOf_bound in Hs. rewrite Hlen in Hs.
          exists j. split; [lia|]. now rewrite firstn_prefix_of_prefix by lia.
        * exists 0. split; [lia | reflexivity].
    - right. destruct (lastIndexOf (firstn maxLength text) " ") as [j|] eqn:Hs.
      + apply lastIndexOf_bound in Hs. rewrite Hlen in Hs.
        exists j. split; [lia|]. now rewrite firstn_prefix_of_prefix by lia.
      + exists 0. split; [lia | reflexivity]. }
  split; [exact Hfit|]. split; [exact Hcut|].
  destruct (Nat.le_gt_cases (List.length text) maxLength) as [H | H].
  - rewrite (Hfit H). lia.
  - destruct (Hcut H) as [(n & Hn & _ & -> & _) | (n & Hn & ->)].
    + rewrite length_firstn. lia.
    + rewrite length_app, length_firstn.
      change (List.length (lit "...")) with 3. lia.
Qed.

Lemma truncateText_shape_witness :
  truncateText "Short." 10 = lit "Short."
  /\ ((exists n, n <= 6 /\ 4 * 6 < 5 * n
                 /\ truncateText "aaaa bbbb" 6 = firstn n (lit "aaaa bbbb")
                 /\ endsWithTerm (firstn n (lit "aaaa bbbb")) = true)
      \/ (exists n, n <= 6 - 1
                    /\ truncateText "aaaa bbbb" 6
                       = firstn n (lit "aaaa bbbb") ++ lit "...")).
Proof.
  split.
  - apply (proj1 (truncateText_shape "Short." 10)). cbn. lia.
  - apply (proj1 (proj2 (truncateText_shape "aaaa bbbb" 6))). cbn. lia.
Defined.

Lemma escapeChar_safe (c : ascii) :
  Forall (fun d => chr_eqb d "<" || chr_eqb d ">" || chr_eqb d doubleQuote
                   || chr_eqb d "'" = false)
    (escapeChar c).
Proof.
  unfold escapeChar.
  destruct (chr_eqb c "&"); [repeat constructor|].
  destruct (chr_eqb c "<") eqn:H1; [repeat constructor|].
  destruct (chr_eqb c ">") eqn:H2; [repeat constructor|].
  destruct (chr_eqb c doubleQuote) eqn:H3; [repeat constructor|].
  destruct (chr_eqb c "'") eqn:H4; [repeat constructor|].
  constructor; [|constructor]. now rewrite H1, H2, H3, H4.
Qed.

Lemma escapeChar_length (c : ascii) : 1 <= List.length (escapeChar c).
Proof.
  unfold escapeChar.
  repeat match goal with
         | |- context [if ?b then _ else _] => destruct b
         end; cbn; lia.
Qed.

(** X6.  What [escapeHtml] returns holds none of the characters that open
    or close a tag or an attribute value; it is never shorter than the
    text, and a text with none of the five special characters comes back
    unchanged. *)
Theorem escapeHtml_leaves_no_markup :
  forall (text : str),
    Forall (fun d => chr_eqb d "<" || chr_eqb d ">" || chr_eqb d doubleQuote
                     || chr_eqb d "'" = false)
      (escapeHtml text)
    /\ List.length text <= List.length (escapeHtml text)
    /\ (Forall (fun c => isHtmlSpecial c = false) text ->
        escapeHtml text = text).
Proof.
  intros text. unfold escapeHtml. split; [|split].
  - induction text as [|c r IH]; cbn [flat_map]; [constructor|].
    apply Forall_app. split; [apply escapeChar_safe | exact IH].
  - induction text as [|c r IH]; cbn [flat_map]; [reflexivity|].
    rewrite length_app. pose proof (escapeChar_length c). cbn [List.length]. lia.
  - induction 1 as [|c r Hc _ IH]; cbn [flat_map]; [reflexivity|].
    rewrite IH. unfold isHtmlSpecial in Hc.
    repeat (apply orb_false_iff in Hc; destruct Hc as [Hc ?]).
    unfold escapeChar.
    repeat match goal with
           | H : chr_eqb c _ = false |- _ => rewrite H; clear H
           end.
    reflexivity.
Qed.

Lemma escapeHtml_witness :
  escapeHtml "Plain words, no markup." = lit "Plain words, no markup.".
Proof.
  apply (proj2 (proj2 (escapeHtml_leaves_no_markup "Plain words, no markup."))).
  repeat constructor.
Defined.

Lemma hasSmallDimensions_cons (p : ascii) (r : str) :
  hasSmallDimensions r = true -> hasSmallDimensions (p :: r) = true.
Proof.
  destruct r as [|b [|c r']]; intros H; try discriminate H.
  change (hasSmallDimensions (p :: b :: c :: r'))
    with ((isDigit p && chr_eqb b "x" && isDigit c)
          || hasSmallDimensions (b :: c :: r')).
  rewrite H. apply orb_true_r.
Qed.

Lemma hasSmallDimensions_occurs (url : str) :
  forall pre a c post,
    url = pre ++ a :: "x"%char :: c :: post ->
    isDigit a = true -> isDigit c = true ->
    hasSmallDimensions url = true.
Proof.
  intros pre. revert url. induction pre as [|p pre IH];
    intros url a c post -> Ha Hc.
  - cbn. now rewrite Ha, Hc.
  - cbn [app]. apply hasSmallDimensions_cons.
    exact (IH _ a c post eq_refl Ha Hc).
Qed.

(** X7.  [isHighQualityImage] turns down every URL in which a digit, the
    letter [x] and a digit follow one another, whatever the numbers are:
    the pattern meant for sizes like 16x16 also matches inside 1200x630. *)
Theorem isHighQualityImage_rejects_any_dimensions :
  forall (url pre post : str) (a c : ascii),
    url = pre ++ a :: "x"%char :: c :: post ->
    isDigit a = true -> isDigit c = true ->
    isHighQualityImage url = false.
Proof.
  intros url pre post a c Hurl Ha Hc. unfold isHighQualityImage.
  rewrite (hasSmallDimensions_occurs url pre a c post Hurl Ha Hc).
  rewrite orb_true_r. reflexivity.
Qed.

Lemma isHighQualityImage_witness :
  isHighQualityImage "https://cdn.example.com/photos/1200x630/lead.jpg" = false
  /\ isHighQualityImage "https://cdn.example.com/photos/lead.jpg" = true.
Proof.
  split; [|reflexivity].
  apply (isHighQualityImage_rejects_any_dimensions _
           "https://cdn.example.com/photos/120" "30/lead.jpg"
           "0"%char "6"%char); reflexivity.
Defined.

(** X8.  For every article that the feed mapping produces, the fall-backs
    of the fetch loop never apply: its content already is the first
    non-empty one of the five content fields, so falling back to the
    snippet changes nothing, and the raw [media:content] and
    [media:thumbnail] keys are never set, so the image comes from the
    enclosure or the two mapped media fields only. *)
Theorem parseItem_makes_fallbacks_idle :
  forall (item : RssItem),
    let article := parseItem item in
    orElse (pa_content article) (orElse (pa_contentSnippet article) "")
    = pa_content article
    /\ (pa_content article = [] <->
        it_contentEncoded item = [] /\ it_content item = []
        /\ it_description item = [] /\ it_summary item = []
        /\ it_contentSnippet item = [])
    /\ rssImage article
       = match enclosureImage article with
         | Some u => Some u
         | None =>
             if truthyOpt (it_mediaContent item) then it_mediaContent item
             else if truthyOpt (it_mediaThumbnail item)
                  then it_mediaThumbnail item
                  else None
         end.
Proof.
  intros item. cbv zeta. unfold parseItem, rssImage.
  cbn [pa_content pa_contentSnippet pa_mediaContent pa_mediaThumbnail
       pa_media_content_raw pa_media_thumbnail_raw].
  split; [|split].
  - destruct (it_contentEncoded item), (it_content item),
      (it_description item), (it_summary item), (it_contentSnippet item);
      reflexivity.
  - destruct (it_contentEncoded item), (it_content item),
      (it_description item), (it_summary item), (it_contentSnippet item);
      cbn; split; intros H; try discriminate; try tauto;
      repeat split; try reflexivity;
      repeat match goal with
             | H : _ /\ _ |- _ => destruct H
             end; discriminate.
  - cbn [truthyOpt]. destruct (enclosureImage _); reflexivity.
Qed.

(* ================================================================== *)
(** ** Further properties of the summarizer *)
(* ================================================================== *)

Lemma trim_length (s : str) : List.length (trim s) <= List.length s.
Proof. apply occursIn_length, trim_occurs. Qed.

Lemma removeAllCI_aux_length (alts : list str) (s : str) :
  forall skip, List.length (removeAllCI_aux alts skip s) <= List.length s.
Proof.
  induction s as [|c r IH]; intros skip; [reflexivity|].
  cbn [removeAllCI_aux]. destruct skip as [|k].
  - destruct (firstMatchCI alts (c :: r)) as [[|k]|].
    + specialize (IH 0). cbn [List.length]. lia.
    + specialize (IH k). cbn [List.length]. lia.
    + specialize (IH 0). cbn [List.length]. lia.
  - specialize (IH k). cbn [List.length]. lia.
Qed.

Lemma removeBrackets_aux_length (s : str) :
  forall skip, List.length (removeBrackets_aux skip s) <= List.length s.
Proof.
  induction s as [|c r IH]; intros skip; [reflexivity|].
  cbn [removeBrackets_aux]. destruct skip as [|k].
  - destruct (chr_eqb c "[").
    + destruct (bracketSpan r) as [n|].
      * specialize (IH n). cbn [List.length]. lia.
      * specialize (IH 0). cbn [List.length]. lia.
    + specialize (IH 0). cbn [List.length]. lia.
  - specialize (IH k). cbn [List.length]. lia.
Qed.

(** X9.  The text [prepareTextForSummarization] hands to the summarizers
    is never longer than the article and never longer than 4001
    characters, and neither its first nor its last character is white
    space. *)
Theorem prepareTextForSummarization_bounded :
  forall (text : str),
    List.length (prepareTextForSummarization text) <= List.length text
    /\ List.length (prepareTextForSummarization text) <= 4001
    /\ cleanEdges (prepareTextForSummarization text).
Proof.
  intros text. unfold prepareTextForSummarization. cbv zeta.
  set (c4 := removeAllCI adWords _).
  assert (H4 : List.length c4 <= List.length text).
  { unfold c4, removeAllCI, removeBrackets.
    etransitivity; [apply removeAllCI_aux_length|].
    etransitivity; [apply removeBrackets_aux_length|].
    etransitivity; [apply removeAllCI_aux_length|].
    etransitivity; [apply trim_length|].
    apply replaceWs_length. }
  split; [|split]; [| |apply trim_cleanEdges].
  - etransitivity; [apply trim_length|].
    destruct (4000 <? List.length c4) eqn:Hbig; [|exact H4].
    apply Nat.ltb_lt in Hbig. unfold substring0, lastChars.
    rewrite !length_app, length_firstn, length_skipn.
    change (List.length (lit " ")) with 1. lia.
  - etransitivity; [apply trim_length|].
    destruct (4000 <? List.length c4) eqn:Hbig.
    + apply Nat.ltb_lt in Hbig. unfold substring0, lastChars.
      rewrite !length_app, length_firstn, length_skipn.
      change (List.length (lit " ")) with 1. lia.
    + apply Nat.ltb_ge in Hbig. lia.
Qed.

Lemma totalLength_app (a b : list Scored) :
  totalLength (a ++ b) = totalLength a + totalLength b.
Proof.
  unfold totalLength. rewrite map_app. induction (map _ a) as [|x l IH].
  - reflexivity.
  - unfold list_sum in *. cbn [app fold_right] in *. lia.
Qed.

Lemma selectSentences_stops (items : list Scored) (target : nat) :
  forall selected current,
    current = totalLength selected ->
    List.length selected < 10 ->
    (selected = [] \/ totalLength (removelast selected) < target) ->
    let result := selectSentences items target selected current in
    List.length result <= 10
    /\ (result = [] \/ totalLength (removelast result) < target).
Proof.
  induction items as [|item rest IH]; intros selected current Hcur Hlen Hinv;
    cbn [selectSentences]; cbv zeta.
  - split; [lia | exact Hinv].
  - destruct (target <=? current) eqn:Hreach.
    + split; [lia | exact Hinv].
    + apply Nat.leb_gt in Hreach.
      assert (Hlen' : List.length (selected ++ [item]) = S (List.length selected))
        by (rewrite length_app; cbn; lia).
      assert (Hinv' : selected ++ [item] = []
                      \/ totalLength (removelast (selected ++ [item])) < target)
        by (right; rewrite removelast_last; lia).
      destruct (10 <=? List.length (selected ++ [item])) eqn:Hten.
      * split; [lia | exact Hinv'].
      * apply Nat.leb_gt in Hten. apply IH; [|lia|exact Hinv'].
        rewrite totalLength_app. unfold totalLength at 2.
        cbn [map list_sum fold_right]. unfold list_sum. cbn [fold_right]. lia.
Qed.

(** X10.  The extractive method selects at most ten sentences, and it
    takes a further sentence only while the sentences taken so far are
    shorter than the target: all selected sentences but the last one add up
    to less than the target.  With target 0 nothing is selected. *)
Theorem selectedSentences_at_most_ten :
  forall (text : str) (target : nat),
    List.length (selectedSentences text target) <= 10
    /\ (selectedSentences text target = []
        \/ totalLength (removelast (selectedSentences text target)) < target)
    /\ (target = 0 -> selectedSentences text target = []).
Proof.
  intros text target. unfold selectedSentences.
  set (items := stableSort _ _).
  destruct (selectSentences_stops items target [] 0 eq_refl) as [H10 Hstop];
    [cbn; lia | now left |].
  split; [exact H10|]. split; [exact Hstop|].
  intros ->. destruct items; reflexivity.
Qed.

Lemma selectedSentences_at_most_ten_witness :
  selectedSentences "One. Two. Three." 0 = [].
Proof.
  apply (proj2 (proj2 (selectedSentences_at_most_ten "One. Two. Three." 0))).
  reflexivity.
Defined.

Lemma summarizeText_target (text : str) (m : nat) :
  1200 <= List.length text -> m <= 300 ->
  Nat.max (List.length text / 4) m = List.length text / 4.
Proof.
  intros H Hm. apply Nat.max_l.
  pose proof (Nat.Div0.div_le_mono 1200 (List.length text) 4 H) as Hd.
  change (1200 / 4) with 300 in Hd. lia.
Qed.

Lemma summarizeText_cases (E : Env) (text : str) (minLength : option nat) :
  let floor := match minLength with
               | Some (S m) => S m
               | _ => 200
               end in
  let target := Nat.max (List.length text / 4) floor in
  let summary := summarizeText E text minLength in
  summary = generateEnhancedSummary (prepareTextForSummarization text) target
  \/ (huggingfaceApiKey E = true
      /\ (exists answer, summary = cleanSummary answer)
      /\ 4 * target <= 5 * List.length summary)
  \/ (huggingfaceApiKey E = true
      /\ generateAISummary E (prepareTextForSummarization text) target
           (Nat.min (target + 100) 500) = None
      /\ summary
         = generateEnhancedSummary text (Nat.max (List.length text / 4) 200)).
Proof.
  intros floor target summary.
  unfold summary, summarizeText. fold floor. cbv zeta. fold target.
  destruct (huggingfaceApiKey E) eqn:Hkey; [|now left].
  destruct (generateAISummary E (prepareTextForSummarization text) target
              (Nat.min (target + 100) 500)) as [ai|] eqn:Hai.
  - destruct (truthy ai && (4 * target <=? 5 * List.length ai)) eqn:Hok;
      [|now left].
    right. left. apply andb_true_iff in Hok. destruct Hok as [_ Hok].
    apply Nat.leb_le in Hok. split; [reflexivity|]. split; [|exact Hok].
    unfold generateAISummary, generateAlternativeSummary in Hai.
    repeat match type of Hai with
           | match ?x with _ => _ end = _ => destruct x; try discriminate Hai
           end;
      injection Hai as <-; eexists; reflexivity.
  - right. right. repeat split; reflexivity.
Qed.

Lemma summarizeText_punctuated (E : Env) (text : str) (minLength : option nat) :
  endsWithTerm (summarizeText E text minLength) = true
  /\ match summarizeText E text minLength with
     | c :: _ => isLower c = false
     | [] => False
     end.
Proof.
  destruct (summarizeText_cases E text minLength)
    as [-> | [(_ & (answer & ->) & _) | (_ & _ & ->)]].
  - apply generateEnhancedSummary_shape.
  - apply cleanSummary_shape.
  - apply generateEnhancedSummary_shape.
Qed.

(** X11.  [summarizeText] returns, on every path and for every answer of
    the summarization service, a text that ends in [.], [!] or [?] and
    does not begin with a lower-case letter.  The result is the extractive
    summary of the prepared text for the target, or the summary the
    service returned, cleaned, and then at least 0.8 times the target
    long, or, when the service call throws, the extractive summary of the
    unprepared text for the default floor of 200, whatever [minLength]
    was. *)
Theorem summarizeText_paths :
  forall (E : Env) (text : str) (minLength : option nat),
    let floor := match minLength with
                 | Some (S m) => S m
                 | _ => 200
                 end in
    let target := Nat.max (List.length text / 4) floor in
    let summary := summarizeText E text minLength in
    endsWithTerm summary = true
    /\ match summary with
       | c :: _ => isLower c = false
       | [] => False
       end
    /\ (summary
        = generateEnhancedSummary (prepareTextForSummarization text) target
        \/ (huggingfaceApiKey E = true
            /\ (exists answer, summary = cleanSummary answer)
            /\ 4 * target <= 5 * List.length summary)
        \/ (huggingfaceApiKey E = true
            /\ generateAISummary E (prepareTextForSummarization text) target
                 (Nat.min (target + 100) 500) = None
            /\ summary
               = generateEnhancedSummary text
                   (Nat.max (List.length text / 4) 200))).
Proof.
  intros E text minLength floor target summary.
  destruct (summarizeText_punctuated E text minLength) as [Hend Hcap].
  split; [exact Hend|]. split; [exact Hcap|].
  apply summarizeText_cases.
Qed.

(** X12.  Without an API key the three summaries of
    [generateMultipleSummaries] are one and the same text for every
    article of 1200 characters or more: the requested lengths 100, 200 and
    300 all lie below a quarter of the article, which then is the target
    of all three. *)
Theorem generateMultipleSummaries_long_text :
  forall (E : Env) (text : str),
    huggingfaceApiKey E = false ->
    1200 <= List.length text ->
    let all := generateMultipleSummaries E text in
    let extract :=
      generateEnhancedSummary (prepareTextForSummarization text)
        (List.length text / 4) in
    short all = extract /\ medium all = extract /\ long all = extract.
Proof.
  intros E text Hkey Hlen. cbv zeta.
  unfold generateMultipleSummaries. cbn [short medium long].
  unfold summarizeText. rewrite Hkey. cbv zeta.
  rewrite !(summarizeText_target text _ Hlen) by lia.
  repeat split; reflexivity.
Qed.

Lemma generateMultipleSummaries_witness :
  let all :=
    generateMultipleSummaries (Sample.env [] Sample.healthy)
      Sample.innerEllipsis in
  let extract :=
    generateEnhancedSummary (prepareTextForSummarization Sample.innerEllipsis)
      (List.length Sample.innerEllipsis / 4) in
  short all = extract /\ medium all = extract /\ long all = extract.
Proof.
  apply (generateMultipleSummaries_long_text (Sample.env [] Sample.healthy)
           Sample.innerEllipsis).
  - reflexivity.
  - vm_compute. lia.
Defined.

(* ================================================================== *)
(** ** Further properties of the deduplicator and the slug *)
(* ================================================================== *)

(** X13.  The title check of the round trip.  The articles table keeps
    the first 500 characters of a title (a longer title is stored only
    when nothing but spaces is cut off).  Once the process worker has
    persisted an article, [isDuplicate] answers true for every probe whose
    title equals the stored title up to letter case, whatever its URL and
    content are, provided the two look-ups it makes do not throw; for a
    title of at most 500 characters the stored title is the job's own. *)
Theorem isDuplicate_after_persist_same_title :
  forall (E : Env) (db db' : DB) (job : ProcessJob) (r : ProcessResult)
         (probe title content : str),
    processWorker E db job = (inr r, db') ->
    fails E (SelectArticleBySourceUrl (normalizeUrl E probe)) = false ->
    fails E (SelectArticleByLowerTitle title) = false ->
    (toLowerCase title = toLowerCase (substring0 500 (job_title job)) ->
     isDuplicate E db' probe title content = true)
    /\ (List.length (job_title job) <= 500 ->
        toLowerCase title = toLowerCase (job_title job) ->
        isDuplicate E db' probe title content = true).
Proof.
  intros E db db' job r probe title content Hrun Hq1 Hq2.
  assert (Hstored : toLowerCase title
                    = toLowerCase (substring0 500 (job_title job)) ->
                    isDuplicate E db' probe title content = true).
  { intros Htitle.
    apply processWorker_success_appends in Hrun.
    destruct Hrun as (row & Harts & _ & Hrow & _).
    unfold isDuplicate, query. rewrite Hq1.
    destruct (0 <? _); [reflexivity|]. rewrite Hq2.
    unfold rowsByLowerTitle. rewrite Harts, filter_app, map_app, length_app.
    cbn [filter]. unfold substring0 in Htitle.
    rewrite Hrow, Htitle, str_eqb_refl. cbn [map List.length].
    destruct (0 <? _) eqn:Hlt; [reflexivity|].
    apply Nat.ltb_ge in Hlt. lia. }
  split; [exact Hstored|].
  intros Hfit Htitle. apply Hstored. unfold substring0.
  now rewrite (firstn_all2 _ Hfit).
Qed.

Lemma isDuplicate_same_title_witness :
  isDuplicate (Sample.env [] Sample.healthy) Sample.db1
    "https://other.example.org/markets" "MARKETS RALLY after rate decision"
    "Other body" = true.
Proof.
  assert (Hrun : exists r,
             processWorker (Sample.env [] Sample.healthy) Sample.db0
               Sample.storyJob = (inr r, Sample.db1)).
  { unfold Sample.db1.
    destruct (processWorker (Sample.env [] Sample.healthy) Sample.db0
                Sample.storyJob) as [[e|r] d] eqn:H.
    - vm_compute in H. discriminate H.
    - exists r. reflexivity. }
  destruct Hrun as [r Hrun].
  apply (proj2 (isDuplicate_after_persist_same_title _ _ _ _ r
                  "https://other.example.org/markets"
                  "MARKETS RALLY after rate decision" "Other body" Hrun
                  eq_refl eq_refl)).
  - vm_compute. lia.
  - reflexivity.
Defined.

(** X14.  Processing never makes the deduplicator forget: with a storage
    that answers, whatever [isDuplicate] reports as a duplicate before a
    process job runs it still reports as one afterwards, whether the job
    succeeded or failed. *)
Theorem isDuplicate_survives_processing :
  forall (E : Env) (db : DB) (job : ProcessJob) (sourceUrl title content : str),
    (forall q, fails E q = false) ->
    isDuplicate E db sourceUrl title content = true ->
    isDuplicate E (snd (processWorker E db job)) sourceUrl title content = true.
Proof.
  intros E db job sourceUrl title content Hok Hdup.
  destruct (processWorker E db job) as [[e|r] db'] eqn:Hrun; cbn [snd].
  - apply processWorker_error_keeps_store in Hrun. now subst db'.
  - apply processWorker_success_appends in Hrun.
    destruct Hrun as (row & Harts & _).
    apply (isDuplicate_true_iff E db' _ _ _ Hok).
    apply (isDuplicate_true_iff E db _ _ _ Hok) in Hdup.
    destruct Hdup as (a & Hin & Hmatch).
    exists a. split; [|exact Hmatch].
    rewrite Harts. apply in_or_app. now left.
Qed.

Lemma isDuplicate_survives_witness :
  isDuplicate (Sample.env [] Sample.healthy)
    (snd (processWorker (Sample.env [] Sample.healthy) Sample.db1
            Sample.firstGoodJob))
    "https://other.example.org/markets" "MARKETS RALLY after rate decision"
    "Other body" = true.
Proof.
  apply isDuplicate_survives_processing.
  - reflexivity.
  - vm_compute. reflexivity.
Defined.

Lemma lowerChar_slug_or_space (c : ascii) :
  isWord (lowerChar c) || isSpace (lowerChar c) || chr_eqb (lowerChar c) "-"
  = true ->
  isSlugChar (lowerChar c) || isSpace (lowerChar c) = true.
Proof. destruct c as [[] [] [] [] [] [] [] []]; cbn; intros H; congruence. Qed.

Lemma isSlugChar_kept (c : ascii) :
  isSlugChar c = true ->
  lowerChar c = c
  /\ isWord c || isSpace c || chr_eqb c "-" = true
  /\ isSpace c = false.
Proof.
  destruct c as [[] [] [] [] [] [] [] []]; cbn; intros H;
    try discriminate H; repeat split.
Qed.

Lemma stripNonWord_lower_chars (title : str) :
  Forall (fun c => isSlugChar c || isSpace c = true)
    (stripNonWord (toLowerCase title)).
Proof.
  unfold stripNonWord, toLowerCase. apply Forall_forall. intros c Hin.
  apply filter_In in Hin. destruct Hin as [Hin Hkeep].
  apply in_map_iff in Hin. destruct Hin as (c0 & <- & _).
  now apply lowerChar_slug_or_space.
Qed.

Lemma replaceWs_hyphen_slug (s : str) :
  Forall (fun c => isSlugChar c || isSpace c = true) s ->
  forall inWs, Forall (fun c => isSlugChar c = true) (replaceWs_aux "-" s inWs).
Proof.
  induction 1 as [|c r Hc _ IH]; intros inWs; cbn [replaceWs_aux];
    [constructor|].
  destruct (isSpace c) eqn:Hsp.
  - destruct inWs; [apply IH|]. cbn [lit app list_ascii_of_string].
    constructor; [reflexivity | apply IH].
  - constructor; [|apply IH]. now rewrite orb_false_r in Hc.
Qed.

Lemma collapseHyphens_Forall (P : ascii -> Prop) (s : str) :
  Forall P s -> Forall P (collapseHyphens s).
Proof.
  induction 1 as [|c r Hc Hr IH]; [constructor|].
  cbn [collapseHyphens]. destruct (chr_eqb c "-").
  - destruct r as [|d r']; [now constructor|].
    destruct (chr_eqb d "-"); [exact IH | now constructor].
  - now constructor.
Qed.

Lemma collapseHyphens_head (s : str) :
  hd_error (collapseHyphens s) = hd_error s.
Proof.
  induction s as [|c r IH]; [reflexivity|]. cbn [collapseHyphens].
  destruct (chr_eqb c "-") eqn:Hc; [|reflexivity].
  destruct r as [|d r']; [reflexivity|].
  destruct (chr_eqb d "-") eqn:Hd; [|reflexivity].
  rewrite IH. cbn [hd_error].
  apply chr_eqb_eq in Hc. apply chr_eqb_eq in Hd. congruence.
Qed.

Lemma noHyphenRun_cons (c : ascii) (r : str) :
  noHyphenRun (c :: r)
  = match hd_error r with
    | Some d => negb (chr_eqb c "-" && chr_eqb d "-")
    | None => true
    end && noHyphenRun r.
Proof. destruct r as [|d r']; reflexivity. Qed.

Lemma collapseHyphens_noHyphenRun (s : str) :
  noHyphenRun (collapseHyphens s) = true.
Proof.
  induction s as [|c r IH]; [reflexivity|]. cbn [collapseHyphens].
  destruct (chr_eqb c "-") eqn:Hc.
  - destruct r as [|d r']; [reflexivity|].
    destruct (chr_eqb d "-") eqn:Hd; [exact IH|].
    rewrite noHyphenRun_cons, collapseHyphens_head, IH. cbn [hd_error].
    now rewrite Hd, andb_false_r.
  - rewrite noHyphenRun_cons, IH, Hc.
    destruct (hd_error (collapseHyphens r)); reflexivity.
Qed.

Lemma noHyphenRun_firstn (s : str) :
  forall n, noHyphenRun s = true -> noHyphenRun (firstn n s) = true.
Proof.
  induction s as [|c r IH]; intros n H; [now destruct n|].
  destruct n as [|n]; [reflexivity|]. cbn [firstn].
  rewrite noHyphenRun_cons in *. apply andb_true_iff in H.
  destruct H as [Hhd Hr]. rewrite (IH n Hr), andb_true_r.
  destruct r as [|d r']; [now destruct n|].
  destruct n as [|n]; [reflexivity | exact Hhd].
Qed.

Lemma Forall_firstn_keeps {A : Type} (P : A -> Prop) (n : nat) (l : list A) :
  Forall P l -> Forall P (firstn n l).
Proof.
  intros H. rewrite <- (firstn_skipn n l) in H.
  now apply Forall_app in H.
Qed.

Lemma replaceWs_noSpace_same (r s : str) :
  noSpace s -> replaceWs_aux r s false = s.
Proof.
  induction 1 as [|c t Hc _ IH]; [reflexivity|].
  cbn [replaceWs_aux]. now rewrite Hc, IH.
Qed.

Lemma collapseHyphens_same (s : str) :
  noHyphenRun s = true -> collapseHyphens s = s.
Proof.
  induction s as [|c r IH]; intros H; [reflexivity|].
  rewrite noHyphenRun_cons in H. apply andb_true_iff in H.
  destruct H as [Hhd Hr]. cbn [collapseHyphens]. rewrite (IH Hr).
  destruct (chr_eqb c "-"); [|reflexivity].
  destruct r as [|d r']; [reflexivity|]. cbn [hd_error] in Hhd.
  destruct (chr_eqb d "-"); [discriminate Hhd | reflexivity].
Qed.

Lemma slugOf_fixed (s : str) :
  Forall (fun c => isSlugChar c = true) s ->
  noHyphenRun s = true ->
  List.length s <= 100 ->
  slugOf s = s.
Proof.
  intros Hchars Hrun Hlen. rewrite slugOf_trim_is_idle.
  assert (Hlow : toLowerCase s = s).
  { unfold toLowerCase. rewrite <- (map_id s) at 2. apply map_ext_in.
    intros c Hin. apply isSlugChar_kept.
    exact (proj1 (Forall_forall _ s) Hchars c Hin). }
  assert (Hkeep : stripNonWord s = s).
  { unfold stripNonWord. apply filter_all.
    eapply Forall_impl; [|exact Hchars].
    intros c Hc. now apply isSlugChar_kept. }
  assert (Hns : noSpace s).
  { unfold noSpace. eapply Forall_impl; [|exact Hchars].
    intros c Hc. now apply isSlugChar_kept. }
  rewrite Hlow, Hkeep. unfold replaceWs.
  rewrite (replaceWs_noSpace_same _ s Hns), (collapseHyphens_same s Hrun).
  unfold substring0. now apply firstn_all2.
Qed.

(** X15.  A slug is at most 100 characters long, is made of lower-case
    letters, digits, underscores and hyphens only, and has no two hyphens
    in a row; making a slug of a slug changes nothing. *)
Theorem slugOf_shape :
  forall (title : str),
    List.length (slugOf title) <= 100
    /\ Forall (fun c => isSlugChar c = true) (slugOf title)
    /\ noHyphenRun (slugOf title) = true
    /\ slugOf (slugOf title) = slugOf title.
Proof.
  intros title.
  assert (Hlen : List.length (slugOf title) <= 100).
  { unfold slugOf, substring0. rewrite length_firstn. lia. }
  assert (Hchars : Forall (fun c => isSlugChar c = true) (slugOf title)).
  { rewrite slugOf_trim_is_idle. unfold substring0, replaceWs.
    apply Forall_firstn_keeps, collapseHyphens_Forall, replaceWs_hyphen_slug,
      stripNonWord_lower_chars. }
  assert (Hrun : noHyphenRun (slugOf title) = true).
  { rewrite slugOf_trim_is_idle. unfold substring0.
    apply noHyphenRun_firstn, collapseHyphens_noHyphenRun. }
  repeat split; try assumption. now apply slugOf_fixed.
Qed.

Lemma insertArticle_taken_slug (E : Env) (db : DB) (row : ArticleRow) :
  List.length (art_slug row) <= 500 ->
  (exists a, In a (articles db) /\ art_slug a = art_slug row) ->
  insertArticle E db row = None.
Proof.
  intros Hfit (a & Hin & Hslug). unfold insertArticle.
  destruct (fails E (InsertArticle row)); [reflexivity|].
  destruct (storedRow row) as [stored|] eqn:Hst; [|reflexivity].
  apply storedRow_inv in Hst.
  assert (Hsame : art_slug stored = art_slug row).
  { rewrite Hst. cbn [art_slug]. now apply firstn_all2. }
  assert (Hno : insertAllowed db stored = false).
  { unfold insertAllowed.
    assert (Hex : existsb (fun x => str_eqb (art_slug x) (art_slug stored))
                    (articles db) = true).
    { apply existsb_exists. exists a. split; [exact Hin|].
      rewrite Hslug, Hsame. apply str_eqb_refl. }
    now rewrite Hex. }
  now rewrite Hno.
Qed.

Lemma processWorker_taken_slug (E : Env) (db : DB) (job : ProcessJob) :
  (exists a, In a (articles db) /\ art_slug a = slugOf (job_title job)) ->
  exists e, processWorker E db job = (inl e, db).
Proof.
  intros Htaken. unfold processWorker. cbv zeta.
  destruct (query E (SelectSourceId (job_sourceId job)) _) as [[|s rows]|];
    [eexists; reflexivity| |eexists; reflexivity].
  destruct (List.length _ <? 500); [eexists; reflexivity|].
  destruct (negb (truthyOpt (job_imageUrl job))); [eexists; reflexivity|].
  destruct (rewriteArticleWithHTML E _ _ _ _ _); [|eexists; reflexivity].
  rewrite insertArticle_taken_slug; [eexists; reflexivity| |exact Htaken].
  cbn [art_slug]. pose proof (slugOf_length (job_title job)). lia.
Qed.

(** X16.  Two stories whose titles give the same slug cannot both be
    stored: after the process worker has persisted the first, a job for
    the second ends in an error and leaves the store as it was, whatever
    its link, content and image are. *)
Theorem processWorker_same_slug_twice :
  forall (E : Env) (db db' : DB) (job later : ProcessJob) (r : ProcessResult),
    processWorker E db job = (inr r, db') ->
    slugOf (job_title later) = slugOf (job_title job) ->
    exists e, processWorker E db' later = (inl e, db').
Proof.
  intros E db db' job later r Hrun Hslug.
  apply processWorker_success_appends in Hrun.
  destruct Hrun as (row & Harts & _ & _ & Hrow & _).
  apply processWorker_taken_slug. exists row. split; [|congruence].
  rewrite Harts. apply in_or_app. right. now left.
Qed.

Lemma processWorker_same_slug_witness :
  exists e,
    processWorker (Sample.env [] Sample.healthy) Sample.db1 Sample2.rivalJob
    = (inl e, Sample.db1).
Proof.
  assert (Hrun : exists r,
             processWorker (Sample.env [] Sample.healthy) Sample.db0
               Sample.storyJob = (inr r, Sample.db1)).
  { unfold Sample.db1.
    destruct (processWorker (Sample.env [] Sample.healthy) Sample.db0
                Sample.storyJob) as [[e|r] d] eqn:H.
    - vm_compute in H. discriminate H.
    - exists r. reflexivity. }
  destruct Hrun as [r Hrun].
  apply (processWorker_same_slug_twice _ _ _ _ Sample2.rivalJob r Hrun).
  vm_compute. reflexivity.
Defined.

(* ================================================================== *)
(** ** Further properties of the fetch worker *)
(* ================================================================== *)

Lemma counterUpdate_refl (id : nat) (s : SourceRow) : counterUpdate id s s.
Proof. unfold counterUpdate. repeat split; lia. Qed.

Lemma recordSuccess_frame (t : Z) (id : nat) (db : DB) :
  articles (recordSuccess t id db) = articles db
  /\ categories (recordSuccess t id db) = categories db
  /\ Forall2 (fun s s' =>
                counterUpdate id s s'
                /\ error_count s' = error_count s
                /\ (src_id s = id -> success_count s' = S (success_count s)))
       (news_sources db) (news_sources (recordSuccess t id db)).
Proof.
  unfold recordSuccess. cbn [articles categories news_sources].
  split; [reflexivity|]. split; [reflexivity|].
  induction (news_sources db) as [|s l IH]; cbn [map]; constructor; [|exact IH].
  destruct (src_id s =? id) eqn:Hid.
  - unfold counterUpdate. cbn. apply Nat.eqb_eq in Hid.
    repeat split; try lia; intros; congruence.
  - apply Nat.eqb_neq in Hid.
    split; [apply counterUpdate_refl|]. split; [reflexivity | congruence].
Qed.

Lemma recordFailure_frame (msg : str) (id : nat) (db : DB) :
  articles (recordFailure msg id db) = articles db
  /\ categories (recordFailure msg id db) = categories db
  /\ Forall2 (fun s s' =>
                counterUpdate id s s'
                /\ success_count s' = success_count s
                /\ (src_id s = id ->
                    error_count s' = S (error_count s)
                    /\ last_error s' = Some msg))
       (news_sources db) (news_sources (recordFailure msg id db)).
Proof.
  unfold recordFailure. cbn [articles categories news_sources].
  split; [reflexivity|]. split; [reflexivity|].
  induction (news_sources db) as [|s l IH]; cbn [map]; constructor; [|exact IH].
  destruct (src_id s =? id) eqn:Hid.
  - unfold counterUpdate. cbn. apply Nat.eqb_eq in Hid.
    repeat split; try lia; intros; congruence.
  - apply Nat.eqb_neq in Hid.
    split; [apply counterUpdate_refl|]. split; [reflexivity | congruence].
Qed.

Lemma Forall2_same {A : Type} (R : A -> A -> Prop) (l : list A) :
  (forall x, R x x) -> Forall2 R l l.
Proof. intros H. induction l; constructor; auto. Qed.

Lemma Forall2_chain {A : Type} (R S T : A -> A -> Prop) (a b c : list A) :
  (forall x y z, R x y -> S y z -> T x z) ->
  Forall2 R a b -> Forall2 S b c -> Forall2 T a c.
Proof.
  intros H Hab. revert c. induction Hab as [|x y a b Hxy _ IH]; intros c Hbc;
    inversion Hbc; subst; constructor; eauto.
Qed.

Lemma Forall2_weaken {A : Type} (R S : A -> A -> Prop) (a b : list A) :
  (forall x y, R x y -> S x y) -> Forall2 R a b -> Forall2 S a b.
Proof. intros H. induction 1; constructor; auto. Qed.

Lemma isDuplicate_same_articles (E : Env) (db db' : DB)
    (sourceUrl title content : str) :
  articles db' = articles db ->
  isDuplicate E db' sourceUrl title content
  = isDuplicate E db sourceUrl title content.
Proof.
  intros H. unfold isDuplicate, rowsBySourceUrl, rowsByLowerTitle,
    rowsByContentMd5. now rewrite H.
Qed.

(** X17.  One run of the fetch worker changes nothing in the store but the
    counters, the last error and the fetch time of the source it was
    started for: the articles and the categories are as before, every
    source keeps its id, name, type, URL and activity, each counter goes
    up by at most one, a source with another id is left as it was, and
    the deduplicator answers as before. *)
Theorem fetchWorker_touches_counters_only :
  forall (E : Env) (db : DB) (sourceId : nat),
    let after := fetch_db (fetchWorker E db sourceId) in
    articles after = articles db
    /\ categories after = categories db
    /\ Forall2 (counterUpdate sourceId) (news_sources db) (news_sources after)
    /\ (forall E' sourceUrl title content,
          isDuplicate E' after sourceUrl title content
          = isDuplicate E' db sourceUrl title content).
Proof.
  intros E db sourceId after.
  assert (Hmain : articles after = articles db
                  /\ categories after = categories db
                  /\ Forall2 (counterUpdate sourceId)
                       (news_sources db) (news_sources after)).
  { pose proof (recordSuccess_frame (now E) sourceId db) as (Sa & Sc & Ss).
    assert (Hs : Forall2 (counterUpdate sourceId) (news_sources db)
                   (news_sources (recordSuccess (now E) sourceId db))).
    { eapply Forall2_weaken; [|exact Ss]. intros x y H. apply H. }
    unfold after.
    destruct (fetchWorker_cases E db sourceId)
      as [(source & others & arts & st & _ & _ & _ & ->)
         | (e & before & _ & _ & Hbefore & Hdb)].
    - cbn [fetch_db]. repeat split; assumption.
    - destruct Hbefore as [-> | ->]; destruct Hdb as [-> | [msg ->]].
      + repeat split; try reflexivity.
        apply Forall2_same, counterUpdate_refl.
      + pose proof (recordFailure_frame msg sourceId db) as (Fa & Fc & Fs).
        repeat split; try assumption.
        eapply Forall2_weaken; [|exact Fs]. intros x y H. apply H.
      + repeat split; assumption.
      + pose proof (recordFailure_frame msg sourceId
                      (recordSuccess (now E) sourceId db)) as (Fa & Fc & Fs).
        split; [congruence|]. split; [congruence|].
        eapply Forall2_chain; [|exact Ss|exact Fs].
        intros x y z (Hxy & Hxe & _) (Hyz & Hys & _).
        unfold counterUpdate in *.
        destruct Hxy as (I1 & I2 & I3 & I4 & I5 & I6 & I7 & I8).
        destruct Hyz as (J1 & J2 & J3 & J4 & J5 & J6 & J7 & J8).
        repeat split; try congruence; try lia.
        intros Hne. rewrite J8 by congruence. now apply I8. }
  destruct Hmain as (Ha & Hc & Hs). repeat split; try assumption.
  intros E' sourceUrl title content. now apply isDuplicate_same_articles.
Qed.

(** X18.  The counts a successful fetch job reports fit together: the
    number queued is the number of payloads handed to the process queue
    and is at most one, queued and skipped together never exceed the
    number fetched, and when nothing was queued every fetched article was
    skipped.  A fetch job that fails has handed nothing to the process
    queue. *)
Theorem fetchWorker_result_counts :
  forall (E : Env) (db : DB) (sourceId : nat),
    let run := fetchWorker E db sourceId in
    match fetch_outcome run with
    | inr result =>
        fr_queued result = List.length (fetch_jobs run)
        /\ fr_queued result <= 1
        /\ fr_queued result + fr_skipped result <= totalFetched result
        /\ (fr_queued result = 0 -> fr_skipped result = totalFetched result)
    | inl _ => fetch_jobs run = []
    end.
Proof.
  intros E db sourceId run. unfold run.
  destruct (fetchWorker_cases E db sourceId)
    as [(source & others & arts & st & _ & _ & Hloop & ->)
       | (e & before & -> & Hjobs & _)]; [|exact Hjobs].
  cbn [fetch_outcome fetch_jobs totalFetched fr_queued fr_skipped].
  apply fetchLoop_spec in Hloop; [|reflexivity].
  cbn [loopStart queued skipped enqueued visited app] in Hloop.
  destruct Hloop as [(Hq & He & _ & Hs & _)
                    | (pre & a & post & job & -> & _ & _ & Hq & He & _ & Hs)].
  - rewrite Hq, He, Hs. cbn. repeat split; lia.
  - rewrite Hq, He, Hs, length_app. cbn. repeat split; lia.
Qed.

Lemma fetchWorker_job_origin (E : Env) (db : DB) (sourceId : nat)
    (job : ProcessJob) :
  In job (fetch_jobs (fetchWorker E db sourceId)) ->
  exists source others article,
    filter (fun s => (src_id s =? sourceId) && is_active s) (news_sources db)
    = source :: others
    /\ fetch_db (fetchWorker E db sourceId) = recordSuccess (now E) sourceId db
    /\ examine E (recordSuccess (now E) sourceId db) source article = Queue job.
Proof.
  intros Hin.
  destruct (fetchWorker_cases E db sourceId)
    as [(source & others & arts & st & Hrows & _ & Hloop & Hrun)
       | (e & before & _ & Hjobs & _)].
  - rewrite Hrun in Hin |- *. cbn [fetch_jobs fetch_db] in *.
    apply fetchLoop_spec in Hloop; [|reflexivity].
    cbn [loopStart queued skipped enqueued visited app] in Hloop.
    destruct Hloop as [(_ & He & _)
                      | (pre & a & post & j & _ & _ & Hex & _ & He & _)].
    + rewrite He in Hin. contradiction.
    + rewrite He in Hin. destruct Hin as [<- | []].
      exists source, others, a. repeat split; assumption.
  - rewrite Hjobs in Hin. contradiction.
Qed.

Lemma examine_Queue_source (E : Env) (db : DB) (source : SourceRow)
    (article : ParsedArticle) (job : ProcessJob) :
  examine E db source article = Queue job ->
  job_sourceId job = src_id source /\ job_sourceName job = src_name source.
Proof.
  unfold examine.
  destruct (negb (truthy (pa_link article))); [discriminate|].
  destruct (isDuplicate E db _ _ _); [discriminate|].
  destruct (finalize E source article) as [fullContent imageUrl].
  destruct (negb (truthyOpt imageUrl)); [discriminate|].
  destruct (List.length fullContent <? 500); [discriminate|].
  intros H. injection H as <-. split; reflexivity.
Qed.

Lemma filter_head_In {A : Type} (f : A -> bool) (l : list A) (x : A)
    (rest : list A) :
  filter f l = x :: rest -> In x l /\ f x = true.
Proof.
  intros H. apply filter_In. rewrite H. now left.
Qed.

Lemma recordSuccess_keeps_id (t : Z) (id : nat) (db : DB) (s : SourceRow) :
  In s (news_sources db) ->
  exists s', In s' (news_sources (recordSuccess t id db))
             /\ src_id s' = src_id s.
Proof.
  intros Hin. unfold recordSuccess. cbn [news_sources].
  eexists. split; [apply in_map; exact Hin|].
  destruct (src_id s =? id); reflexivity.
Qed.

(** X19.  A payload the fetch worker enqueued passes the first checks of
    the process worker in the store the fetch job left: it carries the id
    and the name of the source the job was started for, the process
    worker finds that source, and it never fails for a missing image.
    What can still stop it is a query that throws, cleaned text shorter
    than 500 characters, or the rewriter. *)
Theorem fetched_job_passes_source_and_image_checks :
  forall (E : Env) (db : DB) (sourceId : nat) (job : ProcessJob),
    In job (fetch_jobs (fetchWorker E db sourceId)) ->
    job_sourceId job = sourceId
    /\ (exists source,
          In source (news_sources db) /\ src_id source = sourceId
          /\ is_active source = true /\ job_sourceName job = src_name source)
    /\ (forall e,
          fst (processWorker E (fetch_db (fetchWorker E db sourceId)) job)
          = inl e ->
          e = QueryFailed
          \/ (exists n, e = ContentTooShort n /\ n < 500)
          \/ e = RewriteFailed).
Proof.
  intros E db sourceId job Hin.
  destruct (fetchWorker_job_origin E db sourceId job Hin)
    as (source & others & article & Hrows & Hdb & Hex).
  destruct (examine_Queue_source _ _ _ _ _ Hex) as [Hid Hname].
  apply filter_head_In in Hrows. destruct Hrows as [Hsrc Hok].
  apply andb_true_iff in Hok. destruct Hok as [Hsid Hact].
  apply Nat.eqb_eq in Hsid.
  apply examine_Queue_inv in Hex. destruct Hex as (Himg & _).
  split; [congruence|]. split.
  { exists source. repeat split; assumption. }
  intros e. rewrite Hdb. unfold processWorker. cbv zeta.
  destruct (recordSuccess_keeps_id (now E) sourceId db source Hsrc)
    as (s' & Hs' & Hs'id).
  destruct (query E (SelectSourceId (job_sourceId job)) _)
    as [[|s rows]|] eqn:Hq; cbn [fst].
  - unfold query in Hq. destruct (fails E _); [discriminate|].
    injection Hq as Hq.
    assert (Hs'' : In s' []); [|contradiction].
    rewrite <- Hq. apply filter_In. split; [exact Hs'|].
    apply Nat.eqb_eq. congruence.
  - destruct (List.length _ <? 500) eqn:Hshort; cbn [fst].
    + intros H. injection H as <-. right. left. eexists. split; [reflexivity|].
      now apply Nat.ltb_lt.
    + rewrite Himg. cbn [negb].
      destruct (rewriteArticleWithHTML E _ _ _ _ _); cbn [fst].
      * destruct (insertArticle E _ _) as [[id db']|]; cbn [fst];
          intros H; [discriminate | injection H as <-; now left].
      * intros H. injection H as <-. now right; right.
  - intros H. injection H as <-. now left.
Qed.

Lemma fetched_job_witness :
  job_sourceId Sample.firstGoodJob = 1
  /\ (exists source,
        In source (news_sources Sample.db0) /\ src_id source = 1
        /\ is_active source = true
        /\ job_sourceName Sample.firstGoodJob = src_name source).
Proof.
  assert (Hin : In Sample.firstGoodJob
                  (fetch_jobs (fetchWorker (Sample.env Sample.feed Sample.healthy)
                                 Sample.db0 1)))
    by (vm_compute; left; reflexivity).
  pose proof (fetched_job_passes_source_and_image_checks
                (Sample.env Sample.feed Sample.healthy) Sample.db0 1
                Sample.firstGoodJob Hin) as H.
  exact (conj (proj1 H) (proj1 (proj2 H))).
Defined.

Lemma fetchLoop_queue_rejects (E : Env) (db : DB) (source : SourceRow)
    (pre : list ParsedArticle) (a : ParsedArticle) (post : list ParsedArticle)
    (job : ProcessJob) :
  Forall (fun x => isSkipped (examine E db source x)) pre ->
  examine E db source a = Queue job ->
  queueAccepts E job = false ->
  forall st, queued st = 0 ->
    fetchLoop E db source (pre ++ a :: post) st = None.
Proof.
  intros Hpre Hex Hrej. induction Hpre as [|x pre [why Hx] _ IH];
    intros st Hst; cbn [app fetchLoop]; rewrite Hst; cbn [Nat.leb].
  - now rewrite Hex, Hrej.
  - rewrite Hx. apply IH. exact Hst.
Qed.

(** X20.  A fetch job that fails while handing its payload to the process
    queue is counted twice: the success of the source was recorded before
    the loop started and the failure is recorded after it, so the source
    ends with one more success, one more error and a last error, and
    nothing is queued. *)
Theorem fetchWorker_queue_failure_counts_twice :
  forall (E : Env) (db : DB) (sourceId : nat) (source : SourceRow)
         (others : list SourceRow) (pre : list ParsedArticle)
         (a : ParsedArticle) (post : list ParsedArticle) (job : ProcessJob),
    fails E (SelectActiveSource sourceId) = false ->
    filter (fun s => (src_id s =? sourceId) && is_active s) (news_sources db)
    = source :: others ->
    retrieve E source = Some (pre ++ a :: post) ->
    fails E (UpdateSourceSuccess sourceId) = false ->
    Forall (fun x =>
              isSkipped (examine E (recordSuccess (now E) sourceId db) source x))
      pre ->
    examine E (recordSuccess (now E) sourceId db) source a = Queue job ->
    queueAccepts E job = false ->
    fails E (UpdateSourceError (errorMessage QueueFailed) sourceId) = false ->
    let run := fetchWorker E db sourceId in
    fetch_outcome run = inl QueueFailed
    /\ fetch_jobs run = []
    /\ Forall2 (fun s s' =>
                  src_id s = sourceId ->
                  success_count s' = S (success_count s)
                  /\ error_count s' = S (error_count s)
                  /\ last_error s' <> None)
         (news_sources db) (news_sources (fetch_db run)).
Proof.
  intros E db sourceId source others pre a post job
    Hq Hrows Hfeed Hupd Hpre Hex Hrej Herr run.
  assert (Hrun : run
                 = {| fetch_outcome := inl QueueFailed;
                      fetch_db := recordFailure (errorMessage QueueFailed)
                                    sourceId
                                    (recordSuccess (now E) sourceId db);
                      fetch_jobs := [] |}).
  { unfold run, fetchWorker, fetchTry, query.
    rewrite Hq, Hrows, Hfeed, Hupd.
    rewrite (fetchLoop_queue_rejects E _ source pre a post job Hpre Hex Hrej
               loopStart eq_refl).
    now rewrite Herr. }
  rewrite Hrun. cbn [fetch_outcome fetch_jobs fetch_db].
  split; [reflexivity|]. split; [reflexivity|].
  pose proof (recordSuccess_frame (now E) sourceId db) as (_ & _ & Ss).
  pose proof (recordFailure_frame (errorMessage QueueFailed) sourceId
                (recordSuccess (now E) sourceId db)) as (_ & _ & Fs).
  eapply Forall2_chain; [|exact Ss|exact Fs].
  intros x y z (Hxy & Hxe & Hxs) (Hyz & Hys & Hye) Hid.
  destruct Hxy as (I1 & _).
  destruct (Hye (eq_trans I1 Hid)) as [He Hl].
  repeat split; [rewrite Hys; now apply Hxs | congruence | congruence].
Qed.

Lemma fetchWorker_queue_failure_witness :
  let run := fetchWorker (Sample2.envQueueDown Sample.feed) Sample.db0 1 in
  fetch_outcome run = inl QueueFailed
  /\ fetch_jobs run = []
  /\ Forall2 (fun s s' =>
                src_id s = 1 ->
                success_count s' = S (success_count s)
                /\ error_count s' = S (error_count s)
                /\ last_error s' <> None)
       (news_sources Sample.db0) (news_sources (fetch_db run)).
Proof.
  assert (Hpre : Forall (fun x =>
                   isSkipped (examine (Sample2.envQueueDown Sample.feed)
                                (recordSuccess
                                   (now (Sample2.envQueueDown Sample.feed)) 1
                                   Sample.db0)
                                Sample.source x))
                   (firstn 3 Sample.feed)).
  { repeat apply Forall_cons; [| | |apply Forall_nil];
      eexists; vm_compute; reflexivity. }
  assert (Hex : examine (Sample2.envQueueDown Sample.feed)
                  (recordSuccess (now (Sample2.envQueueDown Sample.feed)) 1
                     Sample.db0)
                  Sample.source
                  (Sample.candidate "First good story" "https://example.com/c"
                     Sample.longBody (Some (lit "https://example.com/i/c.jpg")))
                = Queue Sample.firstGoodJob)
    by (vm_compute; reflexivity).
  exact (fetchWorker_queue_failure_counts_twice
           (Sample2.envQueueDown Sample.feed) Sample.db0 1 Sample.source []
           (firstn 3 Sample.feed) _ (skipn 4 Sample.feed) Sample.firstGoodJob
           eq_refl eq_refl eq_refl eq_refl Hpre Hex eq_refl eq_refl).
Defined.

(* ================================================================== *)
(** ** Further properties of the process worker and the scheduler *)
(* ================================================================== *)

Lemma rowsByCategorySlug_head (db : DB) (slug : str) (id : nat)
    (rest : list nat) :
  rowsByCategorySlug db slug = id :: rest ->
  exists c, In c (categories db) /\ cat_id c = id /\ cat_slug c = slug.
Proof.
  intros H. assert (Hin : In id (rowsByCategorySlug db slug))
    by (rewrite H; now left).
  unfold rowsByCategorySlug in Hin. apply in_map_iff in Hin.
  destruct Hin as (c & Hid & Hc). apply filter_In in Hc.
  destruct Hc as [Hc Hslug]. apply str_eqb_eq in Hslug. now exists c.
Qed.

Lemma lookupFirst_in_store (E : Env) (db : DB) (matches : list str -> bool)
    (table : list (str * list str)) (id : nat) :
  lookupFirst E db matches table = Some (Some id) ->
  exists c kws,
    In c (categories db) /\ cat_id c = id
    /\ In (cat_slug c, kws) table /\ matches kws = true.
Proof.
  induction table as [|[category kws] rest IH]; cbn [lookupFirst];
    [discriminate|].
  destruct (matches kws) eqn:Hm.
  - unfold query. destruct (fails E (SelectCategoryBySlug category));
      [discriminate|].
    destruct (rowsByCategorySlug db category) as [|i rows] eqn:Hrows.
    + intros H. destruct (IH H) as (c & k & H1 & H2 & H3 & H4).
      exists c, k. repeat split; try assumption. now right.
    + intros H. injection H as <-.
      destruct (rowsByCategorySlug_head db category i rows Hrows)
        as (c & H1 & H2 & H3).
      exists c, kws. repeat split; try assumption. left. now rewrite H3.
  - intros H. destruct (IH H) as (c & k & H1 & H2 & H3 & H4).
    exists c, k. repeat split; try assumption. now right.
Qed.

(** X21.  The category [assignCategoryFromKeywords] picks is always one
    the store holds: its slug is one of the twelve of the keyword table,
    or [general], [news] or [world] for the fall-back.  So the id it
    returns never breaks the category reference of the articles table. *)
Theorem assignCategoryFromKeywords_in_store :
  forall (E : Env) (db : DB) (keywords : list str) (sourceName : str)
         (id : nat),
    assignCategoryFromKeywords E db keywords sourceName = Some id ->
    exists c,
      In c (categories db) /\ cat_id c = id
      /\ (In (cat_slug c) (map fst categoryKeywords)
          \/ In (cat_slug c) [lit "general"; lit "news"; lit "world"]).
Proof.
  intros E db keywords sourceName id. unfold assignCategoryFromKeywords.
  cbv zeta.
  destruct (lookupFirst E db (existsb _) categoryKeywords)
    as [[i|]|] eqn:H1; [| |discriminate].
  { intros H. injection H as <-.
    destruct (lookupFirst_in_store _ _ _ _ _ H1) as (c & k & Hc & Hid & Ht & _).
    exists c. repeat split; try assumption. left.
    apply in_map_iff. exists (cat_slug c, k).
    split; [reflexivity | exact Ht]. }
  clear H1.
  destruct (lookupFirst E db _ categoryKeywords) as [[i|]|] eqn:H2;
    [| |discriminate].
  { intros H. injection H as <-.
    destruct (lookupFirst_in_store _ _ _ _ _ H2) as (c & k & Hc & Hid & Ht & _).
    exists c. repeat split; try assumption. left.
    apply in_map_iff. exists (cat_slug c, k).
    split; [reflexivity | exact Ht]. }
  clear H2.
  unfold query. destruct (fails E SelectFallbackCategory); [discriminate|].
  destruct (fallbackCategoryRows db) as [|i rows] eqn:Hrows; [discriminate|].
  intros H. injection H as <-.
  assert (Hin : In i (rowsByCategorySlug db "general"
                      ++ rowsByCategorySlug db "news"
                      ++ rowsByCategorySlug db "world")).
  { unfold fallbackCategoryRows in Hrows.
    destruct (rowsByCategorySlug db "general" ++ rowsByCategorySlug db "news"
              ++ rowsByCategorySlug db "world") as [|j l]; [discriminate|].
    cbn in Hrows. injection Hrows as ->. left. reflexivity. }
  assert (Hslug : forall slug,
             In i (rowsByCategorySlug db slug) ->
             exists c, In c (categories db) /\ cat_id c = i
                       /\ cat_slug c = slug).
  { intros slug Hi. unfold rowsByCategorySlug in Hi. apply in_map_iff in Hi.
    destruct Hi as (c & Hid & Hc). apply filter_In in Hc.
    destruct Hc as [Hc Hs]. apply str_eqb_eq in Hs.
    exists c. repeat split; assumption. }
  apply in_app_or in Hin. destruct Hin as [Hin | Hin];
    [|apply in_app_or in Hin; destruct Hin as [Hin | Hin]];
    destruct (Hslug _ Hin) as (c & Hc & Hid & Hs); exists c;
    (split; [exact Hc|]); (split; [exact Hid|]); right; rewrite Hs; cbn; tauto.
Qed.

Lemma assignCategoryFromKeywords_witness :
  exists c,
    In c (categories Sample2.dbTwoSources) /\ cat_id c = 7
    /\ (In (cat_slug c) (map fst categoryKeywords)
        \/ In (cat_slug c) [lit "general"; lit "news"; lit "world"]).
Proof.
  apply (assignCategoryFromKeywords_in_store (Sample.env [] Sample.healthy)
           Sample2.dbTwoSources [] "World Sports Daily" 7).
  vm_compute. reflexivity.
Defined.

Lemma list_max_above (l : list nat) (x : nat) : In x l -> x <= list_max l.
Proof.
  intros H. pose proof (proj1 (list_max_le l (list_max l)) (Nat.le_refl _)) as Hall.
  exact (proj1 (Forall_forall _ l) Hall x H).
Qed.

Lemma freshId_new (db : DB) : ~ In (freshId db) (map art_id (articles db)).
Proof.
  intros H. apply list_max_above in H. unfold freshId in H. lia.
Qed.

(** X22.  Every article the process worker stores is published at the
    current time under an id and a slug no stored article had, has a
    non-empty author name, an image, at least 500 characters of plain
    text in its original content, a summary that ends in [.], [!] or [?],
    and a category that is either absent or one the store holds; nothing
    else in the store changes. *)
Theorem processWorker_persisted_row :
  forall (E : Env) (db db' : DB) (job : ProcessJob) (r : ProcessResult),
    processWorker E db job = (inr r, db') ->
    exists row,
      articles db' = articles db ++ [row]
      /\ news_sources db' = news_sources db
      /\ categories db' = categories db
      /\ art_id row = articleId r
      /\ ~ In (art_id row) (map art_id (articles db))
      /\ ~ In (art_slug row) (map art_slug (articles db))
      /\ art_status row = published
      /\ published_at row = now E
      /\ author_name row <> []
      /\ truthyOpt (featured_image row) = true
      /\ (exists html,
            content_original row = Some html
            /\ 500 <= List.length (extractPlainText html))
      /\ endsWithTerm (art_summary row) = true
      /\ match category_id row with
         | Some c => exists k, In k (categories db) /\ cat_id k = c
         | None => True
         end.
Proof.
  intros E db db' job r Hrun.
  destruct (processWorker_success_inv E db db' job r Hrun)
    as (row & -> & Hok & Hlen & Himg & Hid & Hslug & Hsum & Horig & Hauth
        & Hfeat & Hstat & Hpub & _).
  exists (withId (freshId db) row).
  cbn [articles news_sources categories withId art_id art_slug art_status
       published_at author_name featured_image content_original art_summary
       category_id].
  unfold insertAllowed in Hok.
  repeat (apply andb_true_iff in Hok; destruct Hok as [Hok ?]).
  repeat split; try reflexivity; try assumption.
  - now rewrite Hid.
  - apply freshId_new.
  - intros Hin. apply in_map_iff in Hin. destruct Hin as (a & Ha & Hin).
    apply negb_true_iff in Hok.
    assert (Hex : existsb (fun x => str_eqb (art_slug x) (art_slug row))
                    (articles db) = true).
    { apply existsb_exists. exists a. split; [exact Hin|].
      rewrite Ha. apply str_eqb_refl. }
    congruence.
  - rewrite Hauth.
    assert (Hne : orElse (job_author job)
                    (orElse (job_sourceName job) "PulsePress Editorial")
                  <> []).
    { destruct (job_author job); [|discriminate].
      cbn [orElse truthy]. destruct (job_sourceName job); discriminate. }
    set (name := orElse (job_author job) _) in *. clearbody name.
    destruct name as [|c rest]; [now elim Hne|].
    change 255 with (S 254). cbn [firstn]. discriminate.
  - now rewrite Hfeat.
  - eexists. split; [exact Horig | exact Hlen].
  - rewrite Hsum. apply summarizeText_punctuated.
  - destruct (category_id row) as [c|]; [|exact I].
    match goal with
    | H : existsb _ (categories db) = true |- _ =>
        apply existsb_exists in H; destruct H as (k & Hk & Hkc)
    end.
    exists k. split; [exact Hk|]. now apply Nat.eqb_eq.
Qed.

Lemma processWorker_persisted_witness :
  exists row,
    articles Sample.db1 = articles Sample.db0 ++ [row]
    /\ art_status row = published
    /\ author_name row <> []
    /\ endsWithTerm (art_summary row) = true.
Proof.
  assert (Hrun : exists r,
             processWorker (Sample.env [] Sample.healthy) Sample.db0
               Sample.storyJob = (inr r, Sample.db1)).
  { unfold Sample.db1.
    destruct (processWorker (Sample.env [] Sample.healthy) Sample.db0
                Sample.storyJob) as [[e|r] d] eqn:H.
    - vm_compute in H. discriminate H.
    - exists r. reflexivity. }
  destruct Hrun as [r Hrun].
  destruct (processWorker_persisted_row _ _ _ _ r Hrun)
    as (row & H1 & _ & _ & _ & _ & _ & H7 & _ & H9 & _ & _ & H12 & _).
  exists row. repeat split; assumption.
Defined.

Lemma addFetchJobs_filter (fetchQueueAccepts : nat -> bool)
    (sources : list SourceRow) :
  addFetchJobs fetchQueueAccepts sources
  = filter fetchQueueAccepts (map src_id sources).
Proof.
  induction sources as [|s l IH]; [reflexivity|].
  cbn [addFetchJobs map filter]. rewrite IH. reflexivity.
Qed.

Lemma active_ids_distinct (sources : list SourceRow) :
  NoDup (map src_id sources) ->
  NoDup (map src_id (filter is_active sources)).
Proof.
  induction sources as [|s rest IH]; intros Hnd; [constructor|].
  cbn [map] in Hnd. apply NoDup_cons_iff in Hnd. destruct Hnd as [Hs Hrest].
  cbn [filter]. destruct (is_active s); [|now apply IH].
  cbn [map]. apply NoDup_cons; [|now apply IH].
  intros Hin. apply Hs. apply in_map_iff in Hin.
  destruct Hin as (y & Hy & Hin). apply filter_In in Hin.
  apply in_map_iff. exists y. tauto.
Qed.

Lemma NoDup_firstn_keeps {A : Type} (n : nat) (l : list A) :
  NoDup l -> NoDup (firstn n l).
Proof.
  intros H. rewrite <- (firstn_skipn n l) in H.
  now apply NoDup_app_remove_r in H.
Qed.

Lemma In_firstn {A : Type} (n : nat) (l : list A) (x : A) :
  In x (firstn n l) -> In x l.
Proof.
  intros H. rewrite <- (firstn_skipn n l). apply in_or_app. now left.
Qed.

(** X23.  One tick of the scheduler adds at most five fetch jobs; each is
    for an active source of the store, so the fetch worker finds its
    source; no source gets two jobs when the source ids are distinct; a
    source whose job the queue rejects does not keep the others from
    being queued, and with a queue that accepts everything the number of
    jobs is five or the number of active sources, whichever is smaller;
    when the selection throws nothing is queued. *)
Theorem scheduleFetchJobs_bounded :
  forall (randomOrder : list SourceRow -> list SourceRow)
         (selectThrows : bool) (fetchQueueAccepts : nat -> bool) (db : DB),
    (forall l, Permutation (randomOrder l) l) ->
    let ids :=
      scheduleFetchJobs randomOrder selectThrows fetchQueueAccepts db in
    List.length ids <= 5
    /\ (forall id,
          In id ids ->
          fetchQueueAccepts id = true
          /\ filter (fun s => (src_id s =? id) && is_active s) (news_sources db)
             <> [])
    /\ (NoDup (map src_id (news_sources db)) -> NoDup ids)
    /\ (selectThrows = true -> ids = [])
    /\ (selectThrows = false ->
        ids = filter fetchQueueAccepts
                (map src_id (randomActiveSources randomOrder db)))
    /\ (selectThrows = false -> (forall id, fetchQueueAccepts id = true) ->
        List.length ids
        = Nat.min 5 (List.length (filter is_active (news_sources db)))).
Proof.
  intros randomOrder selectThrows fetchQueueAccepts db Hperm ids.
  unfold ids, scheduleFetchJobs. rewrite addFetchJobs_filter.
  unfold randomActiveSources.
  set (active := filter is_active (news_sources db)).
  set (chosen := firstn 5 (randomOrder active)).
  assert (Hlen : List.length chosen <= 5)
    by (unfold chosen; rewrite length_firstn; lia).
  assert (Hfl : List.length (filter fetchQueueAccepts (map src_id chosen))
                <= List.length chosen).
  { etransitivity; [apply filter_length_le|]. now rewrite length_map. }
  split; [|split; [|split; [|split; [|split]]]].
  - destruct selectThrows; [cbn; lia | lia].
  - intros id Hin. destruct selectThrows; [contradiction|].
    apply filter_In in Hin. destruct Hin as [Hin Hacc].
    split; [exact Hacc|].
    apply in_map_iff in Hin. destruct Hin as (s & Hid & Hs).
    apply In_firstn in Hs. apply (Permutation_in _ (Hperm active)) in Hs.
    apply filter_In in Hs. destruct Hs as [Hs Hact].
    intros Hnone.
    assert (Hin : In s (filter (fun s => (src_id s =? id) && is_active s)
                          (news_sources db))).
    { apply filter_In. split; [exact Hs|].
      rewrite Hact, andb_true_r. now apply Nat.eqb_eq. }
    rewrite Hnone in Hin. contradiction.
  - intros Hnd. destruct selectThrows; [constructor|].
    apply NoDup_filter. unfold chosen. rewrite <- firstn_map.
    apply NoDup_firstn_keeps.
    apply (Permutation_NoDup
             (Permutation_sym (Permutation_map src_id (Hperm active)))).
    now apply active_ids_distinct.
  - now intros ->.
  - now intros ->.
  - intros -> Hall. rewrite filter_all by (apply Forall_forall; auto).
    rewrite length_map. unfold chosen. rewrite length_firstn.
    now rewrite (Permutation_length (Hperm active)).
Qed.

Lemma scheduleFetchJobs_witness :
  let ids :=
    scheduleFetchJobs (@rev SourceRow) false (fun _ => true)
      Sample2.dbTwoSources in
  List.length ids <= 5
  /\ (NoDup (map src_id (news_sources Sample2.dbTwoSources)) -> NoDup ids)
  /\ ids = [1].
Proof.
  pose proof (scheduleFetchJobs_bounded (@rev SourceRow) false (fun _ => true)
                Sample2.dbTwoSources
                (fun l => Permutation_sym (Permutation_rev l))) as H.
  cbv zeta in *. destruct H as (H1 & _ & H3 & _ & H5 & _).
  split; [exact H1|]. split; [exact H3|].
  rewrite (H5 eq_refl). reflexivity.
Defined.

(* ================================================================== *)
(** ** Further round trips and edge cases *)
(* ================================================================== *)

Lemma isSpace_lowerChar (c : ascii) : isSpace (lowerChar c) = isSpace c.
Proof. destruct c as [[] [] [] [] [] [] [] []]; reflexivity. Qed.

Lemma trimStart_toLowerCase (s : str) :
  trimStart (toLowerCase s) = toLowerCase (trimStart s).
Proof.
  induction s as [|c r IH]; [reflexivity|].
  cbn [toLowerCase map trimStart]. rewrite isSpace_lowerChar.
  destruct (isSpace c); [exact IH | reflexivity].
Qed.

Lemma trim_toLowerCase (s : str) : trim (toLowerCase s) = toLowerCase (trim s).
Proof.
  unfold trim, trimEnd. rewrite trimStart_toLowerCase.
  unfold toLowerCase at 1. rewrite <- map_rev.
  fold (toLowerCase (rev (trimStart s))).
  rewrite trimStart_toLowerCase. unfold toLowerCase. now rewrite map_rev.
Qed.

Lemma pgTrimStart_fixed (s : str) : trimStart s = s -> pgTrimStart s = s.
Proof.
  destruct s as [|c r]; [reflexivity|]. cbn [trimStart pgTrimStart].
  destruct (isSpace c) eqn:Hc.
  - intros H. pose proof (trimStart_length r) as Hlen.
    rewrite H in Hlen. cbn [List.length] in Hlen. lia.
  - intros _. destruct (chr_eqb c " ") eqn:Hsp; [|reflexivity].
    apply chr_eqb_eq in Hsp. subst c. discriminate Hc.
Qed.

Lemma pgTrim_fixed (s : str) : cleanEdges s -> pgTrim s = s.
Proof.
  intros [H1 H2]. unfold pgTrim.
  rewrite (pgTrimStart_fixed s H1), (pgTrimStart_fixed (rev s) H2).
  apply rev_involutive.
Qed.

(** X24.  The content check of the round trip: once the process worker
    has persisted an article whose cleaned content neither begins nor
    ends with white space, [isDuplicate] answers true for every probe
    whose content equals the stored one up to letter case, whatever its
    URL and title are, provided the storage answers. *)
Theorem isDuplicate_after_persist_same_content :
  forall (E : Env) (db db' : DB) (job : ProcessJob) (r : ProcessResult)
         (probe title content : str),
    processWorker E db job = (inr r, db') ->
    (forall q, fails E q = false) ->
    cleanEdges (cleanHTML E (orElse (job_content job) "")) ->
    toLowerCase content
    = toLowerCase (cleanHTML E (orElse (job_content job) "")) ->
    isDuplicate E db' probe title content = true.
Proof.
  intros E db db' job r probe title content Hrun Hok Hedges Hsame.
  destruct (processWorker_success_inv E db db' job r Hrun)
    as (row & -> & _ & _ & _ & _ & _ & _ & Horig & _).
  apply (isDuplicate_true_iff E _ probe title content Hok).
  exists (withId (freshId db) row). split.
  - cbn [articles]. apply in_or_app. right. now left.
  - right. right. cbn [withId content_original]. rewrite Horig.
    cbn [pgCoalesce]. rewrite (pgTrim_fixed _ Hedges).
    unfold generateContentHash. rewrite Hsame, trim_toLowerCase.
    now rewrite (trim_of_cleanEdges _ Hedges).
Qed.

Lemma isDuplicate_same_content_witness :
  isDuplicate (Sample.env [] Sample.healthy) Sample.db1
    "https://other.example.org/markets" "Another headline"
    (toUpperCase Sample.body) = true.
Proof.
  assert (Hrun : exists r,
             processWorker (Sample.env [] Sample.healthy) Sample.db0
               Sample.storyJob = (inr r, Sample.db1)).
  { unfold Sample.db1.
    destruct (processWorker (Sample.env [] Sample.healthy) Sample.db0
                Sample.storyJob) as [[e|r] d] eqn:H.
    - vm_compute in H. discriminate H.
    - exists r. reflexivity. }
  destruct Hrun as [r Hrun].
  apply (isDuplicate_after_persist_same_content _ _ _ _ r _ _ _ Hrun).
  - reflexivity.
  - split; vm_compute; reflexivity.
  - vm_compute. reflexivity.
Defined.

Lemma replaceWs_fixed (s : str) :
  onlyPlainSpaces s ->
  forall inWs, noRuns inWs s = true -> replaceWs_aux " " s inWs = s.
Proof.
  induction 1 as [|c t Hc _ IH]; intros inWs Hruns; [reflexivity|].
  cbn [noRuns] in Hruns. apply andb_true_iff in Hruns.
  destruct Hruns as [Hhd Htl]. cbn [replaceWs_aux].
  destruct (isSpace c) eqn:Hsp.
  - rewrite (Hc eq_refl). destruct inWs; [discriminate Hhd|].
    rewrite (IH true Htl). reflexivity.
  - now rewrite (IH false Htl).
Qed.

Lemma isSpace_upperChar (c : ascii) : isSpace (upperChar c) = isSpace c.
Proof. destruct c as [[] [] [] [] [] [] [] []]; reflexivity. Qed.

Lemma upperChar_idem (c : ascii) : upperChar (upperChar c) = upperChar c.
Proof. destruct c as [[] [] [] [] [] [] [] []]; reflexivity. Qed.

(** What [cleanSummary] returns: a first character that is no white
    space, a terminator at the end, and in between no white space but
    single plain spaces. *)
Lemma cleanSummary_normal_form (summary : str) :
  exists c y,
    cleanSummary summary = upperChar c :: y
    /\ isSpace c = false
    /\ noRuns false (cleanSummary summary) = true
    /\ onlyPlainSpaces (cleanSummary summary).
Proof.
  destruct (cleanSummary_shape summary) as [_ Hne].
  unfold cleanSummary in *. cbv zeta in *.
  set (c2 := trim (replaceWs " " _)) in *.
  assert (Hedges : cleanEdges c2) by apply trim_cleanEdges.
  assert (Hruns : singleSpaced c2).
  { unfold c2. eapply singleSpaced_infix; [|apply trim_occurs].
    apply (replaceWs_single _ false). }
  assert (Hplain : onlyPlainSpaces c2).
  { unfold c2, onlyPlainSpaces.
    eapply occursIn_Forall; [apply trim_occurs|].
    apply (replaceWs_plain _ false). }
  clearbody c2. destruct c2 as [|c y]; [contradiction|].
  cbn [capitalizeFirst] in *.
  assert (Hc : isSpace c = false).
  { destruct Hedges as [H _]. cbn [trimStart] in H.
    destruct (isSpace c); [|reflexivity].
    pose proof (trimStart_length y) as Hlen. rewrite H in Hlen.
    cbn [List.length] in Hlen. lia. }
  exists c, y. split; [reflexivity|]. split; [exact Hc|]. split.
  - unfold singleSpaced in Hruns. cbn [noRuns] in *.
    now rewrite isSpace_upperChar.
  - unfold onlyPlainSpaces in *. inversion Hplain as [|? ? H1 H2]; subst.
    constructor; [|exact H2]. rewrite isSpace_upperChar, Hc. discriminate.
Qed.

(** X25.  Cleaning a summary twice is the same as cleaning it once. *)
Theorem cleanSummary_idempotent :
  forall (summary : str),
    cleanSummary (cleanSummary summary) = cleanSummary summary.
Proof.
  intros summary.
  destruct (cleanSummary_normal_form summary) as (c & y & Hr & Hc & Hruns & Hplain).
  destruct (cleanSummary_shape summary) as [Hend _].
  set (r := cleanSummary summary) in *. clearbody r.
  destruct (endsWithTerm_inv r Hend) as (x & t & Hx & Ht).
  assert (Hedges : cleanEdges r).
  { split.
    - rewrite Hr. cbn [trimStart]. now rewrite isSpace_upperChar, Hc.
    - rewrite Hx, rev_app_distr. cbn [rev app trimStart].
      now rewrite (isTerm_not_space t Ht). }
  unfold cleanSummary. cbv zeta.
  rewrite (trim_of_cleanEdges r Hedges), Hend. cbn [negb].
  unfold replaceWs. rewrite (replaceWs_fixed r Hplain false Hruns).
  rewrite (trim_of_cleanEdges r Hedges), Hr. cbn [capitalizeFirst].
  now rewrite upperChar_idem.
Qed.

(** X26.  A source whose type is none of [rss-full], [rss-scrape], [rss]
    and [scraper], or a scraper source for which scraping gives nothing,
    yields no article: the fetch job still completes, reports nothing
    fetched, queues nothing, and counts a success for the source. *)
Theorem fetchWorker_unknown_type_fetches_nothing :
  forall (E : Env) (db : DB) (sourceId : nat) (source : SourceRow)
         (others : list SourceRow),
    fails E (SelectActiveSource sourceId) = false ->
    filter (fun s => (src_id s =? sourceId) && is_active s) (news_sources db)
    = source :: others ->
    isRssType (src_type source) = false ->
    (str_eqb (src_type source) "scraper" = true ->
     scrapeArticle E (base_url source) = None) ->
    fails E (UpdateSourceSuccess sourceId) = false ->
    fetchWorker E db sourceId
    = {| fetch_outcome :=
           inr {| totalFetched := 0; fr_queued := 0; fr_skipped := 0;
                  fr_source := src_name source |};
         fetch_db := recordSuccess (now E) sourceId db;
         fetch_jobs := [] |}.
Proof.
  intros E db sourceId source others Hq Hrows Hrss Hscr Hupd.
  assert (Hnone : retrieve E source = Some []).
  { unfold retrieve. rewrite Hrss.
    destruct (str_eqb (src_type source) "scraper"); [|reflexivity].
    now rewrite (Hscr eq_refl). }
  unfold fetchWorker, fetchTry, query. rewrite Hq, Hrows, Hnone, Hupd.
  reflexivity.
Qed.

Lemma fetchWorker_unknown_type_witness :
  fetchWorker (Sample.env Sample.feed Sample.healthy) Sample2.dbApi 3
  = {| fetch_outcome :=
         inr {| totalFetched := 0; fr_queued := 0; fr_skipped := 0;
                fr_source := lit "Wire API" |};
       fetch_db := recordSuccess Sample.tenOClock 3 Sample2.dbApi;
       fetch_jobs := [] |}.
Proof.
  apply (fetchWorker_unknown_type_fetches_nothing
           (Sample.env Sample.feed Sample.healthy) Sample2.dbApi 3
           Sample2.apiSource []).
  - reflexivity.
  - reflexivity.
  - reflexivity.
  - intros H. vm_compute in H. discriminate H.
  - reflexivity.
Defined.

Lemma generateSlug_untrimmed (title : str) :
  generateSlug title
  = collapseHyphens (replaceWs "-" (stripNonWord (toLowerCase title))).
Proof.
  unfold generateSlug. apply trim_noSpace, collapseHyphens_noSpace.
  apply replaceWs_hyphen_noSpace.
Qed.

(** X27.  The slug the article handler makes for a title and the slug the
    process worker makes for it agree up to the worker's limit: the
    worker's slug is the first 100 characters of the handler's, and the
    two are equal when the handler's slug has at most 100 characters.
    The handler's slug, too, is made of lower-case letters, digits,
    underscores and hyphens, has no two hyphens in a row, and is left
    unchanged by [generateSlug]. *)
Theorem generateSlug_agrees_with_worker :
  forall (title : str),
    slugOf title = substring0 100 (generateSlug title)
    /\ (List.length (generateSlug title) <= 100 ->
        slugOf title = generateSlug title)
    /\ Forall (fun c => isSlugChar c = true) (generateSlug title)
    /\ noHyphenRun (generateSlug title) = true
    /\ generateSlug (generateSlug title) = generateSlug title.
Proof.
  intros title.
  assert (Hchars : Forall (fun c => isSlugChar c = true) (generateSlug title)).
  { rewrite generateSlug_untrimmed. unfold replaceWs.
    apply collapseHyphens_Forall, replaceWs_hyphen_slug,
      stripNonWord_lower_chars. }
  assert (Hrun : noHyphenRun (generateSlug title) = true)
    by (rewrite generateSlug_untrimmed; apply collapseHyphens_noHyphenRun).
  split; [reflexivity|]. split; [|split; [exact Hchars|split; [exact Hrun|]]].
  - intros Hlen. unfold slugOf, substring0. fold (generateSlug title).
    now apply firstn_all2.
  - set (s := generateSlug title) in *. clearbody s.
    rewrite generateSlug_untrimmed.
    assert (Hlow : toLowerCase s = s).
    { unfold toLowerCase. rewrite <- (map_id s) at 2. apply map_ext_in.
      intros c Hin. apply isSlugChar_kept.
      exact (proj1 (Forall_forall _ s) Hchars c Hin). }
    assert (Hkeep : stripNonWord s = s).
    { unfold stripNonWord. apply filter_all.
      eapply Forall_impl; [|exact Hchars].
      intros c Hc. now apply isSlugChar_kept. }
    assert (Hns : noSpace s).
    { unfold noSpace. eapply Forall_impl; [|exact Hchars].
      intros c Hc. now apply isSlugChar_kept. }
    rewrite Hlow, Hkeep. unfold replaceWs.
    now rewrite (replaceWs_noSpace_same _ s Hns), (collapseHyphens_same s Hrun).
Qed.

Lemma generateSlug_agrees_witness :
  slugOf "Markets rally after rate decision"
  = generateSlug "Markets rally after rate decision".
Proof.
  apply (proj1 (proj2 (generateSlug_agrees_with_worker
                         "Markets rally after rate decision"))).
  vm_compute. lia.
Defined.

(* ================================================================== *)
(** ** Further properties of the fetch loop body *)
(* ================================================================== *)

Lemma scrapeIfBetter_cases (E : Env) (article : ParsedArticle)
    (fullContent : str) (imageUrl : option str) (contentStats : ContentStats) :
  scrapeIfBetter E article fullContent imageUrl contentStats
  = (fullContent, imageUrl)
  \/ exists scraped,
       scrapeArticle E (pa_link article) = Some scraped
       /\ 500 < List.length (sc_content scraped)
       /\ 3 * wordCount contentStats
          < 2 * wordCount (getContentStats (sc_content scraped))
       /\ scrapeIfBetter E article fullContent imageUrl contentStats
          = (sc_content scraped,
             if truthyOpt imageUrl then imageUrl
             else extractImageUrl E (sc_content scraped) (pa_link article)).
Proof.
  unfold scrapeIfBetter.
  destruct (scrapeArticle E (pa_link article)) as [scraped|]; [|now left].
  destruct (truthy (sc_content scraped)) eqn:Hne; [|now left].
  destruct (500 <? List.length (sc_content scraped)) eqn:Hlen; [|now left].
  cbn [andb]. cbv zeta.
  destruct (3 * wordCount contentStats <? _) eqn:Hbetter; [|now left].
  right. exists scraped. apply Nat.ltb_lt in Hlen. apply Nat.ltb_lt in Hbetter.
  repeat split; try assumption.
  destruct (truthyOpt imageUrl); reflexivity.
Qed.

(** X28.  What the loop body settles on for one article.  An image the
    feed itself supplies is never replaced, neither by scraping nor by the
    search in the content.  The final content is the feed content, or it
    is scraped content of more than 500 characters with more than one and
    a half times the words of the feed content, taken only when the
    analyser asked for scraping.  Feed content the analyser accepts as
    full is kept for every source type but [rss-scrape]. *)
Theorem finalize_prefers_feed :
  forall (E : Env) (source : SourceRow) (article : ParsedArticle),
    let feedContent :=
      orElse (pa_content article) (orElse (pa_contentSnippet article) "") in
    (truthyOpt (rssImage article) = true ->
     snd (finalize E source article) = rssImage article)
    /\ (fst (finalize E source article) = feedContent
        \/ exists scraped,
             scrapeArticle E (pa_link article) = Some scraped
             /\ fst (finalize E source article) = sc_content scraped
             /\ 500 < List.length (sc_content scraped)
             /\ 3 * wordCount (getContentStats feedContent)
                < 2 * wordCount (getContentStats (sc_content scraped))
             /\ needsScraping feedContent (src_type source) (pa_title article)
                = true)
    /\ (isFullContent feedContent (pa_title article) = true ->
        src_type source <> lit "rss-scrape" ->
        fst (finalize E source article) = feedContent).
Proof.
  intros E source article feedContent. unfold finalize. fold feedContent.
  cbv zeta.
  destruct (needsScraping feedContent (src_type source) (pa_title article))
    eqn:Hscrape.
  - destruct (scrapeIfBetter_cases E article feedContent (rssImage article)
                (getContentStats feedContent))
      as [-> | (scraped & Hsc & Hlen & Hbetter & ->)].
    + split; [|split].
      * intros Himg. cbn [snd]. now rewrite Himg.
      * now left.
      * reflexivity.
    + split; [|split].
      * intros Himg. rewrite Himg. cbn [snd]. now rewrite Himg.
      * right. exists scraped. repeat split; assumption.
      * intros Hfull Htype. exfalso.
        unfold needsScraping in Hscrape.
        destruct (str_eqb (src_type source) "rss-scrape") eqn:Hs.
        -- apply str_eqb_eq in Hs. contradiction.
        -- rewrite Hfull in Hscrape.
           destruct (str_eqb (src_type source) "rss-full"); discriminate.
  - split; [|split].
    + intros Himg. cbn [snd]. now rewrite Himg.
    + now left.
    + reflexivity.
Qed.

Lemma finalize_prefers_feed_witness :
  snd (finalize (Sample.env Sample.feed Sample.healthy) Sample.source
         (Sample.candidate "First good story" "https://example.com/c"
            Sample.longBody (Some (lit "https://example.com/i/c.jpg"))))
  = Some (lit "https://example.com/i/c.jpg").
Proof.
  apply (proj1 (finalize_prefers_feed (Sample.env Sample.feed Sample.healthy)
                  Sample.source
                  (Sample.candidate "First good story" "https://example.com/c"
                     Sample.longBody
                     (Some (lit "https://example.com/i/c.jpg"))))).
  reflexivity.
Defined.
